(** * Source deduction for import paths (gps, remote.go)

    A shallow embedding of [remote.go]: the regular expressions of the hosting
    conventions, the matchers built on them, [normalizeURI], [deduceFromPath]
    and the goroutine-and-channel futures it hands out, followed by the
    properties of the specification that concern them. *)

From Stdlib Require Import Ascii String NArith Lia.
From stdpp Require Import base option list strings.

Local Open Scope string_scope.
Local Open Scope list_scope.

(** ** Outcome of a Go call

    A Go function either returns normally, returns a non-nil [error], or
    panics.  The three cases are kept apart. *)

Module Go.

(** The errors [remote.go] builds with [fmt.Errorf], one constructor per
    format string, carrying the arguments of the format. *)
Inductive error : Type :=
| ErrNotValidPathFor (path host : string)
    (* "%s is not a valid path for a source on <host>" *)
| ErrNoVcsExtensionHints (path : string)
    (* "%s contains no vcs extension hints for matching" *)
| ErrInvalidScheme (scheme what : string)
    (* "%s is not a valid scheme for accessing <what>" *)
| ErrInvalidSchemeExt (scheme vcs path : string)
    (* "%s is not a valid scheme for accessing %s repositories (path %s)" *)
| ErrGopkginMajorOnly (path major version : string)
    (* "%q is not a valid import path; gopkg.in only allows major versions (%q instead of %q)" *)
| ErrGopkginScheme
    (* "Specifying alternate schemes on gopkg.in imports is not permitted" *)
| ErrUnknownRepositoryType (vcs : string)
    (* "unknown repository type: %q" *)
| ErrNotValidURI (path : string)
    (* "%q is not a valid URI" *)
| ErrNotValidImportPath (path : string)
    (* "%q is not a valid import path" *)
| ErrUnableToDeduce (path : string)
    (* "unable to deduce repository and source type for: %q" *)
| ErrBadVanityURL (reporoot : string)
    (* "server returned bad URL when searching for vanity import: %q" *)
| ErrUnsupportedVcsType (vcs : string)
    (* "unsupported vcs type %s" *)
| ErrMetadataProtocol (cause : error)
    (* "unable to determine remote metadata protocol: %s" *)
| ErrFailedToAccess (url : string)
    (* "failed to access url %q" *)
| ErrUnknownRemoteProtocol (scheme : string)
    (* "unknown remote protocol scheme: %q" *)
| ErrMultipleMetaTags (path : string)
    (* "multiple meta tags match import path %q" *)
| ErrMetadataNotFound
    (* "go-import metadata not found" *)
| ErrExternal (msg : string)
    (* an error produced by a collaborator outside this file *).

(** Run-time panics. *)
Inductive panic : Type :=
| PanicUnsupportedVcsType (scheme : string)
    (* panic(fmt.Sprint("unsupported vcs type", scheme)) *)
| PanicIndexOutOfRange (index len : nat)
| PanicSliceBounds (len : nat)
| PanicNilDereference.

Inductive result (A : Type) : Type :=
| Ok (a : A)
| Err (e : error)
| Panic (p : panic).

Arguments Ok {A} a.
Arguments Err {A} e.
Arguments Panic {A} p.

Definition bind {A B : Type} (m : result A) (f : A -> result B) : result B :=
  match m with
  | Ok a => f a
  | Err e => Err e
  | Panic p => Panic p
  end.

(** [l[i]] on a slice: out of range is a run-time panic. *)
Definition index {A : Type} (l : list A) (i : nat) : result A :=
  match l !! i with
  | Some a => Ok a
  | None => Panic (PanicIndexOutOfRange i (length l))
  end.

(** [s[:i]] on a string, [i] being the result of [strings.Index] ([None]
    is -1, which is out of range). *)
Definition slice_to (s : string) (i : option nat) : result string :=
  match i with
  | Some n => Ok (String.substring 0 n s)
  | None => Panic (PanicSliceBounds (String.length s))
  end.

(** [l[i] = x] on a slice. *)
Definition assign {A : Type} (l : list A) (i : nat) (x : A) : result (list A) :=
  if decide (i < length l) then Ok (<[i := x]> l)
  else Panic (PanicIndexOutOfRange i (length l)).

End Go.

Export Go.

#[global] Instance result_ret : MRet result := @Ok.
#[global] Instance result_bind : MBind result := fun A B f m => Go.bind m f.

(** ** package strings *)

Module strings.

Definition HasPrefix (s prefix : string) : bool := String.prefix prefix s.

Definition HasSuffix (s suffix : string) : bool :=
  let n := String.length s in
  let m := String.length suffix in
  (m <=? n)%nat && String.eqb (String.substring (n - m) m s) suffix.

(** [strings.Index]: position of the first occurrence, [None] for -1. *)
Definition Index (s sep : string) : option nat := String.index 0 sep s.

Definition Contains (s substr : string) : bool :=
  match Index s substr with Some _ => true | None => false end.

Definition TrimPrefix (s prefix : string) : string :=
  if HasPrefix s prefix
  then String.substring (String.length prefix) (String.length s - String.length prefix) s
  else s.

(** [strings.SplitN(s, sep, 2)]: split around the first separator. *)
Definition SplitN2 (s sep : string) : list string :=
  match Index s sep with
  | Some i =>
      [ String.substring 0 i s;
        String.substring (i + String.length sep)
          (String.length s - (i + String.length sep)) s ]
  | None => [ s ]
  end.

End strings.

(** ** package regexp

    The syntax tree follows the operators of Go's [regexp/syntax]; the matcher
    is a backtracking one, which finds the leftmost match and, among the
    matches starting there, the one preferred by the order of alternatives and
    the greediness of the repetitions: the match Go's [regexp] returns. *)

Module regexp.

Inductive Regexp : Type :=
| EmptyMatch
| Literal (c : ascii)
| CharClass (ranges : list (ascii * ascii))
| AnyCharNotNL
| BeginText
| EndText
| Concat (r1 r2 : Regexp)
| Alternate (r1 r2 : Regexp)
| Star (greedy : bool) (r : Regexp)
| Capture (n : nat) (r : Regexp).

Definition Plus (greedy : bool) (r : Regexp) : Regexp := Concat r (Star greedy r).
Definition Quest (r : Regexp) : Regexp := Alternate r EmptyMatch.
(** [r{0,2}] *)
Definition Repeat02 (r : Regexp) : Regexp := Quest (Concat r (Quest r)).

Fixpoint Lit (s : string) : Regexp :=
  match s with
  | EmptyString => EmptyMatch
  | String c EmptyString => Literal c
  | String c s' => Concat (Literal c) (Lit s')
  end.

Fixpoint Seq (rs : list Regexp) : Regexp :=
  match rs with
  | [] => EmptyMatch
  | [r] => r
  | r :: rs' => Concat r (Seq rs')
  end.

Definition in_range (c : ascii) (r : ascii * ascii) : bool :=
  (N_of_ascii (fst r) <=? N_of_ascii c)%N && (N_of_ascii c <=? N_of_ascii (snd r))%N.

Definition in_class (c : ascii) (ranges : list (ascii * ascii)) : bool :=
  existsb (in_range c) ranges.

(** Submatch positions: capture index to (start, end), latest first. *)
Definition caps : Type := list (nat * (nat * nat)).

Fixpoint cap_lookup (n : nat) (c : caps) : option (nat * nat) :=
  match c with
  | [] => None
  | (m, se) :: c' => if (n =? m)%nat then Some se else cap_lookup n c'
  end.

Definition cont : Type := string -> nat -> caps -> option caps.

Definition orelse (a : option caps) (b : unit -> option caps) : option caps :=
  match a with
  | Some x => Some x
  | None => b tt
  end.

(** The repetition of a sub-pattern [body]: at most [fuel] rounds, each of
    which has to consume some text. *)
Fixpoint star_loop (greedy : bool) (body : cont -> cont) (k : cont)
  (fuel : nat) (s : string) (i : nat) (c : caps) {struct fuel} : option caps :=
  match fuel with
  | O => k s i c
  | S fuel' =>
      let again (_ : unit) :=
        body (fun s' i' c' =>
                if (i' =? i)%nat then None
                else star_loop greedy body k fuel' s' i' c') s i c in
      if greedy
      then orelse (again tt) (fun _ => k s i c)
      else orelse (k s i c) again
  end.

(** [run r k s i c]: match [r] against the text [s] that starts at offset [i]
    of the input, then continue with [k] on what is left. *)
Fixpoint run (r : Regexp) (k : cont) (s : string) (i : nat) (c : caps)
  {struct r} : option caps :=
  match r with
  | EmptyMatch => k s i c
  | Literal a =>
      match s with
      | String b s' => if Ascii.eqb a b then k s' (S i) c else None
      | EmptyString => None
      end
  | CharClass ranges =>
      match s with
      | String b s' => if in_class b ranges then k s' (S i) c else None
      | EmptyString => None
      end
  | AnyCharNotNL =>
      match s with
      | String b s' => if Ascii.eqb b "010"%char then None else k s' (S i) c
      | EmptyString => None
      end
  | BeginText => if (i =? 0)%nat then k s i c else None
  | EndText =>
      match s with
      | EmptyString => k s i c
      | String _ _ => None
      end
  | Concat r1 r2 => run r1 (fun s' i' c' => run r2 k s' i' c') s i c
  | Alternate r1 r2 => orelse (run r1 k s i c) (fun _ => run r2 k s i c)
  | Star greedy r1 => star_loop greedy (run r1) k (S (String.length s)) s i c
  | Capture n r1 => run r1 (fun s' i' c' => k s' i' ((n, (i, i')) :: c')) s i c
  end.

Fixpoint NumSubexp (r : Regexp) : nat :=
  match r with
  | Concat r1 r2 | Alternate r1 r2 => Nat.max (NumSubexp r1) (NumSubexp r2)
  | Star _ r1 => NumSubexp r1
  | Capture n r1 => Nat.max n (NumSubexp r1)
  | _ => 0
  end.

(** Try the start offsets from left to right. *)
Fixpoint search (r : Regexp) (s : string) (i : nat) : option caps :=
  match run r (fun _ j c => Some ((0, (i, j)) :: c)) s i [] with
  | Some c => Some c
  | None =>
      match s with
      | EmptyString => None
      | String _ s' => search r s' (S i)
      end
  end.

Definition submatch (s : string) (c : caps) (n : nat) : string :=
  match cap_lookup n c with
  | Some (b, e) => String.substring b (e - b) s
  | None => ""
  end.

(** [re.FindStringSubmatch(s)]; [None] is Go's nil slice. *)
Definition FindStringSubmatch (re : Regexp) (s : string) : option (list string) :=
  match search re s 0 with
  | Some c => Some (submatch s c <$> seq 0 (S (NumSubexp re)))
  | None => None
  end.

Definition MatchString (re : Regexp) (s : string) : bool :=
  match search re s 0 with Some _ => true | None => false end.

End regexp.

Import regexp.

(** ** package net/url: the [URL] structure *)

Module url.

Record Userinfo : Type := mkUserinfo {
  username : string;
  password : option string
}.

Record URL : Type := mkURL {
  Scheme : string;
  Opaque : string;
  User : option Userinfo;
  Host : string;
  Path : string;
  RawPath : string;
  RawQuery : string;
  Fragment : string
}.

(** [url.User(name)] *)
Definition UserOf (name : string) : option Userinfo :=
  Some {| username := name; password := None |}.

(** [u.Username()], which is the empty string on a nil [*Userinfo]. *)
Definition Username (u : option Userinfo) : string :=
  match u with
  | Some ui => username ui
  | None => ""
  end.

Definition with_Scheme (u : URL) (s : string) : URL :=
  {| Scheme := s; Opaque := Opaque u; User := User u; Host := Host u;
     Path := Path u; RawPath := RawPath u; RawQuery := RawQuery u;
     Fragment := Fragment u |}.

Definition with_Host (u : URL) (h : string) : URL :=
  {| Scheme := Scheme u; Opaque := Opaque u; User := User u; Host := h;
     Path := Path u; RawPath := RawPath u; RawQuery := RawQuery u;
     Fragment := Fragment u |}.

Definition with_Path (u : URL) (p : string) : URL :=
  {| Scheme := Scheme u; Opaque := Opaque u; User := User u; Host := Host u;
     Path := p; RawPath := RawPath u; RawQuery := RawQuery u;
     Fragment := Fragment u |}.

End url.

Import url.

(** ** remote.go *)

(** The candidate sources ([maybeSource] and its implementations are declared
    next to [remote.go]; here only their shape matters).  [nilSource] is the
    nil interface value; the [url] field is a pointer, [None] when nil. *)
#[warnings="-register-all"]
Inductive maybeSource : Type :=
| nilSource
| maybeGitSource (url : option URL)
| maybeBzrSource (url : option URL)
| maybeHgSource (url : option URL)
| maybeSources (l : list maybeSource).

Definition gitSchemes : list string := ["https"; "ssh"; "git"; "http"].
Definition bzrSchemes : list string := ["https"; "bzr+ssh"; "bzr"; "http"].
Definition hgSchemes : list string := ["https"; "ssh"; "http"].
Definition svnSchemes : list string := ["https"; "http"; "svn"; "svn+ssh"].

Definition validateVCSScheme (scheme typ : string) : result bool :=
  schemes ←
    (if String.eqb typ "git" then Ok gitSchemes
     else if String.eqb typ "bzr" then Ok bzrSchemes
     else if String.eqb typ "hg" then Ok hgSchemes
     else if String.eqb typ "svn" then Ok svnSchemes
     else Panic (PanicUnsupportedVcsType scheme));
  Ok (existsb (fun valid => String.eqb scheme valid) schemes).

(** *** Regexes for the different known import path flavors *)

Module Re.

Definition rng (a b : ascii) : ascii * ascii := (a, b).
Definition chr (a : ascii) : ascii * ascii := (a, a).
Arguments rng a%_char b%_char.
Arguments chr a%_char.

Definition AZ := rng "A" "Z".
Definition az := rng "a" "z".
Definition d09 := rng "0" "9".
Definition d19 := rng "1" "9".

(** The class [A-Za-z0-9_.\-] *)
Definition word : Regexp :=
  CharClass [AZ; az; d09; chr "_"; chr "."; chr "-"].

(** The trailing sub-path ((?:/[A-Za-z0-9_.\-]+)* ), as capture [n]. *)
Definition subpath (n : nat) : Regexp :=
  Capture n (Star true (Concat (Literal "/") (Plus true word))).

End Re.

Import Re.

(** Go pattern (blanks added): ^(?P<root>github\.com/([A-Za-z0-9][-A-Za-z0-9]*[A-Za-z0-9]/[A-Za-z0-9_.\-]+))((?:/[A-Za-z0-9_.\-]+)* )$ *)
Definition ghRegex : Regexp :=
  Seq [ BeginText;
        Capture 1 (Seq [ Lit "github.com/";
          Capture 2 (Seq [ CharClass [AZ; az; d09];
                           Star true (CharClass [chr "-"; AZ; az; d09]);
                           CharClass [AZ; az; d09];
                           Literal "/";
                           Plus true word ]) ]);
        subpath 3;
        EndText ].

(** Go pattern (blanks added): ^(?P<root>gopkg\.in/(?:([a-zA-Z0-9][-a-zA-Z0-9]+)/)?([a-zA-Z][-.a-zA-Z0-9]* )\.((?:v0|v[1-9][0-9]* )(?:\.0|\.[1-9][0-9]* ){0,2}(-unstable)?)(?:\.git)?)((?:/[a-zA-Z0-9][-.a-zA-Z0-9]* )* )$ *)
Definition gpinNewRegex : Regexp :=
  Seq [ BeginText;
        Capture 1 (Seq [ Lit "gopkg.in/";
          Quest (Seq [ Capture 2 (Seq [ CharClass [az; AZ; d09];
                                        Plus true (CharClass [chr "-"; az; AZ; d09]) ]);
                       Literal "/" ]);
          Capture 3 (Seq [ CharClass [az; AZ];
                           Star true (CharClass [chr "-"; chr "."; az; AZ; d09]) ]);
          Literal ".";
          Capture 4 (Seq [ Alternate (Lit "v0")
                             (Seq [ Literal "v"; CharClass [d19];
                                    Star true (CharClass [d09]) ]);
                           Repeat02 (Alternate (Lit ".0")
                             (Seq [ Literal "."; CharClass [d19];
                                    Star true (CharClass [d09]) ]));
                           Quest (Capture 5 (Lit "-unstable")) ]);
          Quest (Lit ".git") ]);
        Capture 6 (Star true (Seq [ Literal "/"; CharClass [az; AZ; d09];
                                    Star true (CharClass [chr "-"; chr "."; az; AZ; d09]) ]));
        EndText ].

(** Go pattern (blanks added): ^(?P<root>bitbucket\.org/(?P<bitname>[A-Za-z0-9_.\-]+/[A-Za-z0-9_.\-]+))((?:/[A-Za-z0-9_.\-]+)* )$ *)
Definition bbRegex : Regexp :=
  Seq [ BeginText;
        Capture 1 (Seq [ Lit "bitbucket.org/";
          Capture 2 (Seq [ Plus true word; Literal "/"; Plus true word ]) ]);
        subpath 3;
        EndText ].

(** Go pattern (blanks added): ^(?P<root>launchpad\.net/([A-Za-z0-9-._]+))((?:/[A-Za-z0-9_.\-]+)* )? *)
Definition lpRegex : Regexp :=
  Seq [ BeginText;
        Capture 1 (Seq [ Lit "launchpad.net/";
          Capture 2 (Plus true (CharClass [AZ; az; d09; chr "-"; chr "."; chr "_"])) ]);
        Quest (subpath 3) ].

(** Go pattern (blanks added): ^(?P<root>git\.launchpad\.net/([A-Za-z0-9_.\-]+))((?:/[A-Za-z0-9_.\-]+)* )$ *)
Definition glpRegex : Regexp :=
  Seq [ BeginText;
        Capture 1 (Seq [ Lit "git.launchpad.net/"; Capture 2 (Plus true word) ]);
        subpath 3;
        EndText ].

(** Go pattern (blanks added): ^(?P<root>hub\.jazz\.net/(git/[a-z0-9]+/[A-Za-z0-9_.\-]+))((?:/[A-Za-z0-9_.\-]+)* )$ *)
Definition jazzRegex : Regexp :=
  Seq [ BeginText;
        Capture 1 (Seq [ Lit "hub.jazz.net/";
          Capture 2 (Seq [ Lit "git/"; Plus true (CharClass [az; d09]);
                           Literal "/"; Plus true word ]) ]);
        subpath 3;
        EndText ].

(** Go pattern (blanks added): ^(?P<root>git\.apache\.org/([a-z0-9_.\-]+\.git))((?:/[A-Za-z0-9_.\-]+)* )$ *)
Definition apacheRegex : Regexp :=
  Seq [ BeginText;
        Capture 1 (Seq [ Lit "git.apache.org/";
          Capture 2 (Seq [ Plus true (CharClass [az; d09; chr "_"; chr "."; chr "-"]);
                           Lit ".git" ]) ]);
        subpath 3;
        EndText ].

(** Go pattern (blanks added): ^(?P<root>(?P<repo>([a-z0-9.\-]+\.)+[a-z0-9.\-]+(:[0-9]+)?/[A-Za-z0-9_.\-/~]*?)\.(?P<vcs>bzr|git|hg|svn))((?:/[A-Za-z0-9_.\-]+)* )$ *)
Definition vcsExtensionRegex : Regexp :=
  Seq [ BeginText;
        Capture 1 (Seq [
          Capture 2 (Seq [
            Plus true (Capture 3 (Seq [ Plus true (CharClass [az; d09; chr "."; chr "-"]);
                                        Literal "." ]));
            Plus true (CharClass [az; d09; chr "."; chr "-"]);
            Quest (Capture 4 (Seq [ Literal ":"; Plus true (CharClass [d09]) ]));
            Literal "/";
            Star false (CharClass [AZ; az; d09; chr "_"; chr "."; chr "-"; chr "/"; chr "~"]) ]);
          Literal ".";
          Capture 5 (Alternate (Lit "bzr") (Alternate (Lit "git")
                       (Alternate (Lit "hg") (Lit "svn")))) ]);
        subpath 6;
        EndText ].

(** *** Other helper regexes *)

(** Go pattern (blanks added): ^([a-zA-Z0-9_]+)@([a-zA-Z0-9._-]+):(.* )$ *)
Definition scpSyntaxRe : Regexp :=
  Seq [ BeginText;
        Capture 1 (Plus true (CharClass [az; AZ; d09; chr "_"]));
        Literal "@";
        Capture 2 (Plus true (CharClass [az; AZ; d09; chr "."; chr "_"; chr "-"]));
        Literal ":";
        Capture 3 (Star true AnyCharNotNL);
        EndText ].

(** Go pattern (blanks added): ^([A-Za-z0-9-]+)(\.[A-Za-z0-9-]+)+(/[A-Za-z0-9-_.~]+)*$ *)
Definition pathvld : Regexp :=
  Seq [ BeginText;
        Capture 1 (Plus true (CharClass [AZ; az; d09; chr "-"]));
        Plus true (Capture 2 (Seq [ Literal ".";
                                    Plus true (CharClass [AZ; az; d09; chr "-"]) ]));
        Star true (Capture 3 (Seq [ Literal "/";
          Plus true (CharClass [AZ; az; d09; chr "-"; chr "_"; chr "."; chr "~"]) ]));
        EndText ].


(** *** Futures

    A future of [remote.go] is a closure over a channel and the variables a
    goroutine assigns before it closes the channel.  The closures are named
    here by the place that builds them; what calling one does is given by the
    machine of the section on goroutines below. *)

Inductive futureString : Type :=
| simpleStringFuture (s : string)
    (* func() (string, error) { return s, nil } *)
| deduceFromPath_root (path : string)
    (* the closure of deduceFromPath over c, importroot and futerr *).

Inductive deferredFutureSource : Type :=
| sourceFutureFactory (mb : maybeSource)
| deduceFromPath_src (path : string)
    (* the closure of deduceFromPath chained onto its root future *).

(** [for k, scheme := range schemes { body }], from index [k] on. *)
Fixpoint range_schemes {A : Type} (body : nat -> string -> A -> result A)
  (k : nat) (schemes : list string) (acc : A) : result A :=
  match schemes with
  | [] => Ok acc
  | scheme :: rest =>
      acc' ← body k scheme acc;
      range_schemes body (S k) rest acc'
  end.

(** [make(maybeSources, n)] *)
Definition make_maybeSources (n : nat) : list maybeSource := replicate n nilSource.

(** The loop shared by the scheme-less branch of most matchers:
    [u2 := *u; u2.Scheme = scheme; mb[k] = mk(&u2)]. *)
Definition fill_schemes (mk : option URL -> maybeSource) (u : URL)
  (schemes : list string) (mb : list maybeSource) : result (list maybeSource) :=
  range_schemes (fun k scheme mb => assign mb k (mk (Some (with_Scheme u scheme)))) 0 schemes mb.

(** The loop of the Bitbucket matcher: [mb = append(mb, mk(&u2))]. *)
Definition append_schemes (mk : option URL -> maybeSource) (u : URL)
  (schemes : list string) (mb : list maybeSource) : result (list maybeSource) :=
  range_schemes (fun _ scheme mb => Ok (mb ++ [mk (Some (with_Scheme u scheme))])) 0 schemes mb.

Class matcher (M : Type) : Type := {
  deduceRoot : M -> string -> result futureString;
  deduceSource : M -> string -> URL -> result deferredFutureSource
}.

Record githubMatcher : Type := { github_regexp : Regexp }.
Record bitbucketMatcher : Type := { bitbucket_regexp : Regexp }.
Record gopkginMatcher : Type := { gopkgin_regexp : Regexp }.
Record launchpadMatcher : Type := { launchpad_regexp : Regexp }.
Record launchpadGitMatcher : Type := { launchpadGit_regexp : Regexp }.
Record jazzMatcher : Type := { jazz_regexp : Regexp }.
Record apacheMatcher : Type := { apache_regexp : Regexp }.
Record vcsExtensionMatcher : Type := { vcsExtension_regexp : Regexp }.

(** The body shared, up to the host name, the VCS kind and the scheme list it
    enumerates, by the GitHub, Launchpad, Launchpad-git, Jazz and Apache
    matchers. *)
Definition simple_deduceRoot (re : Regexp) (host : string) (path : string)
  : result futureString :=
  match FindStringSubmatch re path with
  | None => Err (ErrNotValidPathFor path host)
  | Some v =>
      v2 ← index v 2;
      Ok (simpleStringFuture (host ++ "/" ++ v2))
  end.

Definition simple_deduceSource (re : Regexp) (host typ what : string)
  (mk : option URL -> maybeSource) (schemes : list string) (path : string) (u : URL)
  : result deferredFutureSource :=
  match FindStringSubmatch re path with
  | None => Err (ErrNotValidPathFor path host)
  | Some v =>
      v2 ← index v 2;
      let u := with_Path u v2 in
      if negb (String.eqb (Scheme u) "") then
        valid ← validateVCSScheme (Scheme u) typ;
        if negb valid then Err (ErrInvalidScheme (Scheme u) what)
        else Ok (sourceFutureFactory (mk (Some u)))
      else
        mb ← fill_schemes mk u schemes (make_maybeSources (length schemes));
        Ok (sourceFutureFactory (maybeSources mb))
  end.

#[global] Instance githubMatcher_matcher : matcher githubMatcher := {
  deduceRoot m := simple_deduceRoot (github_regexp m) "github.com";
  deduceSource m :=
    simple_deduceSource (github_regexp m) "github.com" "git" "a git repository"
      maybeGitSource gitSchemes
}.

#[global] Instance launchpadMatcher_matcher : matcher launchpadMatcher := {
  deduceRoot m := simple_deduceRoot (launchpad_regexp m) "launchpad.net";
  deduceSource m :=
    simple_deduceSource (launchpad_regexp m) "launchpad.net" "bzr" "a bzr repository"
      maybeBzrSource bzrSchemes
}.

(** The scheme-less branch enumerates [bzrSchemes], as the source does. *)
#[global] Instance launchpadGitMatcher_matcher : matcher launchpadGitMatcher := {
  deduceRoot m := simple_deduceRoot (launchpadGit_regexp m) "git.launchpad.net";
  deduceSource m :=
    simple_deduceSource (launchpadGit_regexp m) "git.launchpad.net" "git"
      "a git repository" maybeGitSource bzrSchemes
}.

#[global] Instance jazzMatcher_matcher : matcher jazzMatcher := {
  deduceRoot m := simple_deduceRoot (jazz_regexp m) "hub.jazz.net";
  deduceSource m :=
    simple_deduceSource (jazz_regexp m) "hub.jazz.net" "git" "a git repository"
      maybeGitSource gitSchemes
}.

#[global] Instance apacheMatcher_matcher : matcher apacheMatcher := {
  deduceRoot m := simple_deduceRoot (apache_regexp m) "git.apache.org";
  deduceSource m :=
    simple_deduceSource (apache_regexp m) "git.apache.org" "git" "a git repository"
      maybeGitSource gitSchemes
}.

(** **** Bitbucket *)

Definition bitbucketMatcher_deduceRoot (m : bitbucketMatcher) (path : string)
  : result futureString :=
  match FindStringSubmatch (bitbucket_regexp m) path with
  | None => Err (ErrNotValidPathFor path "bitbucket.org")
  | Some v =>
      v2 ← index v 2;
      Ok (simpleStringFuture ("bitbucket.org/" ++ v2))
  end.

Definition bitbucketMatcher_deduceSource (m : bitbucketMatcher) (path : string)
  (u : URL) : result deferredFutureSource :=
  match FindStringSubmatch (bitbucket_regexp m) path with
  | None => Err (ErrNotValidPathFor path "bitbucket.org")
  | Some v =>
      v2 ← index v 2;
      let u := with_Path u v2 in
      let isgit := strings.HasSuffix (Path u) ".git" || String.eqb (Username (User u)) "git" in
      let ishg := strings.HasSuffix (Path u) ".hg" || String.eqb (Username (User u)) "hg" in
      if negb (String.eqb (Scheme u) "") then
        validgit ← validateVCSScheme (Scheme u) "git";
        validhg ← validateVCSScheme (Scheme u) "hg";
        if isgit then
          if negb validgit then Err (ErrInvalidScheme (Scheme u) "a git repository")
          else Ok (sourceFutureFactory (maybeGitSource (Some u)))
        else if ishg then
          if negb validhg then Err (ErrInvalidScheme (Scheme u) "an hg repository")
          else Ok (sourceFutureFactory (maybeHgSource (Some u)))
        else if negb validgit && negb validhg then
          Err (ErrInvalidScheme (Scheme u) "either a git or hg repository")
        else
          Ok (sourceFutureFactory
                (maybeSources [maybeGitSource (Some u); maybeHgSource (Some u)]))
      else
        let mb := make_maybeSources 0 in
        mb ← (if negb ishg then append_schemes maybeGitSource u gitSchemes mb else Ok mb);
        mb ← (if negb isgit then append_schemes maybeHgSource u hgSchemes mb else Ok mb);
        Ok (sourceFutureFactory (maybeSources mb))
  end.

#[global] Instance bitbucketMatcher_matcher : matcher bitbucketMatcher := {
  deduceRoot := bitbucketMatcher_deduceRoot;
  deduceSource := bitbucketMatcher_deduceSource
}.

(** **** gopkg.in *)

Definition gopkginMatcher_deduceRoot (m : gopkginMatcher) (path : string)
  : result futureString :=
  match FindStringSubmatch (gopkgin_regexp m) path with
  | None => Err (ErrNotValidPathFor path "gopkg.in")
  | Some v =>
      v2 ← index v 2;
      Ok (simpleStringFuture ("gopkg.in/" ++ v2))
  end.

Definition gopkginMatcher_deduceSource (m : gopkginMatcher) (path : string)
  (u : URL) : result deferredFutureSource :=
  match FindStringSubmatch (gopkgin_regexp m) path with
  | None => Err (ErrNotValidPathFor path "gopkg.in")
  | Some v =>
      v4 ← index v 4;
      if strings.Contains v4 "." then
        major ← slice_to v4 (strings.Index v4 ".");
        Err (ErrGopkginMajorOnly path major v4)
      else if negb (String.eqb (Scheme u) "") then Err ErrGopkginScheme
      else
        let u := with_Host u "github.com" in
        v2 ← index v 2;
        u ← (if String.eqb v2 ""
             then v3 ← index v 3; Ok (with_Path u ("go-pkg/" ++ v3))
             else v3 ← index v 3; Ok (with_Path u (v2 ++ "/" ++ v3)));
        mb ← fill_schemes maybeGitSource u gitSchemes
               (make_maybeSources (length gitSchemes));
        Ok (sourceFutureFactory (maybeSources mb))
  end.

#[global] Instance gopkginMatcher_matcher : matcher gopkginMatcher := {
  deduceRoot := gopkginMatcher_deduceRoot;
  deduceSource := gopkginMatcher_deduceSource
}.

(** **** The generic matcher on a VCS extension *)

Definition vcsExtensionMatcher_deduceRoot (m : vcsExtensionMatcher) (path : string)
  : result futureString :=
  match FindStringSubmatch (vcsExtension_regexp m) path with
  | None => Err (ErrNoVcsExtensionHints path)
  | Some v =>
      v1 ← index v 1;
      Ok (simpleStringFuture v1)
  end.

Definition vcsExtensionMatcher_deduceSource (m : vcsExtensionMatcher)
  (path : string) (u : URL) : result deferredFutureSource :=
  match FindStringSubmatch (vcsExtension_regexp m) path with
  | None => Err (ErrNoVcsExtensionHints path)
  | Some v =>
      v5 ← index v 5;
      if String.eqb v5 "git" || String.eqb v5 "hg" || String.eqb v5 "bzr" then
        v1 ← index v 1;
        let x := strings.SplitN2 v1 "/" in
        x0 ← index x 0;
        let u := with_Host u x0 in
        x1 ← index x 1;
        let u := with_Path u x1 in
        (* the scheme-less part of the case, after the [if u.Scheme != ""] *)
        let enumerate : result deferredFutureSource :=
          (* [schemes] and [f] are nil unless one of the cases is taken *)
          let '(schemes, f) :=
            if String.eqb v5 "git" then (gitSchemes, Some maybeGitSource)
            else if String.eqb v5 "bzr" then (bzrSchemes, Some maybeBzrSource)
            else if String.eqb v5 "hg" then (hgSchemes, Some maybeHgSource)
            else ([], None) in
          let mb := make_maybeSources (length schemes) in
          mb ← range_schemes
                 (fun k scheme mb =>
                    match f with
                    | Some mk => assign mb k (mk (Some (with_Scheme u scheme)))
                    | None => Panic PanicNilDereference
                    end) 0 gitSchemes mb;
          Ok (sourceFutureFactory (maybeSources mb)) in
        if negb (String.eqb (Scheme u) "") then
          valid ← validateVCSScheme (Scheme u) v5;
          if negb valid then Err (ErrInvalidSchemeExt (Scheme u) v5 path)
          else if String.eqb v5 "git" then Ok (sourceFutureFactory (maybeGitSource (Some u)))
          else if String.eqb v5 "bzr" then Ok (sourceFutureFactory (maybeBzrSource (Some u)))
          else if String.eqb v5 "hg" then Ok (sourceFutureFactory (maybeHgSource (Some u)))
          else enumerate
        else enumerate
      else Err (ErrUnknownRepositoryType v5)
  end.

#[global] Instance vcsExtensionMatcher_matcher : matcher vcsExtensionMatcher := {
  deduceRoot := vcsExtensionMatcher_deduceRoot;
  deduceSource := vcsExtensionMatcher_deduceSource
}.

(** *** What lies outside [remote.go]

    [url.Parse] and [http.Get] are Go's; [parseMetaGoImports], the sources and
    [maybeSource.try] belong to the neighbouring files.  The network and the
    disk are a [World] that the calls thread through. *)

Record metaImport : Type := {
  Prefix : string;
  VCS : string;
  RepoRoot : string
}.

Class External : Type := {
  World : Type;
  Body : Type;
  source : Type;
  ProjectAnalyzer : Type;
  (** [url.Parse]; [None] stands for a non-nil error *)
  url_Parse : string -> option URL;
  (** [http.Get]; [None] stands for a non-nil error *)
  http_Get : string -> World -> option Body * World;
  parseMetaGoImports : Body -> result (list metaImport);
  (** [mb.try(cachedir, an)], with the pair of results it returns *)
  try : maybeSource -> string -> ProjectAnalyzer -> World ->
        (option source * option error) * World
}.

(** The calls that leave the process. *)
Inductive event : Type :=
| EvHttpGet (url : string)
| EvTry (future : nat) (mb : maybeSource) (cachedir : string).

(** The registry [sm.rootxt]: a radix tree from literal prefixes to matchers,
    of which [LongestPrefix] is the only operation used. *)
Inductive registered : Type :=
| Registered {M : Type} `{matcher M} (m : M).

Definition LongestPrefix {V : Type} (t : list (string * V)) (s : string)
  : option (string * V) :=
  foldl (fun best kv =>
           if strings.HasPrefix s kv.1 then
             match best with
             | Some b => if (String.length b.1 <? String.length kv.1)%nat
                         then Some kv else best
             | None => Some kv
             end
           else best) None t.

Record SourceMgr : Type := {
  rootxt : list (string * registered)
}.

(** The goroutines started by [go func() { ... }()], each at the point it has
    reached: at its start, or between two calls that leave the process, with
    the values it holds in its own variables there. *)
Inductive goroutine `{External} : Type :=
| GoMetadata (path : string)
    (* the metadata fetch of deduceFromPath, at its start *)
| GoMetadataHttp (path : string)
    (* the same, inside fetchMetadata, the request over https having failed *)
| GoMetadataRead (path : string) (rc : result Body)
    (* the same, inside parseMetadata, fetchMetadata having returned rc *)
| GoTry (future : nat) (mb : maybeSource) (cachedir : string) (an : ProjectAnalyzer)
    (* the unit of sourceFutureFactory, at its start *)
| GoTryClose (future : nat) (src : option source) (err : option error)
    (* the same, mb.try having returned src and err *)
| GoChained (future : nat) (cachedir : string) (an : ProjectAnalyzer)
    (* the unit of the source future chained onto the root future, at its
       start *)
| GoChainedClose (future : nat) (src : option source)
    (* the same, m.try having returned src *).

Section Deduction.

Context `{E : External}.

Definition normalizeURI (path : string) : result URL :=
  u ← match FindStringSubmatch scpSyntaxRe path with
      | Some m =>
          m1 ← index m 1;
          m2 ← index m 2;
          m3 ← index m 3;
          Ok {| Scheme := "ssh"; Opaque := ""; User := UserOf m1; Host := m2;
                Path := "/" ++ m3; RawPath := ""; RawQuery := ""; Fragment := "" |}
      | None =>
          match url_Parse path with
          | Some u => Ok u
          | None => Err (ErrNotValidURI path)
          end
      end;
  let path :=
    if negb (String.eqb (Host u) "")
    then (Host u ++ "/" ++ strings.TrimPrefix (Path u) "/")%string
    else Path u in
  if negb (MatchString pathvld path) then Err (ErrNotValidImportPath path)
  else Ok u.

Definition doFetchMetadata (scheme path : string) (w : World)
  : result Body * World * list event :=
  let url := (scheme ++ "://" ++ path ++ "?go-get=1")%string in
  if String.eqb scheme "https" || String.eqb scheme "http" then
    match http_Get url w with
    | (Some body, w') => (Ok body, w', [EvHttpGet url])
    | (None, w') => (Err (ErrFailedToAccess url), w', [EvHttpGet url])
    end
  else (Err (ErrUnknownRemoteProtocol scheme), w, []).

(** The deferred function of [fetchMetadata]: it wraps a non-nil error. *)
Definition fetchMetadata_deferred (rc : result Body) : result Body :=
  match rc with
  | Err e => Err (ErrMetadataProtocol e)
  | _ => rc
  end.

Definition fetchMetadata (path : string) (w : World)
  : result Body * World * list event :=
  let '(rc, w1, ev1) := doFetchMetadata "https" path w in
  match rc with
  | Ok body => (Ok body, w1, ev1)
  | _ =>
      let '(rc, w2, ev2) := doFetchMetadata "http" path w1 in
      (fetchMetadata_deferred rc, w2, ev1 ++ ev2)
  end.

(** The loop of [parseMetadata] over the meta tags, [found] being [match]
    (with [None] for -1). *)
Fixpoint select_import (path : string) (imports : list metaImport) (i : nat)
  (found : option nat) : result (option nat) :=
  match imports with
  | [] => Ok found
  | im :: rest =>
      if negb (strings.HasPrefix path (Prefix im)) then
        select_import path rest (S i) found
      else
        match found with
        | Some _ => Err (ErrMultipleMetaTags path)
        | None => select_import path rest (S i) (Some i)
        end
  end.

(** [parseMetadata] from the return of [fetchMetadata] on, [rc] being what
    that has returned; the four results are prefix, vcs, repository root and
    error. *)
Definition parseMetadata_read (path : string) (rc : result Body)
  : result (string * string * string * option error) :=
  let failed (e : error) : result (string * string * string * option error) :=
    Ok ("", "", "", Some e) in
  match rc with
  | Err e => failed e
  | Panic p => Panic p
  | Ok body =>
      match parseMetaGoImports body with
      | Err e => failed e
      | Panic p => Panic p
      | Ok imports =>
          match select_import path imports 0 None with
          | Err e => failed e
          | Panic p => Panic p
          | Ok None => failed ErrMetadataNotFound
          | Ok (Some i) =>
              im ← index imports i;
              Ok (Prefix im, VCS im, RepoRoot im, None)
          end
      end
  end.

Definition parseMetadata (path : string) (w : World)
  : result (string * string * string * option error) * World * list event :=
  let '(rc, w', ev) := fetchMetadata path w in
  (parseMetadata_read path rc, w', ev).

(** [deduceFromPath]: the goroutines it has started when it returns, and its
    three named results.  [Err e] stands for [nil, nil, e], the futures being
    nil whenever the function gives up; [Ok (root, src, err)] for two futures
    and the value [err] has at the final [return], which is nil after the
    first two stages and, after the third, still the error the generic
    matcher has left in it. *)
Definition deduceFromPath (sm : SourceMgr) (path : string)
  : list goroutine * result (futureString * deferredFutureSource * option error) :=
  match normalizeURI path with
  | Err e => ([], Err e)
  | Panic p => ([], Panic p)
  | Ok u =>
      (* First, try the root path-based matches *)
      match LongestPrefix (rootxt sm) path with
      | Some (_, Registered mtch) =>
          match deduceRoot mtch path with
          | Err e => ([], Err e)
          | Panic p => ([], Panic p)
          | Ok root =>
              match deduceSource mtch path u with
              | Err e => ([], Err e)
              | Panic p => ([], Panic p)
              | Ok src => ([], Ok (root, src, None))
              end
          end
      | None =>
          (* Next, try the vcs extension-based (infix) matcher *)
          let exm := {| vcsExtension_regexp := vcsExtensionRegex |} in
          match deduceRoot exm path with
          | Ok root =>
              match deduceSource exm path u with
              | Err e => ([], Err e)
              | Panic p => ([], Panic p)
              | Ok src => ([], Ok (root, src, None))
              end
          | Panic p => ([], Panic p)
          | Err e =>
              (* No luck so far. maybe it's one of them vanity imports? *)
              ([GoMetadata path],
               Ok (deduceFromPath_root path, deduceFromPath_src path, Some e))
          end
      end
  end.

End Deduction.

(** *** Goroutines and channels

    The variables the closures of one [deduceFromPath] call share, the
    goroutines that are still to run, and the calls made so far.  The
    scheduler may switch between goroutines at every call that leaves the
    process: one step runs a goroutine up to and including its next such
    call, or to its end.  A goroutine of this file receives from a channel,
    if at all, before it does anything else, and what it writes is read only
    after it has closed its own channel, so that its writes are made in the
    step that closes the channel. *)

Module Machine.

Section Machine.

Context `{E : External}.

(** The variables [src], [err] and the channel [c] of one source future. *)
Record cell : Type := mkCell {
  closed : bool;
  src : option source;
  err : option error
}.

Record state : Type := mkState {
  world : World;
  trace : list event;
  (* declared by deduceFromPath for its two closures *)
  vcs : string;
  ru : option URL;
  importroot : string;
  futerr : option error;
  c : bool;
  (* one cell for each call of a deferredFutureSource *)
  cells : list cell;
  running : list goroutine
}.

(** The state in which [deduceFromPath] returns. *)
Definition initial (w : World) (spawned : list goroutine) : state :=
  {| world := w; trace := []; vcs := ""; ru := None; importroot := "";
     futerr := None; c := false; cells := []; running := spawned |}.

(** A call that leaves the process: the world it leaves and its record. *)
Definition called (st : state) (w : World) (ev : list event) : state :=
  {| world := w; trace := trace st ++ ev;
     vcs := vcs st; ru := ru st; importroot := importroot st;
     futerr := futerr st; c := c st;
     cells := cells st; running := running st |}.

Definition set_cells (st : state) (cls : list cell) : state :=
  {| world := world st; trace := trace st;
     vcs := vcs st; ru := ru st; importroot := importroot st;
     futerr := futerr st; c := c st;
     cells := cls; running := running st |}.

(** [go func() { defer close(c); src, err = mb.try(cachedir, an) }()]: the
    call of [try]. *)
Definition run_try (future : nat) (mb : maybeSource) (cachedir : string)
  (an : ProjectAnalyzer) (st : state) : state * goroutine :=
  let '((src', err'), w') := try mb cachedir an (world st) in
  (called st w' [EvTry future mb cachedir], GoTryClose future src' err').

(** The same, from the return of [try] on: the assignment and the deferred
    [close(c)]. *)
Definition run_try_close (future : nat) (src' : option source)
  (err' : option error) (st : state) : state :=
  set_cells st (<[future := {| closed := true; src := src'; err := err' |}]> (cells st)).

(** The metadata goroutine of [deduceFromPath], up to the first request of
    [fetchMetadata]. *)
Definition run_metadata (path : string) (st : state) : state * goroutine :=
  let '(rc, w1, ev1) := doFetchMetadata "https" path (world st) in
  (called st w1 ev1,
   match rc with
   | Ok body => GoMetadataRead path (Ok body)
   | _ => GoMetadataHttp path
   end).

(** The same, up to the second request of [fetchMetadata]. *)
Definition run_metadata_http (path : string) (st : state) : state * goroutine :=
  let '(rc, w2, ev2) := doFetchMetadata "http" path (world st) in
  (called st w2 ev2, GoMetadataRead path (fetchMetadata_deferred rc)).

(** The same, from the return of [fetchMetadata] to the deferred [close(c)];
    a panic ends the program. *)
Definition run_metadata_read (path : string) (rc : result Body) (st : state)
  : option state :=
  match parseMetadata_read path rc with
  | Ok (importroot', vcs', reporoot, futerr') =>
      let '(ru', importroot', futerr') :=
        match futerr' with
        | Some _ => (ru st, importroot', Some (ErrUnableToDeduce path))
        | None =>
            (* ru, futerr = url.Parse(reporoot) *)
            match url_Parse reporoot with
            | Some u => (Some u, importroot', None)
            | None => (None, "", Some (ErrBadVanityURL reporoot))
            end
        end in
      Some {| world := world st; trace := trace st;
              vcs := vcs'; ru := ru'; importroot := importroot';
              futerr := futerr'; c := true;
              cells := cells st; running := running st |}
  | _ => None
  end.

(** [close(c)] of a source future whose [src] becomes [src'], its [err]
    staying what it is. *)
Definition close_chained (future : nat) (src' : cell -> option source)
  (st : state) : state :=
  set_cells st
    (alter (fun cl => {| closed := true; src := src' cl; err := err cl |}) future (cells st)).

(** The goroutine of the chained source future, which starts once [root()]
    returns, up to the call of [try] or, if it does not get there, to its
    end.  The [err] it tests and assigns is the one its first statement
    declares ([_, err := root()]); the [err] of the enclosing function, which
    the future returns, is another variable. *)
Definition run_chained (future : nat) (cachedir : string) (an : ProjectAnalyzer)
  (st : state) : option (state * option goroutine) :=
  if negb (c st) then None
  else
    let err1 := futerr st in
    match err1 with
    | Some _ => Some (close_chained future src st, None)
    | None =>
        let m :=
          if String.eqb (vcs st) "git" then maybeGitSource (ru st)
          else if String.eqb (vcs st) "bzr" then maybeBzrSource (ru st)
          else if String.eqb (vcs st) "hg" then maybeHgSource (ru st)
          else nilSource in
        match m with
        | nilSource =>
            let err1 := Some (ErrUnsupportedVcsType (vcs st)) in
            Some (close_chained future src st, None)
        | _ =>
            let '((src1, err1), w1) := try m cachedir an (world st) in
            Some (called st w1 [EvTry future m cachedir],
                  Some (GoChainedClose future src1))
        end
    end.

(** One step of a goroutine: the state it leaves and what is left of the
    goroutine; [None] when it is blocked (or has panicked). *)
Definition run_goroutine (g : goroutine) (st : state)
  : option (state * option goroutine) :=
  match g with
  | GoMetadata path =>
      let '(st', g') := run_metadata path st in Some (st', Some g')
  | GoMetadataHttp path =>
      let '(st', g') := run_metadata_http path st in Some (st', Some g')
  | GoMetadataRead path rc =>
      match run_metadata_read path rc st with
      | Some st' => Some (st', None)
      | None => None
      end
  | GoTry future mb cachedir an =>
      let '(st', g') := run_try future mb cachedir an st in Some (st', Some g')
  | GoTryClose future src' err' => Some (run_try_close future src' err' st, None)
  | GoChained future cachedir an => run_chained future cachedir an st
  | GoChainedClose future src' =>
      Some (close_chained future (fun _ => src') st, None)
  end.

Definition set_running (st : state) (gs : list goroutine) : state :=
  {| world := world st; trace := trace st; vcs := vcs st; ru := ru st;
     importroot := importroot st; futerr := futerr st; c := c st;
     cells := cells st; running := gs |}.

(** Calling a [deferredFutureSource]: fresh [src], [err] and [c], and one
    goroutine.  The future it returns is named by its cell. *)
Definition invoke (f : deferredFutureSource) (cachedir : string)
  (an : ProjectAnalyzer) (st : state) : nat * state :=
  let future := length (cells st) in
  let g :=
    match f with
    | sourceFutureFactory mb => GoTry future mb cachedir an
    | deduceFromPath_src _ => GoChained future cachedir an
    end in
  (future,
   {| world := world st; trace := trace st; vcs := vcs st; ru := ru st;
      importroot := importroot st; futerr := futerr st; c := c st;
      cells := cells st ++ [ {| closed := false; src := None; err := None |} ];
      running := running st ++ [g] |}).

(** What happens next: the caller invokes a factory, or the scheduler lets
    the [n]-th goroutine make its next step, if it is not blocked. *)
Inductive action : Type :=
| Invoke (f : deferredFutureSource) (cachedir : string) (an : ProjectAnalyzer)
| Schedule (n : nat).

Definition step (a : action) (st : state) : option state :=
  match a with
  | Invoke f cachedir an => Some (invoke f cachedir an st).2
  | Schedule n =>
      match running st !! n with
      | None => None
      | Some g =>
          match run_goroutine g st with
          | None => None
          | Some (st', Some g') => Some (set_running st' (<[n := g']> (running st')))
          | Some (st', None) => Some (set_running st' (delete n (running st')))
          end
      end
  end.

Fixpoint exec (acts : list action) (st : state) : option state :=
  match acts with
  | [] => Some st
  | a :: rest =>
      match step a st with
      | None => None
      | Some st' => exec rest st'
      end
  end.

(** Calling a [futureString]: [None] while the caller is blocked on [<-c]. *)
Definition call_futureString (f : futureString) (st : state)
  : option (string * option error) :=
  match f with
  | simpleStringFuture s => Some (s, None)
  | deduceFromPath_root _ =>
      if c st then Some (importroot st, futerr st) else None
  end.

(** Calling the [futureSource] of cell [future]. *)
Definition call_futureSource (future : nat) (st : state)
  : option (option source * option error) :=
  match cells st !! future with
  | Some cl => if closed cl then Some (src cl, err cl) else None
  | None => None
  end.

Definition is_try (future : nat) (ev : event) : bool :=
  match ev with
  | EvTry f _ _ => (f =? future)%nat
  | EvHttpGet _ => false
  end.

(** How often [try] was called on behalf of a future. *)
Definition tries (future : nat) (tr : list event) : nat :=
  length (List.filter (is_try future) tr).

Definition is_http_get (ev : event) : bool :=
  match ev with EvHttpGet _ => true | _ => false end.

End Machine.

End Machine.

(** ** Vocabulary of the statements *)

(** The capture indices that occur in a pattern. *)
Fixpoint groups (r : Regexp) : list nat :=
  match r with
  | Concat r1 r2 | Alternate r1 r2 => groups r1 ++ groups r2
  | Star _ r1 => groups r1
  | Capture n r1 => n :: groups r1
  | _ => []
  end.

(** From text [s] at offset [i] the matcher has moved on to text [s'] at
    offset [i']. *)
Definition advance (s : string) (i : nat) (s' : string) (i' : nat) : Prop :=
  exists w : string, s = (w ++ s')%string /\ i' = i + String.length w.

(** The captures of the groups that do not occur in [r] are in [c'] what
    they are in [c]. *)
Definition frame (r : Regexp) (c c' : caps) : Prop :=
  forall n, ~ In n (groups r) -> cap_lookup n c' = cap_lookup n c.

(** The candidates of a [maybeSource], in the order [try] goes through them. *)
Definition candidates (mb : maybeSource) : list maybeSource :=
  match mb with
  | maybeSources l => l
  | nilSource => []
  | _ => [mb]
  end.

Definition kind_of (mb : maybeSource) : string :=
  match mb with
  | maybeGitSource _ => "git"
  | maybeBzrSource _ => "bzr"
  | maybeHgSource _ => "hg"
  | _ => ""
  end.

Definition url_of (mb : maybeSource) : option URL :=
  match mb with
  | maybeGitSource u | maybeBzrSource u | maybeHgSource u => u
  | _ => None
  end.

Definition scheme_of (mb : maybeSource) : string :=
  match url_of mb with
  | Some u => Scheme u
  | None => ""
  end.

(** The scheme set of a VCS kind, as [validateVCSScheme] selects it. *)
Definition schemes_of (typ : string) : list string :=
  if String.eqb typ "git" then gitSchemes
  else if String.eqb typ "bzr" then bzrSchemes
  else if String.eqb typ "hg" then hgSchemes
  else if String.eqb typ "svn" then svnSchemes
  else [].

(** [mk] applied to a copy of [u] for each scheme, in order. *)
Definition per_scheme (mk : option URL -> maybeSource) (u : URL)
  (schemes : list string) : list maybeSource :=
  map (fun scheme => mk (Some (with_Scheme u scheme))) schemes.

Definition bare (path : string) : URL :=
  {| Scheme := ""; Opaque := ""; User := None; Host := ""; Path := path;
     RawPath := ""; RawQuery := ""; Fragment := "" |}.

(** Collaborators without a network: every [http.Get] fails, nothing can be
    cloned.  [parse_plain] is [url.Parse] on the strings it is applied to below,
    relative references made of letters, digits, dots and slashes, which
    [url.Parse] returns as a bare path; it is not meant for other strings. *)
Module Offline.

Definition plain (ch : ascii) : bool :=
  in_class ch [Re.AZ; Re.az; Re.d09; Re.chr "."; Re.chr "/"; Re.chr "-"; Re.chr "_"].

Definition parse_plain (s : string) : option URL :=
  if forallb plain (list_ascii_of_string s) && negb (strings.HasPrefix s "/")
  then Some (bare s) else None.

#[export] Instance offline : External := {
  World := unit;
  Body := unit;
  source := unit;
  ProjectAnalyzer := unit;
  url_Parse := parse_plain;
  http_Get := fun _ w => (None, w);
  parseMetaGoImports := fun _ => Ok [];
  try := fun _ _ _ w => ((None, Some (ErrExternal "offline")), w)
}.

End Offline.

(** Modelled from the spec: the contents of the registry [sm.rootxt], which
    is filled outside [remote.go].  The spec keys it by the literal domain
    roots and maps each to its matcher. *)
Definition registry : list (string * registered) :=
  [ ("github.com", Registered {| github_regexp := ghRegex |});
    ("bitbucket.org", Registered {| bitbucket_regexp := bbRegex |});
    ("gopkg.in", Registered {| gopkgin_regexp := gpinNewRegex |});
    ("launchpad.net", Registered {| launchpad_regexp := lpRegex |});
    ("git.launchpad.net", Registered {| launchpadGit_regexp := glpRegex |});
    ("hub.jazz.net", Registered {| jazz_regexp := jazzRegex |});
    ("git.apache.org", Registered {| apache_regexp := apacheRegex |}) ].

Definition is_kind (kind : string) (mb : maybeSource) : Prop := kind_of mb = kind.

(** The hint the Bitbucket matcher reads off the repository path or the
    user of the URL, for [kind] one of git and hg. *)
Definition bitbucket_hint (kind : string) (u : URL) : bool :=
  strings.HasSuffix (Path u) ("." ++ kind) || String.eqb (Username (User u)) kind.

Definition valid_for (scheme typ : string) : bool :=
  existsb (fun valid => String.eqb scheme valid) (schemes_of typ).

(** One candidate for each of git and hg that accepts the scheme, git first:
    the kinds of such a list. *)
Definition viable_kinds (scheme : string) : list string :=
  List.filter (valid_for scheme) ["git"; "hg"].

(** The URL [normalizeURI] builds from the SCP-like syntax. *)
Definition scp_url (user host rest : string) : URL :=
  {| Scheme := "ssh"; Opaque := ""; User := UserOf user; Host := host;
     Path := "/" ++ rest; RawPath := ""; RawQuery := ""; Fragment := "" |}.

Definition bitbucket : bitbucketMatcher := {| bitbucket_regexp := bbRegex |}.
Definition gopkgin : gopkginMatcher := {| gopkgin_regexp := gpinNewRegex |}.
Definition exm : vcsExtensionMatcher := {| vcsExtension_regexp := vcsExtensionRegex |}.

Import Machine.

Section Invariants.

Context `{E : External}.

(** The failures of [deduceFromPath] after which no later stage is tried:
    the registry has a matcher for the path and its [deduceRoot] or its
    [deduceSource] fails, or the registry has none, the pattern of the generic
    matcher fits and its [deduceSource] fails. *)
Definition committed_failure (sm : SourceMgr) (path : string) (u : URL)
  (e : error) : Prop :=
  match LongestPrefix (rootxt sm) path with
  | Some (_, Registered mtch) =>
      deduceRoot mtch path = Err e \/
      (exists root, deduceRoot mtch path = Ok root /\ deduceSource mtch path u = Err e)
  | None =>
      exists root, deduceRoot exm path = Ok root /\ deduceSource exm path u = Err e
  end.

Definition is_meta (g : goroutine) : bool :=
  match g with
  | GoMetadata _ | GoMetadataHttp _ | GoMetadataRead _ _ => true
  | _ => false
  end.

(** The goroutine is the unit behind the source future [future]. *)
Definition unit_of (future : nat) (g : goroutine) : bool :=
  match g with
  | GoTry f _ _ _ | GoTryClose f _ _ | GoChained f _ _ | GoChainedClose f _ =>
      (f =? future)%nat
  | _ => false
  end.

(** The same, and it has not got to its call of [try] yet. *)
Definition untried_unit_of (future : nat) (g : goroutine) : bool :=
  match g with
  | GoTry f _ _ _ | GoChained f _ _ => (f =? future)%nat
  | _ => false
  end.

Definition pending (future : nat) (gs : list goroutine) : nat :=
  length (List.filter (unit_of future) gs).

Definition untried (future : nat) (gs : list goroutine) : nat :=
  length (List.filter (untried_unit_of future) gs).

Definition metas (gs : list goroutine) : nat :=
  length (List.filter is_meta gs).

Definition http_gets (tr : list event) : list event :=
  List.filter is_http_get tr.

(** Every source future has one unit, which is still about or has closed
    the channel, and which calls [try] once at most; the metadata fetch
    likewise is still about or has closed its channel. *)
Record wf (st : state) : Prop := {
  wf_fresh : forall id, length (cells st) <= id ->
               pending id (running st) = 0 /\ tries id (trace st) = 0;
  wf_once : forall id, tries id (trace st) + untried id (running st) <= 1;
  wf_unit : forall id, pending id (running st) <= 1;
  wf_closed : forall id cl, cells st !! id = Some cl -> closed cl = true ->
                pending id (running st) = 0;
  wf_meta : metas (running st) + (if c st then 1 else 0) <= 1
}.

(** The caller invokes nothing but the factory of the vanity stage. *)
Definition only_chained (a : action) : Prop :=
  match a with
  | Invoke (sourceFutureFactory _) _ _ => False
  | _ => True
  end.

(** No source future carries an error, no plain unit is about. *)
Definition err_free (st : state) : Prop :=
  Forall (fun cl => err cl = None) (cells st) /\
  Forall (fun g => match g with
                   | GoTry _ _ _ _ | GoTryClose _ _ _ => False
                   | _ => True
                   end) (running st).

End Invariants.

(** A run of the vanity stage without a network: the caller asks for a
    source, the metadata fetch makes its two requests and ends, the source
    unit runs; later a second source is asked for and its unit runs. *)
Module OfflineRun.

Import Offline.

Definition path : string := "example.org/pkg".

Definition sm : SourceMgr := {| rootxt := registry |}.

Definition first_calls : list action :=
  [Invoke (deduceFromPath_src path) "cache" tt;
   Schedule 0; Schedule 0; Schedule 0; Schedule 0].

Definition later_calls : list action :=
  [Invoke (deduceFromPath_src path) "other" tt; Schedule 0].

Definition resolved : state :=
  Eval vm_compute in
    match exec first_calls (initial tt (deduceFromPath sm path).1) with
    | Some st => st
    | None => initial tt []
    end.

Definition later : state :=
  Eval vm_compute in
    match exec later_calls resolved with
    | Some st => st
    | None => initial tt []
    end.

End OfflineRun.

(** ** Vocabulary of the further properties *)

Definition github : githubMatcher := {| github_regexp := ghRegex |}.
Definition launchpad : launchpadMatcher := {| launchpad_regexp := lpRegex |}.
Definition launchpadGit : launchpadGitMatcher := {| launchpadGit_regexp := glpRegex |}.
Definition jazz : jazzMatcher := {| jazz_regexp := jazzRegex |}.
Definition apache : apacheMatcher := {| apache_regexp := apacheRegex |}.

(** What a matcher of one host and one kind answers on an accepted path with
    repository part [repo]: all schemes of the list [schemes] when the URL has
    none, else the URL as it is if its scheme is valid for the kind. *)
Definition hosted_outcome (typ what : string) (mk : option URL -> maybeSource)
  (schemes : list string) (u : URL) (repo : string) : result deferredFutureSource :=
  if String.eqb (Scheme u) ""
  then Ok (sourceFutureFactory (maybeSources (per_scheme mk (with_Path u repo) schemes)))
  else if valid_for (Scheme u) typ
       then Ok (sourceFutureFactory (mk (Some (with_Path u repo))))
       else Err (ErrInvalidScheme (Scheme u) what).

Definition hosted_spec {M : Type} `{matcher M} (m : M) (re : Regexp) (typ : string)
  (mk : option URL -> maybeSource) : Prop :=
  forall path u v,
    FindStringSubmatch re path = Some v ->
    exists repo,
      v !! 2 = Some repo /\
      deduceSource m path u
      = hosted_outcome typ ("a " ++ typ ++ " repository") mk (schemes_of typ) u repo /\
      Forall (fun scheme => valid_for scheme typ = true) (schemes_of typ).

(** The candidate of a kind on a URL, as the generic matcher and the vanity
    stage choose it ([nilSource] for a kind they have no source for). *)
Definition maybe_of_kind (vcs : string) (u : option URL) : maybeSource :=
  if String.eqb vcs "git" then maybeGitSource u
  else if String.eqb vcs "bzr" then maybeBzrSource u
  else if String.eqb vcs "hg" then maybeHgSource u
  else nilSource.

(** The single candidate, or the scheme error, of a matcher that has settled
    on one kind for a URL with an explicit scheme. *)
Definition single_candidate (typ : string) (mk : option URL -> maybeSource)
  (u : URL) (e : error) : result deferredFutureSource :=
  if valid_for (Scheme u) typ then Ok (sourceFutureFactory (mk (Some u))) else Err e.

(** Whenever [r] matches, the text it has consumed satisfies [P]. *)
Definition consumes (r : Regexp) (P : string -> Prop) : Prop :=
  forall k s i c res,
    run r k s i c = Some res ->
    exists s' i' c' w,
      k s' i' c' = Some res /\ s = (w ++ s')%string /\ i' = i + String.length w /\
      P w /\ frame r c c'.

(** The text is empty or begins with a slash. *)
Definition slash_led (w : string) : Prop :=
  w = "" \/ exists w', w = String "/" w'.

(** [deduceRoot] of a matcher on a host: either the path is refused with the
    error of the host, or the root is the host followed by the repository part
    and the path is the root followed by nothing or by a sub-path that begins
    with a slash. *)
Definition rooted_spec {M : Type} `{matcher M} (m : M) (host : string) : Prop :=
  forall path,
    deduceRoot m path = Err (ErrNotValidPathFor path host) \/
    exists repo sub,
      deduceRoot m path = Ok (simpleStringFuture (host ++ "/" ++ repo)) /\
      path = (host ++ "/" ++ repo ++ sub)%string /\ slash_led sub.

(** The string [normalizeURI] holds against the grammar of import paths. *)
Definition import_path_of (u : URL) : string :=
  if negb (String.eqb (Host u) "")
  then (Host u ++ "/" ++ strings.TrimPrefix (Path u) "/")%string
  else Path u.

(** The first character of a label of an import path. *)
Definition label_char (b : ascii) : bool :=
  in_class b [Re.AZ; Re.az; Re.d09; Re.chr "-"].

(** The URL a metadata request goes to. *)
Definition go_get_url (scheme path : string) : string :=
  (scheme ++ "://" ++ path ++ "?go-get=1")%string.

(** The meta tags whose prefix is a prefix of the path, in order. *)
Definition matching (path : string) (imports : list metaImport) : list metaImport :=
  List.filter (fun im => strings.HasPrefix path (Prefix im)) imports.

(** The same with their positions, counted from [i]. *)
Fixpoint matching_from (path : string) (i : nat) (imports : list metaImport)
  : list (nat * metaImport) :=
  match imports with
  | [] => []
  | im :: rest =>
      if strings.HasPrefix path (Prefix im)
      then (i, im) :: matching_from path (S i) rest
      else matching_from path (S i) rest
  end.

(** The four results of [parseMetadata] when it has the meta tags. *)
Definition selected (path : string) (imports : list metaImport)
  : string * string * string * option error :=
  match matching path imports with
  | [] => ("", "", "", Some ErrMetadataNotFound)
  | [im] => (Prefix im, VCS im, RepoRoot im, None)
  | _ :: _ :: _ => ("", "", "", Some (ErrMultipleMetaTags path))
  end.

Section RootFutureVocabulary.

Context `{E : External}.

(** What the root future of the vanity stage holds once it has resolved: a
    root that is a prefix of the path, with the URL of the repository in
    [ru], or an empty root with one of the two errors of the stage. *)
Definition root_settled (path : string) (st : state) : Prop :=
  c st = true ->
  (futerr st = None ->
     ru st <> None /\ strings.HasPrefix path (importroot st) = true) /\
  (forall e, futerr st = Some e ->
     importroot st = "" /\
     (e = ErrUnableToDeduce path \/ exists reporoot, e = ErrBadVanityURL reporoot)).

(** The metadata fetch is for [path], as long as it is about. *)
Definition fetches_for (path : string) (st : state) : Prop :=
  Forall (fun g => match g with
                   | GoMetadata p | GoMetadataHttp p | GoMetadataRead p _ => p = path
                   | _ => True
                   end) (running st).

(** The requests made so far, for a metadata fetch that has got to [g]:
    none at its start, the one over https once that has failed, one at least
    once [fetchMetadata] has returned. *)
Definition asked (path : string) (gets : list event) (g : goroutine) : Prop :=
  match g with
  | GoMetadata _ => gets = []
  | GoMetadataHttp _ => gets = [EvHttpGet (go_get_url "https" path)]
  | GoMetadataRead _ _ => gets <> []
  | _ => True
  end.

(** What a run of the vanity stage has asked of the outside so far: the
    request over https and then the one over http, as far as the metadata
    fetch has got; one at least once the root future has resolved; and no
    [try] before the root future has resolved or once it has failed. *)
Definition frugal (path : string) (st : state) : Prop :=
  Forall (asked path (http_gets (trace st))) (running st) /\
  http_gets (trace st)
    `prefix_of` [EvHttpGet (go_get_url "https" path); EvHttpGet (go_get_url "http" path)] /\
  (c st = true -> http_gets (trace st) <> []) /\
  (c st = false \/ futerr st <> None -> forall id, tries id (trace st) = 0).

End RootFutureVocabulary.

(** [s[n:]] on a string. *)
Definition slice_from (s : string) (n : nat) : result string :=
  if decide (n <= String.length s)
  then Ok (String.substring n (String.length s - n) s)
  else Panic (PanicSliceBounds (String.length s)).

Module RemoteRepo.

(** A [remoteRepo]; [CloneURL] is a pointer, [Schemes] and [VCS] are slices
    (nil is the empty list). *)
Record remoteRepo : Type := {
  Base : string;
  RelPkg : string;
  CloneURL : option URL;
  Schemes : list string;
  VCS : list string
}.

Section DeduceRemoteRepo.

Context `{E : External}.

(** [deduceRemoteRepo]; [importroot] and [vcs] are the variables it declares
    and never assigns. *)
Definition deduceRemoteRepo (path : string) : result remoteRepo :=
  cloneURL ← match FindStringSubmatch scpSyntaxRe path with
             | Some m =>
                 m1 ← index m 1;
                 m2 ← index m 2;
                 m3 ← index m 3;
                 Ok {| Scheme := "ssh"; Opaque := ""; User := UserOf m1; Host := m2;
                       Path := "/" ++ m3; RawPath := ""; RawQuery := "";
                       Fragment := "" |}
             | None =>
                 match url_Parse path with
                 | Some u => Ok u
                 | None => Err (ErrNotValidImportPath path)
                 end
             end;
  let path :=
    if negb (String.eqb (Host cloneURL) "")
    then (Host cloneURL ++ "/" ++ strings.TrimPrefix (Path cloneURL) "/")%string
    else Path cloneURL in
  if negb (MatchString pathvld path) then Err (ErrNotValidImportPath path)
  else
    let schemes : list string :=
      if negb (String.eqb (Scheme cloneURL) "") then [Scheme cloneURL] else [] in
    let importroot := "" in
    let vcs := "" in
    rest ← slice_from path (String.length importroot);
    let schemes :=
      if negb (String.eqb (Scheme cloneURL) "") then [Scheme cloneURL] else schemes in
    Ok {| Base := importroot;
          RelPkg := strings.TrimPrefix rest "/";
          CloneURL := Some cloneURL;
          Schemes := schemes;
          VCS := [vcs] |}.

End DeduceRemoteRepo.

End RemoteRepo.

(** The four kinds [validateVCSScheme] knows. *)
Definition known_kinds : list string := ["git"; "bzr"; "hg"; "svn"].

(** * Properties *)

(** ** The matcher of regular expressions *)

Lemma append_nil_l (s : string) : ("" ++ s)%string = s.
Proof. reflexivity. Qed.

Lemma append_cons (x : ascii) (a b : string) :
  (String x a ++ b)%string = String x (a ++ b).
Proof. reflexivity. Qed.

Lemma append_assoc (a b d : string) : ((a ++ b) ++ d = a ++ (b ++ d))%string.
Proof.
  induction a as [|x a IH]; [reflexivity|].
  rewrite !append_cons; f_equal; exact IH.
Qed.

Lemma length_append (a b : string) :
  String.length (a ++ b) = String.length a + String.length b.
Proof.
  induction a as [|x a IH]; [reflexivity|].
  rewrite append_cons; simpl; f_equal; exact IH.
Qed.

Ltac string_len :=
  repeat first [ rewrite length_append | progress cbn [String.length] ]; lia.

Lemma advance_refl s i : advance s i s i.
Proof. exists ""; split; [reflexivity | simpl; lia]. Qed.

Lemma advance_trans s i s1 i1 s2 i2 :
  advance s i s1 i1 -> advance s1 i1 s2 i2 -> advance s i s2 i2.
Proof.
  intros [w [-> ->]] [w' [-> ->]].
  exists (w ++ w')%string; split.
  - now rewrite append_assoc.
  - rewrite length_append; lia.
Qed.

Lemma advance_char b s i : advance (String b s) i s (S i).
Proof. exists (String b ""); split; [reflexivity | simpl; lia]. Qed.

Lemma advance_le s i s' i' : advance s i s' i' -> i <= i'.
Proof. intros [w [_ ->]]; lia. Qed.

Lemma frame_trans r1 r2 r c c1 c2 :
  (forall n, In n (groups r1) -> In n (groups r)) ->
  (forall n, In n (groups r2) -> In n (groups r)) ->
  frame r1 c c1 -> frame r2 c1 c2 -> frame r c c2.
Proof.
  intros H1 H2 F1 F2 n Hn.
  rewrite F2, F1; auto.
Qed.

Lemma star_loop_frame greedy r1 (body : cont -> cont) k :
  (forall k s i c res, body k s i c = Some res ->
     exists s' i' c', k s' i' c' = Some res /\ advance s i s' i' /\ frame r1 c c') ->
  forall fuel s i c res,
    star_loop greedy body k fuel s i c = Some res ->
    exists s' i' c',
      k s' i' c' = Some res /\ advance s i s' i' /\ frame (Star greedy r1) c c'.
Proof.
  intros Hbody.
  induction fuel as [|fuel IHf]; intros s i c res H; simpl in H.
  - exists s, i, c; repeat split; auto using advance_refl.
  - assert (Hagain :
      body (fun s' i' c' =>
              if (i' =? i)%nat then None
              else star_loop greedy body k fuel s' i' c') s i c = Some res ->
      exists s' i' c', k s' i' c' = Some res /\ advance s i s' i' /\
                       frame (Star greedy r1) c c').
    { intros Hx.
      apply Hbody in Hx as (s1 & i1 & c1 & Hx & A1 & F1).
      destruct (i1 =? i)%nat; [discriminate|].
      apply IHf in Hx as (s2 & i2 & c2 & Hx & A2 & F2).
      exists s2, i2, c2; repeat split; eauto using advance_trans.
      intros n Hn; rewrite F2, F1; auto. }
    assert (Hstop : k s i c = Some res ->
      exists s' i' c', k s' i' c' = Some res /\ advance s i s' i' /\
                       frame (Star greedy r1) c c').
    { intros Hx. exists s, i, c; repeat split; auto using advance_refl. }
    unfold orelse in H.
    destruct greedy.
    + match type of H with
      | match ?a with _ => _ end = _ => destruct a eqn:Ha
      end; [inversion H; subst; auto | auto].
    + match type of H with
      | match ?a with _ => _ end = _ => destruct a eqn:Ha
      end; [inversion H; subst; auto | auto].
Qed.

(** A successful run has called its continuation: further on in the text,
    with the captures of the other groups as they were. *)
Lemma run_frame r : forall k s i c res,
  run r k s i c = Some res ->
  exists s' i' c',
    k s' i' c' = Some res /\ advance s i s' i' /\ frame r c c'.
Proof.
  induction r as [ | a | ranges | | | | r1 IH1 r2 IH2 | r1 IH1 r2 IH2
                 | greedy r1 IH1 | n r1 IH1 ]; intros k s i c res H; simpl in H.
  - exists s, i, c; repeat split; auto using advance_refl.
  - destruct s as [|b s']; [discriminate|].
    destruct (Ascii.eqb a b); [|discriminate].
    exists s', (S i), c; repeat split; auto using advance_char.
  - destruct s as [|b s']; [discriminate|].
    destruct (in_class b ranges); [|discriminate].
    exists s', (S i), c; repeat split; auto using advance_char.
  - destruct s as [|b s']; [discriminate|].
    destruct (Ascii.eqb b "010"); [discriminate|].
    exists s', (S i), c; repeat split; auto using advance_char.
  - destruct (i =? 0)%nat; [|discriminate].
    exists s, i, c; repeat split; auto using advance_refl.
  - destruct s; [|discriminate].
    exists "", i, c; repeat split; auto using advance_refl.
  - apply IH1 in H as (s1 & i1 & c1 & H & A1 & F1).
    apply IH2 in H as (s2 & i2 & c2 & H & A2 & F2).
    exists s2, i2, c2; repeat split; eauto using advance_trans.
    eapply (frame_trans r1 r2); eauto; simpl; intros; apply in_or_app; auto.
  - unfold orelse in H.
    destruct (run r1 k s i c) eqn:H1.
    + inversion H; subst. apply IH1 in H1 as (s1 & i1 & c1 & H1 & A1 & F1).
      exists s1, i1, c1; repeat split; auto.
      intros n Hn; apply F1; simpl in Hn; intros Hin; apply Hn, in_or_app; auto.
    + apply IH2 in H as (s1 & i1 & c1 & H2 & A1 & F1).
      exists s1, i1, c1; repeat split; auto.
      intros n Hn; apply F1; simpl in Hn; intros Hin; apply Hn, in_or_app; auto.
  - apply (star_loop_frame greedy r1 (run r1) k IH1 (S (String.length s))).
    exact H.
  - apply IH1 in H as (s1 & i1 & c1 & H & A1 & F1).
    exists s1, i1, ((n, (i, i1)) :: c1); repeat split; auto.
    intros m Hm; simpl in Hm. simpl.
    destruct (Nat.eqb_spec m n) as [->|Hne]; [exfalso; auto|].
    apply F1; auto.
Qed.

Lemma run_Concat_inv r1 r2 k s i c res :
  run (Concat r1 r2) k s i c = Some res ->
  exists s1 i1 c1,
    run r2 k s1 i1 c1 = Some res /\ advance s i s1 i1 /\ frame r1 c c1.
Proof. intros H. exact (run_frame r1 _ _ _ _ _ H). Qed.

Lemma run_Capture_inv n r1 k s i c res :
  run (Capture n r1) k s i c = Some res ->
  exists s1 i1 c1,
    k s1 i1 ((n, (i, i1)) :: c1) = Some res /\ advance s i s1 i1 /\ frame r1 c c1.
Proof. intros H. exact (run_frame r1 _ _ _ _ _ H). Qed.

Lemma run_Alternate_inv r1 r2 k s i c res :
  run (Alternate r1 r2) k s i c = Some res ->
  run r1 k s i c = Some res \/ run r2 k s i c = Some res.
Proof.
  simpl; unfold orelse.
  destruct (run r1 k s i c); intros H; [left | right]; assumption.
Qed.

Lemma run_CharClass_inv ranges k s i c res :
  run (CharClass ranges) k s i c = Some res ->
  exists b s', s = String b s' /\ in_class b ranges = true /\
               k s' (S i) c = Some res.
Proof.
  simpl. destruct s as [|b s']; [discriminate|].
  destruct (in_class b ranges) eqn:Hb; [|discriminate].
  intros H; exists b, s'; auto.
Qed.

Lemma run_Literal_inv a k s i c res :
  run (Literal a) k s i c = Some res ->
  exists s', s = String a s' /\ k s' (S i) c = Some res.
Proof.
  simpl. destruct s as [|b s']; [discriminate|].
  destruct (Ascii.eqb_spec a b) as [->|]; [|discriminate].
  intros H; exists s'; auto.
Qed.

Lemma run_Lit_inv l : forall k s i c res,
  run (Lit l) k s i c = Some res ->
  exists s', s = (l ++ s')%string /\ k s' (i + String.length l) c = Some res.
Proof.
  induction l as [|a l IH]; intros k s i c res H.
  - exists s; split; [reflexivity|]. simpl in *. now rewrite Nat.add_0_r.
  - destruct l as [|a' l].
    + apply run_Literal_inv in H as (s' & -> & H).
      exists s'; split; [reflexivity|]. simpl. now rewrite Nat.add_1_r.
    + change (Lit (String a (String a' l)))
        with (Concat (Literal a) (Lit (String a' l))) in H.
      change (run (Concat (Literal a) (Lit (String a' l))) k s i c)
        with (run (Literal a) (fun s' i' c' => run (Lit (String a' l)) k s' i' c') s i c) in H.
      apply run_Literal_inv in H as (s' & -> & H).
      apply IH in H as (s'' & -> & H).
      exists s''; split; [reflexivity|].
      replace (i + String.length (String a (String a' l)))
        with (S i + String.length (String a' l)) by (simpl; lia).
      exact H.
Qed.

Lemma search_sound r : forall s i res,
  search r s i = Some res ->
  exists s1 i1,
    advance s i s1 i1 /\
    run r (fun _ j c => Some ((0, (i1, j)) :: c)) s1 i1 [] = Some res.
Proof.
  induction s as [|b s IH]; intros i res H; simpl in H.
  - destruct (run r _ "" i []) eqn:Hr; [|discriminate].
    inversion H; subst. exists "", i; split; auto using advance_refl.
  - destruct (run r _ (String b s) i []) eqn:Hr.
    + inversion H; subst. exists (String b s), i; split; auto using advance_refl.
    + apply IH in H as (s1 & i1 & A & H).
      exists s1, i1; split; [|exact H].
      eapply advance_trans; [apply advance_char | exact A].
Qed.

Lemma FindStringSubmatch_length re s v :
  FindStringSubmatch re s = Some v -> length v = S (NumSubexp re).
Proof.
  unfold FindStringSubmatch. destruct (search re s 0); [|discriminate].
  intros H; apply (inj Some) in H; subst v.
  now rewrite length_fmap, length_seq.
Qed.

Lemma FindStringSubmatch_lookup re s v :
  FindStringSubmatch re s = Some v ->
  exists c, search re s 0 = Some c /\
            forall n, n <= NumSubexp re -> v !! n = Some (submatch s c n).
Proof.
  unfold FindStringSubmatch. destruct (search re s 0) as [c|]; [|discriminate].
  intros H; apply (inj Some) in H; subst v. exists c; split; [reflexivity|].
  intros n Hn. rewrite list_lookup_fmap.
  rewrite lookup_seq_lt by lia. reflexivity.
Qed.

Lemma substring_append (w t rest : string) :
  String.substring (String.length w) (String.length t) (w ++ t ++ rest) = t.
Proof.
  induction w as [|x w IH].
  - rewrite append_nil_l. change (String.length "") with 0.
    induction t as [|y t IHt].
    + rewrite append_nil_l. destruct rest; reflexivity.
    + rewrite append_cons.
      change (String y (String.substring 0 (String.length t) (t ++ rest)) = String y t).
      f_equal. exact IHt.
  - rewrite append_cons. exact IH.
Qed.

(** The text of a submatch, once its offsets are known. *)
Lemma submatch_text s res n w t rest :
  s = (w ++ t ++ rest)%string ->
  cap_lookup n res = Some (String.length w, String.length w + String.length t) ->
  submatch s res n = t.
Proof.
  intros -> H. unfold submatch. rewrite H.
  replace (String.length w + String.length t - String.length w)
    with (String.length t) by lia.
  apply substring_append.
Qed.

Lemma run_Concat_eq r1 r2 k s i c :
  run (Concat r1 r2) k s i c = run r1 (fun s' i' c' => run r2 k s' i' c') s i c.
Proof. reflexivity. Qed.

Lemma run_Capture_eq n r1 k s i c :
  run (Capture n r1) k s i c
  = run r1 (fun s' i' c' => k s' i' ((n, (i, i')) :: c')) s i c.
Proof. reflexivity. Qed.

Lemma run_BeginText_eq k s i c :
  run BeginText k s i c = if (i =? 0)%nat then k s i c else None.
Proof. reflexivity. Qed.

Lemma run_EndText_eq k s i c :
  run EndText k s i c = match s with "" => k s i c | String _ _ => None end.
Proof. reflexivity. Qed.

Lemma submatch_text_at s res n w t rest a b :
  s = (w ++ t ++ rest)%string ->
  cap_lookup n res = Some (a, b) ->
  a = String.length w ->
  b = a + String.length t ->
  submatch s res n = t.
Proof. intros Hs Hc -> ->. eapply submatch_text; eauto. Qed.

Lemma append_nil_r (s : string) : (s ++ "")%string = s.
Proof.
  induction s as [|x s IH]; [reflexivity|].
  rewrite append_cons; f_equal; exact IH.
Qed.

(** The pattern of the generic matcher captures a root with a slash in it
    as its first submatch, and one of the four extensions as its fifth. *)
Lemma vcsExtensionRegex_submatch path v :
  FindStringSubmatch vcsExtensionRegex path = Some v ->
  exists root vcs,
    v !! 1 = Some root /\ v !! 5 = Some vcs /\
    In vcs ["bzr"; "git"; "hg"; "svn"] /\
    exists a b, root = (a ++ "/" ++ b)%string.
Proof.
  intros H.
  apply FindStringSubmatch_lookup in H as (res & H & Hv).
  rewrite (Hv 1), (Hv 5) by (vm_compute; lia).
  eexists _, _; split; [reflexivity|]; split; [reflexivity|]. clear Hv v.
  apply search_sound in H as (s0 & i0 & A0 & H).
  unfold vcsExtensionRegex in H. cbn [Seq] in H.
  apply run_Concat_inv in H as (s1 & i1 & c1 & H & A1 & _).
  assert (A : advance path 0 s1 i1) by eauto using advance_trans.
  destruct A as (w0 & -> & Hi1); simpl in Hi1; subst i1. clear A0 A1.
  rewrite run_Concat_eq, run_Capture_eq in H.
  (* the repository: up to the slash, the slash, and what follows it *)
  rewrite run_Concat_eq, run_Capture_eq in H.
  apply run_Concat_inv in H as (s2 & i2 & c2 & H & (wa & -> & ->) & _).
  apply run_Concat_inv in H as (s3 & i3 & c3 & H & (wb & -> & ->) & _).
  apply run_Concat_inv in H as (s4 & i4 & c4 & H & (wc & -> & ->) & _).
  rewrite run_Concat_eq in H.
  apply run_Literal_inv in H as (s5 & -> & H). cbv beta in H.
  apply run_frame in H as (s6 & i6 & c6 & H & (wd & -> & ->) & _).
  cbv beta in H.
  (* the dot and the extension *)
  rewrite run_Concat_eq in H.
  apply run_Literal_inv in H as (s7 & -> & H). cbv beta in H.
  rewrite run_Capture_eq in H.
  set (i7 := S (S (String.length w0 + String.length wa + String.length wb
                   + String.length wc) + String.length wd)) in *.
  assert (Hl : exists l s8, In l ["bzr"; "git"; "hg"; "svn"] /\
            s7 = (l ++ s8)%string /\
            run (Concat (subpath 6) EndText)
              (fun _ j c => Some ((0, (i0, j)) :: c)) s8
              (i7 + String.length l)
              ((1, (String.length w0, i7 + String.length l))
                 :: (5, (i7, i7 + String.length l))
                 :: (2, (String.length w0, i7 - 1)) :: c6) = Some res).
  { replace (i7 - 1) with (S (String.length w0 + String.length wa + String.length wb
                                + String.length wc) + String.length wd)
      by (unfold i7; lia).
    apply run_Alternate_inv in H as [H|H];
      [|apply run_Alternate_inv in H as [H|H];
        [|apply run_Alternate_inv in H as [H|H]]];
      apply run_Lit_inv in H as (s8 & -> & H);
      eexists _, s8; (split; [|split; [reflexivity | exact H]]);
      simpl; auto. }
  destruct Hl as (l & s8 & Hin & -> & Hl).
  apply run_frame in Hl as (s9 & i9 & c9 & Hl & _ & F9).
  apply (inj Some) in Hl; subst res.
  assert (L1 : cap_lookup 1 ((0, (i0, i9)) :: c9)
               = Some (String.length w0, i7 + String.length l)).
  { simpl. rewrite F9; [reflexivity|]. vm_compute. intros [?|[]]; discriminate. }
  assert (L5 : cap_lookup 5 ((0, (i0, i9)) :: c9)
               = Some (i7, i7 + String.length l)).
  { simpl. rewrite F9; [reflexivity|]. vm_compute. intros [?|[]]; discriminate. }
  match goal with
  | |- context [submatch ?p _ 1] =>
      assert (P1 : p = (w0 ++ (wa ++ wb ++ wc ++ "/" ++ wd ++ "." ++ l) ++ s8)%string)
        by (rewrite !append_assoc; reflexivity);
      assert (P5 : p = ((w0 ++ wa ++ wb ++ wc ++ "/" ++ wd ++ ".") ++ l ++ s8)%string)
        by (rewrite !append_assoc; reflexivity)
  end.
  rewrite (submatch_text_at _ _ 1 _ _ _ _ _ P1 L1 eq_refl
             ltac:(unfold i7; string_len)).
  rewrite (submatch_text_at _ _ 5 _ _ _ _ _ P5 L5
             ltac:(unfold i7; string_len) eq_refl).
  split; [exact Hin|].
  exists (wa ++ wb ++ wc)%string, (wd ++ "." ++ l)%string.
  rewrite !append_assoc. reflexivity.
Qed.

(** What the SCP pattern captures: the text before the [@], the one between
    it and the first colon after it that the pattern can use, and the rest. *)
Lemma scpSyntaxRe_submatch path m :
  FindStringSubmatch scpSyntaxRe path = Some m ->
  exists user host rest,
    m = [path; user; host; rest] /\
    path = (user ++ "@" ++ host ++ ":" ++ rest)%string /\
    host <> "".
Proof.
  intros H.
  pose proof (FindStringSubmatch_length _ _ _ H) as Hlen.
  apply FindStringSubmatch_lookup in H as (res & H & Hv).
  change (NumSubexp scpSyntaxRe) with 3 in *.
  pose proof (Hv 0 ltac:(lia)) as H0. pose proof (Hv 1 ltac:(lia)) as H1.
  pose proof (Hv 2 ltac:(lia)) as H2. pose proof (Hv 3 ltac:(lia)) as H3.
  clear Hv.
  destruct m as [|m0 [|m1 [|m2 [|m3 [|? ?]]]]]; try discriminate Hlen.
  simpl in H0, H1, H2, H3.
  apply (inj Some) in H0, H1, H2, H3. subst m0 m1 m2 m3. clear Hlen.
  apply search_sound in H as (s0 & i0 & A0 & H).
  unfold scpSyntaxRe in H. cbn [Seq] in H.
  rewrite run_Concat_eq, run_BeginText_eq in H.
  destruct (Nat.eqb_spec i0 0) as [->|]; [|discriminate].
  destruct A0 as (w0 & -> & Hw0).
  destruct w0; [|discriminate]. rewrite append_nil_l in *. clear Hw0.
  (* the user *)
  rewrite run_Concat_eq, run_Capture_eq in H.
  apply run_frame in H as (s1 & i1 & c1 & H & (user & -> & ->) & F1).
  cbv beta in H.
  rewrite run_Concat_eq in H.
  apply run_Literal_inv in H as (s2 & -> & H). cbv beta in H.
  (* the host *)
  rewrite run_Concat_eq, run_Capture_eq in H.
  unfold Plus at 1 in H. rewrite run_Concat_eq in H.
  apply run_CharClass_inv in H as (b & s2' & -> & _ & H). cbv beta in H.
  apply run_frame in H as (s3 & i3 & c3 & H & (h' & -> & ->) & F3).
  cbv beta in H.
  rewrite run_Concat_eq in H.
  apply run_Literal_inv in H as (s4 & -> & H). cbv beta in H.
  (* the rest *)
  rewrite run_Concat_eq, run_Capture_eq in H.
  apply run_frame in H as (s5 & i5 & c5 & H & (rest & -> & ->) & F5).
  cbv beta in H. rewrite run_EndText_eq in H. destruct s5; [|discriminate].
  apply (inj Some) in H; subst res.
  rewrite append_nil_r.
  exists user, (String b h'), rest.
  assert (L3 : cap_lookup 3 ((0, (0, S (S (S (0 + String.length user)) + String.length h') + String.length rest))
                   :: (3, (S (S (S (0 + String.length user)) + String.length h'),
                           S (S (S (0 + String.length user)) + String.length h') + String.length rest))
                   :: c5)
               = Some (S (S (S (0 + String.length user)) + String.length h'),
                       S (S (S (0 + String.length user)) + String.length h') + String.length rest))
    by reflexivity.
  assert (L2 : cap_lookup 2 c5
               = Some (S (0 + String.length user),
                       S (S (0 + String.length user)) + String.length h')).
  { rewrite (F5 2) by (intros []). reflexivity. }
  assert (L1 : cap_lookup 1 c5 = Some (0, 0 + String.length user)).
  { rewrite (F5 1) by (intros []). simpl.
    rewrite (F3 1) by (intros []). reflexivity. }
  split; [|split; [reflexivity | discriminate]].
  f_equal; [|f_equal; [|f_equal; [|f_equal]]].
  - eapply (submatch_text_at _ _ 0 "" _ "");
      [rewrite append_nil_l, append_nil_r; reflexivity | reflexivity
      | reflexivity | string_len].
  - eapply (submatch_text_at _ _ 1 "" user);
      [rewrite append_nil_l; reflexivity | simpl; exact L1 | reflexivity | lia].
  - eapply (submatch_text_at _ _ 2 (user ++ "@") (String b h') (String ":" rest));
      [rewrite append_assoc; reflexivity | simpl; exact L2
      | string_len | string_len].
  - eapply (submatch_text_at _ _ 3 (user ++ "@" ++ String b h' ++ ":") rest "");
      [ | exact L3 | string_len | lia].
    rewrite append_nil_r, !append_assoc. reflexivity.
Qed.

(** ** gopkg.in *)

Lemma list_of_length_7 {A} (v : list A) :
  length v = 7 -> exists a0 a1 a2 a3 a4 a5 a6, v = [a0; a1; a2; a3; a4; a5; a6].
Proof.
  destruct v as [|a0 [|a1 [|a2 [|a3 [|a4 [|a5 [|a6 [|? ?]]]]]]]]; try discriminate.
  intros _; eauto 10.
Qed.

Lemma list_of_length_4 {A} (v : list A) :
  length v = 4 -> exists a0 a1 a2 a3, v = [a0; a1; a2; a3].
Proof.
  destruct v as [|a0 [|a1 [|a2 [|a3 [|? ?]]]]]; try discriminate.
  intros _; eauto 10.
Qed.

(** What [deduceRoot] of the gopkg.in matcher returns on every path its
    pattern accepts: the prefix and the second submatch, which is the user
    segment (empty when the path has none). *)
Lemma gopkgin_deduceRoot_matched path v :
  FindStringSubmatch gpinNewRegex path = Some v ->
  exists v2, v !! 2 = Some v2 /\
    deduceRoot gopkgin path = Ok (simpleStringFuture ("gopkg.in/" ++ v2)).
Proof.
  intros H.
  destruct (list_of_length_7 v (FindStringSubmatch_length _ _ _ H))
    as (a0 & a1 & a2 & a3 & a4 & a5 & a6 & ->).
  exists a2; split; [reflexivity|].
  simpl. unfold gopkginMatcher_deduceRoot. simpl. rewrite H. reflexivity.
Qed.

(** C1, on the code: for [gopkg.in/yaml.v2] the root is [gopkg.in/], and for
    [gopkg.in/user/pkg.v1] it is [gopkg.in/user]; neither is the matched root
    with its version suffix. *)
Theorem gopkgin_deduceRoot_drops_package :
  deduceRoot gopkgin "gopkg.in/yaml.v2" = Ok (simpleStringFuture "gopkg.in/")
  /\ deduceRoot gopkgin "gopkg.in/user/pkg.v1" = Ok (simpleStringFuture "gopkg.in/user")
  /\ FindStringSubmatch gpinNewRegex "gopkg.in/yaml.v2"
     = Some ["gopkg.in/yaml.v2"; "gopkg.in/yaml.v2"; ""; "yaml"; "v2"; ""; ""].
Proof. repeat split; vm_compute; reflexivity. Qed.

Lemma fill_schemes_git mk u :
  fill_schemes mk u gitSchemes (make_maybeSources (length gitSchemes))
  = Ok (per_scheme mk u gitSchemes).
Proof. reflexivity. Qed.

(** C8: on a path the gopkg.in pattern accepts, [deduceSource] first looks
    for a dot in the version [v[4]] and, if there is one, fails with the
    error that names the part before the dot; else it fails on every
    explicit scheme; else it succeeds and offers github.com with the path
    [user/pkg], or [go-pkg/pkg] when the path has no user segment, once for
    each git scheme, the rest of the URL being as it was given. *)
Theorem gopkgin_deduceSource_spec path u v :
  FindStringSubmatch gpinNewRegex path = Some v ->
  exists user pkg version,
    v !! 2 = Some user /\ v !! 3 = Some pkg /\ v !! 4 = Some version /\
    deduceSource gopkgin path u
    = match strings.Index version "." with
      | Some n =>
          Err (ErrGopkginMajorOnly path (String.substring 0 n version) version)
      | None =>
          if negb (String.eqb (Scheme u) "") then Err ErrGopkginScheme
          else Ok (sourceFutureFactory (maybeSources (per_scheme maybeGitSource
                     (with_Path (with_Host u "github.com")
                        (if String.eqb user "" then "go-pkg/" ++ pkg
                         else user ++ "/" ++ pkg))
                     gitSchemes)))
      end.
Proof.
  intros H.
  destruct (list_of_length_7 v (FindStringSubmatch_length _ _ _ H))
    as (a0 & a1 & user & pkg & version & a5 & a6 & ->).
  exists user, pkg, version. repeat split; try reflexivity.
  simpl deduceSource. unfold gopkginMatcher_deduceSource.
  change (gopkgin_regexp gopkgin) with gpinNewRegex. rewrite H.
  change (index [a0; a1; user; pkg; version; a5; a6] 4) with (Ok (A := string) version).
  change (index [a0; a1; user; pkg; version; a5; a6] 3) with (Ok (A := string) pkg).
  change (index [a0; a1; user; pkg; version; a5; a6] 2) with (Ok (A := string) user).
  change (mbind ?f (Ok version)) with (f version). cbv beta zeta.
  unfold strings.Contains.
  destruct (strings.Index version ".") as [n|]; [reflexivity|].
  destruct (String.eqb (Scheme u) ""); cbv [negb]; [|reflexivity].
  change (mbind ?f (Ok user)) with (f user). cbv beta.
  destruct (String.eqb user "");
    change (mbind ?f (Ok pkg)) with (f pkg); cbv beta;
    change (mbind ?f (Ok ?x)) with (f x); cbv beta;
    rewrite fill_schemes_git; reflexivity.
Qed.

Lemma gopkgin_deduceSource_spec_witness :
  FindStringSubmatch gpinNewRegex "gopkg.in/yaml.v2"
  = Some ["gopkg.in/yaml.v2"; "gopkg.in/yaml.v2"; ""; "yaml"; "v2"; ""; ""]
  /\ strings.Index "v2" "." = None
  /\ exists user pkg version : string,
       ["gopkg.in/yaml.v2"; "gopkg.in/yaml.v2"; ""; "yaml"; "v2"; ""; ""] !! 2 = Some user /\
       ["gopkg.in/yaml.v2"; "gopkg.in/yaml.v2"; ""; "yaml"; "v2"; ""; ""] !! 3 = Some pkg /\
       ["gopkg.in/yaml.v2"; "gopkg.in/yaml.v2"; ""; "yaml"; "v2"; ""; ""] !! 4 = Some version /\
       deduceSource gopkgin "gopkg.in/yaml.v2" (bare "gopkg.in/yaml.v2")
       = match strings.Index version "." with
         | Some n =>
             Err (ErrGopkginMajorOnly "gopkg.in/yaml.v2" (String.substring 0 n version)
                    version)
         | None =>
             if negb (String.eqb (Scheme (bare "gopkg.in/yaml.v2")) "")
             then Err ErrGopkginScheme
             else Ok (sourceFutureFactory (maybeSources (per_scheme maybeGitSource
                        (with_Path (with_Host (bare "gopkg.in/yaml.v2") "github.com")
                           (if String.eqb user "" then "go-pkg/" ++ pkg
                            else user ++ "/" ++ pkg))
                        gitSchemes)))
         end.
Proof.
  split; [vm_compute; reflexivity|]. split; [vm_compute; reflexivity|].
  apply (gopkgin_deduceSource_spec "gopkg.in/yaml.v2" (bare "gopkg.in/yaml.v2")).
  vm_compute; reflexivity.
Defined.

(** The examples of the specification for gopkg.in. *)
Example gopkgin_deduceSource_examples :
  deduceSource gopkgin "gopkg.in/pkg.v1.2" (bare "gopkg.in/pkg.v1.2")
  = Err (ErrGopkginMajorOnly "gopkg.in/pkg.v1.2" "v1" "v1.2")
  /\ deduceSource gopkgin "gopkg.in/yaml.v2" (with_Scheme (bare "gopkg.in/yaml.v2") "https")
     = Err ErrGopkginScheme
  /\ deduceSource gopkgin "gopkg.in/yaml.v2" (bare "gopkg.in/yaml.v2")
     = Ok (sourceFutureFactory (maybeSources (per_scheme maybeGitSource
             (with_Path (with_Host (bare "gopkg.in/yaml.v2") "github.com") "go-pkg/yaml")
             gitSchemes)))
  /\ deduceSource gopkgin "gopkg.in/user/pkg.v1" (bare "gopkg.in/user/pkg.v1")
     = Ok (sourceFutureFactory (maybeSources (per_scheme maybeGitSource
             (with_Path (with_Host (bare "gopkg.in/user/pkg.v1") "github.com") "user/pkg")
             gitSchemes))).
Proof. repeat split; vm_compute; reflexivity. Qed.

(** ** Bitbucket *)

Lemma validateVCSScheme_valid_for scheme typ :
  In typ ["git"; "bzr"; "hg"; "svn"] ->
  validateVCSScheme scheme typ = Ok (valid_for scheme typ).
Proof.
  intros [<-|[<-|[<-|[<-|[]]]]]; reflexivity.
Qed.

Lemma append_schemes_spec mk u schemes : forall mb,
  append_schemes mk u schemes mb = Ok (mb ++ per_scheme mk u schemes).
Proof.
  unfold append_schemes. generalize 0.
  induction schemes as [|scheme rest IH]; intros k mb; simpl.
  - now rewrite app_nil_r.
  - rewrite IH. unfold per_scheme. simpl. now rewrite <- app_assoc.
Qed.

(** What the Bitbucket matcher does without a scheme, whatever the hints. *)
Lemma bitbucket_deduceSource_no_scheme path u v :
  FindStringSubmatch bbRegex path = Some v ->
  Scheme u = "" ->
  exists bitname, v !! 2 = Some bitname /\
    let u' := with_Path u bitname in
    deduceSource bitbucket path u
    = Ok (sourceFutureFactory (maybeSources
            ((if bitbucket_hint "hg" u' then [] else per_scheme maybeGitSource u' gitSchemes)
             ++ (if bitbucket_hint "git" u' then [] else per_scheme maybeHgSource u' hgSchemes)))).
Proof.
  intros H Hs.
  destruct (list_of_length_4 v (FindStringSubmatch_length _ _ _ H))
    as (a0 & a1 & bitname & a3 & ->).
  exists bitname; split; [reflexivity|].
  cbv zeta. simpl deduceSource. unfold bitbucketMatcher_deduceSource.
  change (bitbucket_regexp bitbucket) with bbRegex. rewrite H.
  change (index [a0; a1; bitname; a3] 2) with (Ok (A := string) bitname).
  change (mbind ?f (Ok bitname)) with (f bitname). cbv beta zeta.
  replace (Scheme (with_Path u bitname)) with "" by (symmetry; exact Hs).
  change (negb ("" =? "")%string) with false. cbv iota.
  unfold bitbucket_hint.
  change ("." ++ "hg")%string with ".hg". change ("." ++ "git")%string with ".git".
  destruct (strings.HasSuffix (Path (with_Path u bitname)) ".hg"
            || (Username (User (with_Path u bitname)) =? "hg")%string);
    destruct (strings.HasSuffix (Path (with_Path u bitname)) ".git"
              || (Username (User (with_Path u bitname)) =? "git")%string);
    reflexivity.
Qed.

Lemma per_scheme_kind mk u schemes kind :
  (forall x, kind_of (mk x) = kind) ->
  Forall (is_kind kind) (per_scheme mk u schemes).
Proof.
  intros Hk. unfold per_scheme. apply Forall_forall. intros x Hx.
  apply list_elem_of_In, in_map_iff in Hx as (scheme & <- & _). apply Hk.
Qed.

(** C7: without a scheme, the candidates are exactly those of git, one for
    each git scheme in order, when the path or the user hints at git and not
    at hg; exactly those of hg, one for each hg scheme in order, when the
    hint is for hg and not for git; those of git followed by those of hg with
    no hint at all; and none when both hints are given.  Every candidate of
    the first run is a git one and every candidate of the second an hg
    one. *)
Theorem bitbucket_deduceSource_candidates path u v :
  FindStringSubmatch bbRegex path = Some v ->
  Scheme u = "" ->
  exists bitname,
    v !! 2 = Some bitname /\
    let u' := with_Path u bitname in
    let gits := per_scheme maybeGitSource u' gitSchemes in
    let hgs := per_scheme maybeHgSource u' hgSchemes in
    deduceSource bitbucket path u
    = Ok (sourceFutureFactory (maybeSources
            (match bitbucket_hint "git" u', bitbucket_hint "hg" u' with
             | true, false => gits
             | false, true => hgs
             | false, false => gits ++ hgs
             | true, true => []
             end))) /\
    Forall (is_kind "git") gits /\ Forall (is_kind "hg") hgs /\
    scheme_of <$> gits = gitSchemes /\ scheme_of <$> hgs = hgSchemes.
Proof.
  intros H Hs.
  destruct (bitbucket_deduceSource_no_scheme path u v H Hs) as (bitname & Hv & Hd).
  cbv zeta in Hd.
  exists bitname. split; [exact Hv|]. cbv zeta.
  split; [|split; [|split; [|split]]].
  - rewrite Hd.
    destruct (bitbucket_hint "git" (with_Path u bitname)),
             (bitbucket_hint "hg" (with_Path u bitname));
      rewrite ?app_nil_r; reflexivity.
  - now apply per_scheme_kind.
  - now apply per_scheme_kind.
  - reflexivity.
  - reflexivity.
Qed.

Lemma bitbucket_deduceSource_candidates_witness :
  FindStringSubmatch bbRegex "bitbucket.org/user/repo.git"
  = Some ["bitbucket.org/user/repo.git"; "bitbucket.org/user/repo.git"; "user/repo.git"; ""]
  /\ Scheme (bare "bitbucket.org/user/repo.git") = ""
  /\ bitbucket_hint "git" (with_Path (bare "bitbucket.org/user/repo.git") "user/repo.git")
     = true
  /\ bitbucket_hint "hg" (with_Path (bare "bitbucket.org/user/repo.git") "user/repo.git")
     = false
  /\ exists bitname,
       ["bitbucket.org/user/repo.git"; "bitbucket.org/user/repo.git"; "user/repo.git"; ""] !! 2
       = Some bitname /\
       let u' := with_Path (bare "bitbucket.org/user/repo.git") bitname in
       let gits := per_scheme maybeGitSource u' gitSchemes in
       let hgs := per_scheme maybeHgSource u' hgSchemes in
       deduceSource bitbucket "bitbucket.org/user/repo.git" (bare "bitbucket.org/user/repo.git")
       = Ok (sourceFutureFactory (maybeSources
               (match bitbucket_hint "git" u', bitbucket_hint "hg" u' with
                | true, false => gits
                | false, true => hgs
                | false, false => gits ++ hgs
                | true, true => []
                end))) /\
       Forall (is_kind "git") gits /\ Forall (is_kind "hg") hgs /\
       scheme_of <$> gits = gitSchemes /\ scheme_of <$> hgs = hgSchemes.
Proof.
  split; [vm_compute; reflexivity|]. split; [reflexivity|].
  split; [vm_compute; reflexivity|]. split; [vm_compute; reflexivity|].
  apply (bitbucket_deduceSource_candidates "bitbucket.org/user/repo.git"
           (bare "bitbucket.org/user/repo.git")).
  - vm_compute; reflexivity.
  - reflexivity.
Defined.

(** The examples of the specification for Bitbucket. *)
Example bitbucket_deduceSource_examples :
  deduceSource bitbucket "bitbucket.org/user/repo.git" (bare "bitbucket.org/user/repo.git")
  = Ok (sourceFutureFactory (maybeSources
          (per_scheme maybeGitSource (bare "user/repo.git") gitSchemes)))
  /\ deduceSource bitbucket "bitbucket.org/user/repo.hg" (bare "bitbucket.org/user/repo.hg")
     = Ok (sourceFutureFactory (maybeSources
             (per_scheme maybeHgSource (bare "user/repo.hg") hgSchemes)))
  /\ deduceSource bitbucket "bitbucket.org/user/repo" (bare "bitbucket.org/user/repo")
     = Ok (sourceFutureFactory (maybeSources
             (per_scheme maybeGitSource (bare "user/repo") gitSchemes
              ++ per_scheme maybeHgSource (bare "user/repo") hgSchemes))).
Proof. repeat split; vm_compute; reflexivity. Qed.

(** C4, as amended: with an explicit scheme and no hint, [deduceSource]
    succeeds exactly when the scheme is one of git's or one of hg's, and it
    then offers two candidates, git and then hg, both on the URL as given,
    whichever of the two kinds the scheme is valid for. *)
Theorem bitbucket_deduceSource_explicit_scheme path u v :
  FindStringSubmatch bbRegex path = Some v ->
  Scheme u <> "" ->
  exists bitname,
    v !! 2 = Some bitname /\
    let u' := with_Path u bitname in
    (bitbucket_hint "git" u' = false -> bitbucket_hint "hg" u' = false ->
       deduceSource bitbucket path u
       = if valid_for (Scheme u) "git" || valid_for (Scheme u) "hg"
         then Ok (sourceFutureFactory
                    (maybeSources [maybeGitSource (Some u'); maybeHgSource (Some u')]))
         else Err (ErrInvalidScheme (Scheme u) "either a git or hg repository")).
Proof.
  intros H Hs.
  destruct (list_of_length_4 v (FindStringSubmatch_length _ _ _ H))
    as (a0 & a1 & bitname & a3 & ->).
  exists bitname; split; [reflexivity|].
  cbv zeta. unfold bitbucket_hint.
  change ("." ++ "hg")%string with ".hg". change ("." ++ "git")%string with ".git".
  intros Hgit Hhg.
  simpl deduceSource. unfold bitbucketMatcher_deduceSource.
  change (bitbucket_regexp bitbucket) with bbRegex. rewrite H.
  change (index [a0; a1; bitname; a3] 2) with (Ok (A := string) bitname).
  change (mbind ?f (Ok bitname)) with (f bitname). cbv beta zeta.
  rewrite Hgit, Hhg.
  change (Scheme (with_Path u bitname)) with (Scheme u).
  apply String.eqb_neq in Hs. rewrite Hs. cbv [negb].
  rewrite !validateVCSScheme_valid_for by (simpl; auto).
  change (mbind ?f (Ok ?x)) with (f x). cbv beta.
  change (mbind ?f (Ok ?x)) with (f x). cbv beta.
  destruct (valid_for (Scheme u) "git"), (valid_for (Scheme u) "hg"); reflexivity.
Qed.

Lemma bitbucket_deduceSource_explicit_scheme_witness :
  FindStringSubmatch bbRegex "bitbucket.org/user/repo"
  = Some ["bitbucket.org/user/repo"; "bitbucket.org/user/repo"; "user/repo"; ""]
  /\ Scheme (with_Scheme (bare "bitbucket.org/user/repo") "https") <> ""
  /\ exists bitname,
       ["bitbucket.org/user/repo"; "bitbucket.org/user/repo"; "user/repo"; ""] !! 2
       = Some bitname /\
       let u := with_Scheme (bare "bitbucket.org/user/repo") "https" in
       let u' := with_Path u bitname in
       (bitbucket_hint "git" u' = false -> bitbucket_hint "hg" u' = false ->
          deduceSource bitbucket "bitbucket.org/user/repo" u
          = if valid_for (Scheme u) "git" || valid_for (Scheme u) "hg"
            then Ok (sourceFutureFactory
                       (maybeSources [maybeGitSource (Some u'); maybeHgSource (Some u')]))
            else Err (ErrInvalidScheme (Scheme u) "either a git or hg repository")).
Proof.
  split; [vm_compute; reflexivity|]. split; [discriminate|].
  apply (bitbucket_deduceSource_explicit_scheme "bitbucket.org/user/repo"
           (with_Scheme (bare "bitbucket.org/user/repo") "https")).
  - vm_compute; reflexivity.
  - discriminate.
Defined.

(** C4, as stated, fails: on the scheme [git], which only git accepts, the
    matcher offers an hg candidate as well. *)
Lemma bitbucket_offers_hg_on_git_scheme :
  ~ (forall mb,
       deduceSource bitbucket "bitbucket.org/user/repo"
         (with_Scheme (bare "bitbucket.org/user/repo") "git")
       = Ok (sourceFutureFactory mb) ->
       kind_of <$> candidates mb = viable_kinds "git").
Proof.
  intros Hc.
  specialize (Hc _ eq_refl).
  vm_compute in Hc. discriminate Hc.
Qed.

(** ** The generic matcher *)

Lemma index_cons (s1 : string) (x : ascii) (s2 : string) :
  String.index 0 s1 (String x s2)
  = if String.prefix s1 (String x s2) then Some 0
    else match String.index 0 s1 s2 with
         | Some n => Some (S n)
         | None => None
         end.
Proof. reflexivity. Qed.

Lemma Index_slash (a b : string) :
  exists n, strings.Index (a ++ "/" ++ b) "/" = Some n.
Proof.
  unfold strings.Index.
  induction a as [|x a [n IH]].
  - exists 0. rewrite append_nil_l. change ("/" ++ b)%string with (String "/" b).
    rewrite index_cons.
    replace (String.prefix "/" (String "/" b)) with true; [reflexivity|].
    symmetry. apply prefix_correct. simpl. destruct b; reflexivity.
  - rewrite append_cons, index_cons.
    destruct (String.prefix "/" (String x (a ++ "/" ++ b))); [exists 0; reflexivity|].
    rewrite IH. exists (S n); reflexivity.
Qed.

Lemma SplitN2_slash (a b : string) :
  exists host rest, strings.SplitN2 (a ++ "/" ++ b) "/" = [host; rest].
Proof.
  unfold strings.SplitN2. destruct (Index_slash a b) as (n & ->). eauto.
Qed.

Lemma per_scheme_schemes mk u schemes :
  (forall x, url_of (mk x) = x) ->
  scheme_of <$> per_scheme mk u schemes = schemes.
Proof.
  intros Hmk. unfold per_scheme.
  induction schemes as [|scheme rest IH]; [reflexivity|].
  simpl. f_equal; [|exact IH].
  unfold scheme_of. rewrite Hmk. reflexivity.
Qed.

(** C3, as amended: without a scheme, a path with the extension [git] gets
    one git candidate for each scheme of git, in the order of the scheme set,
    on the host and path that the root splits into at its first slash; a
    path with the extension [svn] gets the error for an unknown repository
    type.  (What the extensions [hg] and [bzr] get is left open here.) *)
Theorem vcsExtension_deduceSource_no_scheme path u v :
  FindStringSubmatch vcsExtensionRegex path = Some v ->
  Scheme u = "" ->
  exists root vcs,
    v !! 1 = Some root /\ v !! 5 = Some vcs /\
    (vcs = "git" ->
       exists host rest l,
         strings.SplitN2 root "/" = [host; rest] /\
         deduceSource exm path u = Ok (sourceFutureFactory (maybeSources l)) /\
         l = per_scheme maybeGitSource (with_Path (with_Host u host) rest)
               (schemes_of "git") /\
         scheme_of <$> l = schemes_of "git" /\
         Forall (is_kind "git") l) /\
    (vcs = "svn" -> deduceSource exm path u = Err (ErrUnknownRepositoryType "svn")).
Proof.
  intros H Hs.
  destruct (vcsExtensionRegex_submatch path v H)
    as (root & vcs & Hroot & Hvcs & _ & (a & b & Hab)).
  exists root, vcs; split; [exact Hroot|]; split; [exact Hvcs|].
  destruct (list_of_length_7 v (FindStringSubmatch_length _ _ _ H))
    as (a0 & a1 & a2 & a3 & a4 & a5 & a6 & ->).
  simpl in Hroot, Hvcs.
  apply (inj Some) in Hroot, Hvcs; subst a1 a5.
  simpl deduceSource. unfold vcsExtensionMatcher_deduceSource.
  change (vcsExtension_regexp exm) with vcsExtensionRegex. rewrite H.
  change (index [a0; root; a2; a3; a4; vcs; a6] 5) with (Ok (A := string) vcs).
  change (index [a0; root; a2; a3; a4; vcs; a6] 1) with (Ok (A := string) root).
  change (mbind ?f (Ok vcs)) with (f vcs). cbv beta zeta.
  split.
  - intros ->.
    destruct (SplitN2_slash a b) as (host & rest & Hsplit).
    rewrite <- Hab in Hsplit.
    exists host, rest,
      (per_scheme maybeGitSource (with_Path (with_Host u host) rest) (schemes_of "git")).
    split; [exact Hsplit|].
    change (("git" =? "git") || ("git" =? "hg") || ("git" =? "bzr"))%string with true.
    cbv iota.
    change (mbind ?f (Ok root)) with (f root). cbv beta.
    rewrite Hsplit.
    change (index [host; rest] 0) with (Ok (A := string) host).
    change (index [host; rest] 1) with (Ok (A := string) rest).
    change (mbind ?f (Ok host)) with (f host). cbv beta.
    change (mbind ?f (Ok rest)) with (f rest). cbv beta.
    change (Scheme (with_Path (with_Host u host) rest)) with (Scheme u).
    rewrite Hs.
    split; [reflexivity|]. split; [reflexivity|]. split.
    + now apply per_scheme_schemes.
    + now apply per_scheme_kind.
  - intros ->. reflexivity.
Qed.

Lemma vcsExtension_deduceSource_no_scheme_witness :
  FindStringSubmatch vcsExtensionRegex "example.com/foo/bar.git"
  = Some ["example.com/foo/bar.git"; "example.com/foo/bar.git"; "example.com/foo/bar";
          "example."; ""; "git"; ""]
  /\ Scheme (bare "example.com/foo/bar.git") = ""
  /\ exists root vcs,
       ["example.com/foo/bar.git"; "example.com/foo/bar.git"; "example.com/foo/bar";
        "example."; ""; "git"; ""] !! 1 = Some root /\
       ["example.com/foo/bar.git"; "example.com/foo/bar.git"; "example.com/foo/bar";
        "example."; ""; "git"; ""] !! 5 = Some vcs /\
       (vcs = "git" ->
          exists host rest l,
            strings.SplitN2 root "/" = [host; rest] /\
            deduceSource exm "example.com/foo/bar.git" (bare "example.com/foo/bar.git")
            = Ok (sourceFutureFactory (maybeSources l)) /\
            l = per_scheme maybeGitSource
                  (with_Path (with_Host (bare "example.com/foo/bar.git") host) rest)
                  (schemes_of "git") /\
            scheme_of <$> l = schemes_of "git" /\
            Forall (is_kind "git") l) /\
       (vcs = "svn" ->
          deduceSource exm "example.com/foo/bar.git" (bare "example.com/foo/bar.git")
          = Err (ErrUnknownRepositoryType "svn")).
Proof.
  split; [vm_compute; reflexivity|]. split; [reflexivity|].
  apply (vcsExtension_deduceSource_no_scheme "example.com/foo/bar.git"
           (bare "example.com/foo/bar.git")).
  - vm_compute; reflexivity.
  - reflexivity.
Defined.

(** C3, as stated, fails: a matched path with the extension [svn] and no
    scheme gets no candidates at all. *)
Lemma vcsExtension_no_svn_candidates :
  ~ (exists mb,
       deduceSource exm "example.com/foo/bar.svn" (bare "example.com/foo/bar.svn")
       = Ok (sourceFutureFactory mb)
       /\ scheme_of <$> candidates mb = schemes_of "svn").
Proof.
  intros (mb & Hmb & _). vm_compute in Hmb. discriminate Hmb.
Qed.

(** The two extensions the amended statement leaves open.  The loop that
    fills the candidates ranges over the schemes of git whatever the kind:
    for [.hg], whose scheme set has three entries, the fourth assignment is
    out of range; for [.bzr] the candidates carry the schemes of git, of which
    [ssh] and [git] are not schemes of bzr. *)
Lemma vcsExtension_deduceSource_ranges_over_gitSchemes :
  deduceSource exm "example.com/foo/bar.hg" (bare "example.com/foo/bar.hg")
  = Panic (PanicIndexOutOfRange 3 3)
  /\ deduceSource exm "example.com/foo/bar.bzr" (bare "example.com/foo/bar.bzr")
     = Ok (sourceFutureFactory (maybeSources (per_scheme maybeBzrSource
             (with_Path (with_Host (bare "example.com/foo/bar.bzr") "example.com") "foo/bar.bzr")
             gitSchemes)))
  /\ valid_for "ssh" "bzr" = false /\ valid_for "git" "bzr" = false.
Proof. repeat split; vm_compute; reflexivity. Qed.

Lemma index_not_Err {A} (l : list A) i e : index l i <> Err e.
Proof. unfold index. destruct (l !! i); discriminate. Qed.

(** For a kind the matcher knows, no path through [deduceSource] ends in the
    error for an unknown repository type. *)
Ltac known_kind Ht u a1 :=
  simpl in Ht;
  let E0 := fresh "E" in
  destruct (index (strings.SplitN2 a1 "/") 0) as [x0|e0|p0] eqn:E0;
    [ | exfalso; exact (index_not_Err _ _ _ E0) | discriminate Ht ];
  simpl in Ht;
  let E1 := fresh "E" in
  destruct (index (strings.SplitN2 a1 "/") 1) as [x1|e1|p1] eqn:E1;
    [ | exfalso; exact (index_not_Err _ _ _ E1) | discriminate Ht ];
  simpl in Ht;
  destruct (String.eqb (Scheme u) ""); cbv [negb] in Ht;
    [ vm_compute in Ht; discriminate Ht | ];
  simpl in Ht;
  match type of Ht with
  | (if (if ?b then _ else _) then _ else _) = _ => destruct b; discriminate Ht
  end.

(** C5, as amended: the extension is one of bzr, git, hg and svn, and
    [deduceSource] fails with the error for an unknown repository type
    exactly when it is svn. *)
Theorem vcsExtension_deduceSource_unknown_type path u v :
  FindStringSubmatch vcsExtensionRegex path = Some v ->
  exists vcs,
    v !! 5 = Some vcs /\
    In vcs ["bzr"; "git"; "hg"; "svn"] /\
    (vcs = "svn" -> deduceSource exm path u = Err (ErrUnknownRepositoryType "svn")) /\
    (forall t, deduceSource exm path u = Err (ErrUnknownRepositoryType t) ->
       vcs = "svn" /\ t = "svn").
Proof.
  intros H.
  destruct (vcsExtensionRegex_submatch path v H) as (root & vcs & _ & Hv & Hin & _).
  exists vcs; split; [exact Hv|]; split; [exact Hin|].
  destruct (list_of_length_7 v (FindStringSubmatch_length _ _ _ H))
    as (a0 & a1 & a2 & a3 & a4 & a5 & a6 & ->).
  simpl in Hv. apply (inj Some) in Hv; subst a5.
  simpl deduceSource. unfold vcsExtensionMatcher_deduceSource.
  change (vcsExtension_regexp exm) with vcsExtensionRegex. rewrite H.
  change (index [a0; a1; a2; a3; a4; vcs; a6] 5) with (Ok (A := string) vcs).
  change (mbind ?f (Ok vcs)) with (f vcs). cbv beta zeta.
  split.
  - intros ->. reflexivity.
  - intros t Ht.
    destruct Hin as [<-|[<-|[<-|[<-|[]]]]];
      [exfalso; known_kind Ht u a1 .. | simpl in Ht; injection Ht as <-; auto].
Qed.

Lemma vcsExtension_deduceSource_unknown_type_witness :
  FindStringSubmatch vcsExtensionRegex "example.com/foo/bar.svn"
  = Some ["example.com/foo/bar.svn"; "example.com/foo/bar.svn"; "example.com/foo/bar";
          "example."; ""; "svn"; ""]
  /\ exists vcs,
       ["example.com/foo/bar.svn"; "example.com/foo/bar.svn"; "example.com/foo/bar";
        "example."; ""; "svn"; ""] !! 5 = Some vcs /\
       In vcs ["bzr"; "git"; "hg"; "svn"] /\
       (vcs = "svn" ->
          deduceSource exm "example.com/foo/bar.svn" (bare "example.com/foo/bar.svn")
          = Err (ErrUnknownRepositoryType "svn")) /\
       (forall t,
          deduceSource exm "example.com/foo/bar.svn" (bare "example.com/foo/bar.svn")
          = Err (ErrUnknownRepositoryType t) ->
          vcs = "svn" /\ t = "svn").
Proof.
  split; [vm_compute; reflexivity|].
  apply (vcsExtension_deduceSource_unknown_type "example.com/foo/bar.svn"
           (bare "example.com/foo/bar.svn")).
  vm_compute; reflexivity.
Defined.

(** C5, as stated, fails: a matched path that ends in [.svn] gets the error,
    not candidates. *)
Lemma vcsExtension_rejects_svn :
  (exists v, FindStringSubmatch vcsExtensionRegex "example.com/foo/bar.svn" = Some v
             /\ v !! 5 = Some "svn")
  /\ deduceSource exm "example.com/foo/bar.svn" (bare "example.com/foo/bar.svn")
     = Err (ErrUnknownRepositoryType "svn")
  /\ ~ (exists f, deduceSource exm "example.com/foo/bar.svn" (bare "example.com/foo/bar.svn")
                  = Ok f).
Proof.
  split; [|split].
  - eexists; split; vm_compute; reflexivity.
  - vm_compute; reflexivity.
  - intros [f Hf]. vm_compute in Hf. discriminate Hf.
Qed.

(** ** normalizeURI *)

Lemma substring_all (s : string) : String.substring 0 (String.length s) s = s.
Proof.
  induction s as [|x s IH]; [reflexivity|].
  simpl. f_equal. exact IH.
Qed.

Lemma TrimPrefix_slash (rest : string) :
  strings.TrimPrefix ("/" ++ rest) "/" = rest.
Proof.
  change ("/" ++ rest)%string with (String "/" rest).
  unfold strings.TrimPrefix, strings.HasPrefix.
  change (String.prefix "/" (String "/" rest)) with (String.prefix "" rest).
  replace (String.prefix "" rest) with true by (destruct rest; reflexivity).
  change (String.length "/") with 1.
  change (String.length (String "/" rest) - 1) with (String.length rest - 0).
  rewrite Nat.sub_0_r.
  change (String.substring 1 (String.length rest) (String "/" rest))
    with (String.substring 0 (String.length rest) rest).
  apply substring_all.
Qed.

(** C10: an input of the SCP-like form [user@host:rest] becomes the URL with
    scheme [ssh], that user and host, and the path [/rest]; it is returned if
    [host/rest] fits the grammar of import paths, and refused with the error
    of that grammar otherwise. *)
Theorem normalizeURI_scp `{External} (path : string) (m : list string) :
  FindStringSubmatch scpSyntaxRe path = Some m ->
  exists user host rest,
    m = [path; user; host; rest] /\
    path = (user ++ "@" ++ host ++ ":" ++ rest)%string /\
    normalizeURI path
    = if MatchString pathvld (host ++ "/" ++ rest)
      then Ok (scp_url user host rest)
      else Err (ErrNotValidImportPath (host ++ "/" ++ rest)).
Proof.
  intros Hm.
  destruct (scpSyntaxRe_submatch path m Hm) as (user & host & rest & -> & Hp & Hh).
  exists user, host, rest; split; [reflexivity|]; split; [exact Hp|].
  unfold normalizeURI. rewrite Hm.
  change (index [path; user; host; rest] 1) with (Ok (A := string) user).
  change (index [path; user; host; rest] 2) with (Ok (A := string) host).
  change (index [path; user; host; rest] 3) with (Ok (A := string) rest).
  change (mbind ?f (Ok user)) with (f user). cbv beta.
  change (mbind ?f (Ok host)) with (f host). cbv beta.
  change (mbind ?f (Ok rest)) with (f rest). cbv beta.
  change (mbind ?f (Ok ?x)) with (f x). cbv beta zeta.
  change (Host {| Scheme := "ssh"; Opaque := ""; User := UserOf user; Host := host;
                  Path := "/" ++ rest; RawPath := ""; RawQuery := "";
                  Fragment := "" |}) with host.
  change (Path {| Scheme := "ssh"; Opaque := ""; User := UserOf user; Host := host;
                  Path := "/" ++ rest; RawPath := ""; RawQuery := "";
                  Fragment := "" |}) with ("/" ++ rest)%string.
  apply String.eqb_neq in Hh. rewrite Hh. cbv [negb].
  rewrite TrimPrefix_slash.
  destruct (MatchString pathvld (host ++ "/" ++ rest)); reflexivity.
Qed.

Lemma normalizeURI_scp_witness :
  FindStringSubmatch scpSyntaxRe "git@example.com:user/repo"
  = Some ["git@example.com:user/repo"; "git"; "example.com"; "user/repo"]
  /\ exists user host rest,
       ["git@example.com:user/repo"; "git"; "example.com"; "user/repo"]
       = ["git@example.com:user/repo"; user; host; rest] /\
       "git@example.com:user/repo" = (user ++ "@" ++ host ++ ":" ++ rest)%string /\
       normalizeURI (E := Offline.offline) "git@example.com:user/repo"
       = if MatchString pathvld (host ++ "/" ++ rest)
         then Ok (scp_url user host rest)
         else Err (ErrNotValidImportPath (host ++ "/" ++ rest)).
Proof.
  split; [reflexivity|].
  apply (normalizeURI_scp (H := Offline.offline) "git@example.com:user/repo").
  reflexivity.
Defined.

(** The example of the specification, and one the grammar refuses. *)
Example normalizeURI_scp_examples `{External} :
  normalizeURI "git@example.com:user/repo" = Ok (scp_url "git" "example.com" "user/repo")
  /\ normalizeURI "git@localhost:user/repo" = Err (ErrNotValidImportPath "localhost/user/repo").
Proof. split; vm_compute; reflexivity. Qed.

(** ** deduceFromPath *)

Section DeduceFromPath.

Context `{E : External}.

(** C6: once the registry has a matcher for the path, a failure of its
    [deduceRoot] or [deduceSource] is what [deduceFromPath] returns, and once
    the pattern of the generic matcher fits, so is a failure of its
    [deduceSource]; no goroutine has been started, so that nothing is
    fetched. *)
Theorem deduceFromPath_commits (sm : SourceMgr) (path : string) (u : URL) (e : error) :
  normalizeURI path = Ok u ->
  committed_failure sm path u e ->
  deduceFromPath sm path = ([], Err e)
  /\ forall w n, step (Schedule n) (initial w (deduceFromPath sm path).1) = None.
Proof.
  intros Hn Hc.
  assert (Hd : deduceFromPath sm path = ([], Err e)).
  { unfold deduceFromPath. rewrite Hn. unfold committed_failure in Hc.
    destruct (LongestPrefix (rootxt sm) path) as [[key [M HM mtch]]|].
    - destruct Hc as [Hr | (root & Hr & Hs)].
      + rewrite Hr. reflexivity.
      + rewrite Hr, Hs. reflexivity.
    - destruct Hc as (root & Hr & Hs).
      change {| vcsExtension_regexp := vcsExtensionRegex |} with exm.
      rewrite Hr, Hs. reflexivity. }
  split; [exact Hd|].
  intros w n. rewrite Hd. reflexivity.
Qed.

(** [deduceFromPath] starts the metadata fetch or nothing. *)
Lemma deduceFromPath_spawned (sm : SourceMgr) (path : string) :
  (deduceFromPath sm path).1 = [] \/ (deduceFromPath sm path).1 = [GoMetadata path].
Proof.
  unfold deduceFromPath.
  destruct (normalizeURI path); auto.
  destruct (LongestPrefix (rootxt sm) path) as [[key [M HM mtch]]|].
  - destruct (deduceRoot mtch path); auto.
    destruct (deduceSource mtch path a); auto.
  - destruct (deduceRoot _ path); auto.
    destruct (deduceSource _ path a); auto.
Qed.

End DeduceFromPath.

Lemma deduceFromPath_commits_witness :
  normalizeURI (E := Offline.offline) "github.com/user" = Ok (bare "github.com/user")
  /\ committed_failure {| rootxt := registry |} "github.com/user" (bare "github.com/user")
       (ErrNotValidPathFor "github.com/user" "github.com")
  /\ (deduceFromPath (E := Offline.offline) {| rootxt := registry |} "github.com/user"
      = ([], Err (ErrNotValidPathFor "github.com/user" "github.com"))
      /\ forall w n,
           step (E := Offline.offline) (Schedule n)
             (initial w (deduceFromPath {| rootxt := registry |} "github.com/user").1)
           = None).
Proof.
  assert (Hn : normalizeURI (E := Offline.offline) "github.com/user"
               = Ok (bare "github.com/user")) by (reflexivity).
  assert (Hc : committed_failure {| rootxt := registry |} "github.com/user"
                 (bare "github.com/user")
                 (ErrNotValidPathFor "github.com/user" "github.com"))
    by (left; reflexivity).
  split; [exact Hn|]. split; [exact Hc|].
  exact (deduceFromPath_commits (E := Offline.offline) {| rootxt := registry |}
           "github.com/user" (bare "github.com/user") _ Hn Hc).
Defined.

(** A failure of the generic matcher after its pattern has fitted, and the
    vanity stage for a path that neither stage claims. *)
Example deduceFromPath_examples :
  deduceFromPath (E := Offline.offline) {| rootxt := registry |} "example.com/foo/bar.svn"
  = ([], Err (ErrUnknownRepositoryType "svn"))
  /\ deduceFromPath (E := Offline.offline) {| rootxt := registry |} "example.org/pkg"
     = ([GoMetadata "example.org/pkg"],
        Ok (deduceFromPath_root "example.org/pkg", deduceFromPath_src "example.org/pkg",
            Some (ErrNoVcsExtensionHints "example.org/pkg")))
  /\ deduceFromPath (E := Offline.offline) {| rootxt := registry |} "example.com/foo/bar.hg"
     = ([], Panic (PanicIndexOutOfRange 3 3))
  /\ deduceFromPath (E := Offline.offline) {| rootxt := registry |} "gopkg.in/yaml.v2"
     = ([], Ok (simpleStringFuture "gopkg.in/",
                sourceFutureFactory (maybeSources (per_scheme maybeGitSource
                  (with_Path (with_Host (bare "gopkg.in/yaml.v2") "github.com") "go-pkg/yaml")
                  gitSchemes)),
                None)).
Proof. repeat split; reflexivity. Qed.

(** ** Goroutines and futures *)

Lemma filter_length_delete {A} (f : A -> bool) (l : list A) : forall n x,
  l !! n = Some x ->
  length (List.filter f (delete n l)) + (if f x then 1 else 0)
  = length (List.filter f l).
Proof.
  induction l as [|a l IH]; intros [|n] x Hx; try discriminate.
  - simpl in Hx. injection Hx as ->. simpl. destruct (f x); simpl; lia.
  - simpl in Hx. simpl. specialize (IH n x Hx).
    destruct (f a); simpl; lia.
Qed.

Lemma filter_length_insert {A} (f : A -> bool) (l : list A) : forall n x y,
  l !! n = Some x ->
  length (List.filter f (<[n := y]> l)) + (if f x then 1 else 0)
  = length (List.filter f l) + (if f y then 1 else 0).
Proof.
  induction l as [|a l IH]; intros [|n] x y Hx; try discriminate.
  - simpl in Hx. injection Hx as ->. simpl. destruct (f x), (f y); simpl; lia.
  - simpl in Hx. simpl. specialize (IH n x y Hx).
    destruct (f a); simpl; lia.
Qed.

Lemma filter_length_snoc {A} (f : A -> bool) (l : list A) (x : A) :
  length (List.filter f (l ++ [x]))
  = length (List.filter f l) + (if f x then 1 else 0).
Proof.
  rewrite List.filter_app, length_app. simpl. destruct (f x); reflexivity.
Qed.

Section Futures.

Context `{E : External}.

Lemma tries_app id tr ev : tries id (tr ++ ev) = tries id tr + tries id ev.
Proof. unfold tries. now rewrite List.filter_app, length_app. Qed.

Lemma http_gets_app tr ev : http_gets (tr ++ ev) = http_gets tr ++ http_gets ev.
Proof. unfold http_gets. apply List.filter_app. Qed.

Lemma doFetchMetadata_tries scheme path w r w' ev id :
  doFetchMetadata scheme path w = (r, w', ev) -> tries id ev = 0.
Proof.
  unfold doFetchMetadata.
  destruct (_ || _).
  - destruct (http_Get _ w) as [[body|] w1]; intros [= <- <- <-]; reflexivity.
  - intros [= <- <- <-]; reflexivity.
Qed.

Lemma tries_try id future m cachedir :
  tries id [EvTry future m cachedir] = if (future =? id)%nat then 1 else 0.
Proof. unfold tries. simpl. destruct (future =? id)%nat; reflexivity. Qed.

(** What a step of the metadata fetch changes: before its last step nothing
    but the world and the trace, in which no [try] appears; in its last step
    the variables of the root future, and it closes the channel. *)
Lemma run_meta_effect g st st' og :
  is_meta g = true ->
  run_goroutine g st = Some (st', og) ->
  cells st' = cells st /\ running st' = running st /\
  (forall id, tries id (trace st') = tries id (trace st)) /\
  match og with
  | Some g' =>
      is_meta g' = true /\ c st' = c st /\ importroot st' = importroot st /\
      futerr st' = futerr st /\ ru st' = ru st /\ vcs st' = vcs st
  | None => c st' = true /\ trace st' = trace st /\ world st' = world st
  end.
Proof.
  destruct g as [p | p | p rc | f0 mb cd an | f0 s e | f0 cd an | f0 s];
    try discriminate; intros _; simpl.
  - unfold run_metadata.
    destruct (doFetchMetadata "https" p (world st)) as [[rc w1] ev1] eqn:Hd.
    intros [= <- <-]. simpl. split; [reflexivity|]. split; [reflexivity|]. split.
    + intros id. rewrite tries_app, (doFetchMetadata_tries _ _ _ _ _ _ id Hd). lia.
    + destruct rc; repeat split; reflexivity.
  - unfold run_metadata_http.
    destruct (doFetchMetadata "http" p (world st)) as [[rc w1] ev1] eqn:Hd.
    intros [= <- <-]. simpl. split; [reflexivity|]. split; [reflexivity|]. split.
    + intros id. rewrite tries_app, (doFetchMetadata_tries _ _ _ _ _ _ id Hd). lia.
    + repeat split; reflexivity.
  - unfold run_metadata_read.
    destruct (parseMetadata_read p rc) as [[[[ir v] rr] fe]| |]; try discriminate.
    destruct fe as [e|]; [|destruct (url_Parse rr)];
      intros [= <- <-]; simpl; repeat split; reflexivity.
Qed.

(** What a step of the goroutine of a chained source future changes. *)
Lemma run_chained_effect future cachedir an st st' og :
  run_chained future cachedir an st = Some (st', og) ->
  c st = true /\
  match og with
  | Some g' =>
      futerr st = None /\ cells st' = cells st /\
      (exists src1, g' = GoChainedClose future src1) /\
      exists m w1, st' = called st w1 [EvTry future m cachedir]
  | None =>
      exists src', st' = close_chained future src' st
  end.
Proof.
  unfold run_chained.
  destruct (c st) eqn:Hc; [|discriminate]. simpl.
  destruct (futerr st) as [e|] eqn:Hf.
  - intros [= <- <-]. split; [reflexivity|]. eauto.
  - destruct (if String.eqb (vcs st) "git" then maybeGitSource (ru st)
              else if String.eqb (vcs st) "bzr" then maybeBzrSource (ru st)
              else if String.eqb (vcs st) "hg" then maybeHgSource (ru st)
              else nilSource) as [|x|x|x|l] eqn:Hm.
    + intros [= <- <-]. split; [reflexivity|]. eauto.
    + destruct (try (maybeGitSource x) cachedir an (world st)) as [[s1 e1] w1].
      intros [= <- <-]. split; [reflexivity|]. simpl. eauto 10.
    + destruct (try (maybeBzrSource x) cachedir an (world st)) as [[s1 e1] w1].
      intros [= <- <-]. split; [reflexivity|]. simpl. eauto 10.
    + destruct (try (maybeHgSource x) cachedir an (world st)) as [[s1 e1] w1].
      intros [= <- <-]. split; [reflexivity|]. simpl. eauto 10.
    + destruct (try (maybeSources l) cachedir an (world st)) as [[s1 e1] w1].
      intros [= <- <-]. split; [reflexivity|]. simpl. eauto 10.
Qed.

Lemma close_chained_cells future src' st :
  length (cells (close_chained future src' st)) = length (cells st) /\
  (forall id, id <> future ->
     cells (close_chained future src' st) !! id = cells st !! id) /\
  (forall cl, cells (close_chained future src' st) !! future = Some cl ->
     closed cl = true /\ exists cl0, cells st !! future = Some cl0 /\ err cl = err cl0).
Proof.
  unfold close_chained. simpl. split; [apply length_alter|]. split.
  - intros id Hne. apply list_lookup_alter_ne. congruence.
  - intros cl. rewrite list_lookup_alter_eq.
    destruct (cells st !! future) as [cl0|]; [|discriminate].
    simpl. intros [= <-]. simpl. eauto.
Qed.

End Futures.

Section Memoization.

Context `{E : External}.

Lemma unit_of_eq f0 future :
  (forall id, (f0 =? id)%nat = (future =? id)%nat) -> f0 = future.
Proof.
  intros Hu. specialize (Hu f0). rewrite Nat.eqb_refl in Hu.
  symmetry in Hu. apply Nat.eqb_eq in Hu. auto.
Qed.

(** What a step of the unit of a source future changes: with its call of
    [try], the world and the trace; in its last step, its own cell, which it
    closes. *)
Lemma run_unit_effect g future st st' og :
  is_meta g = false ->
  (forall id, unit_of id g = (future =? id)%nat) ->
  run_goroutine g st = Some (st', og) ->
  running st' = running st /\ c st' = c st /\
  importroot st' = importroot st /\ futerr st' = futerr st /\
  ru st' = ru st /\ vcs st' = vcs st /\
  http_gets (trace st') = http_gets (trace st) /\
  match og with
  | Some g' =>
      cells st' = cells st /\ is_meta g' = false /\
      (forall id, unit_of id g' = (future =? id)%nat) /\
      (forall id, untried_unit_of id g' = false) /\
      (forall id, untried_unit_of id g = (future =? id)%nat) /\
      (forall id, tries id (trace st')
                  = tries id (trace st) + (if (future =? id)%nat then 1 else 0))
  | None =>
      trace st' = trace st /\ world st' = world st /\
      length (cells st') = length (cells st) /\
      (forall id, id <> future -> cells st' !! id = cells st !! id) /\
      (forall cl, cells st' !! future = Some cl -> closed cl = true)
  end.
Proof.
  intros Hm Hu H.
  destruct g as [p | p | p rc | f0 mb cd an | f0 s e | f0 cd an | f0 s];
    try discriminate Hm; simpl in Hu; apply unit_of_eq in Hu; subst f0; simpl in H.
  - unfold run_try in H.
    destruct (try mb cd an (world st)) as [[s e] w'].
    injection H as <- <-. simpl.
    repeat split; try reflexivity.
    + rewrite http_gets_app. simpl. apply app_nil_r.
    + intros id. rewrite tries_app, tries_try. reflexivity.
  - injection H as <- <-. unfold run_try_close. simpl.
    repeat split; try reflexivity.
    + apply length_insert.
    + intros id Hne. apply list_lookup_insert_ne. congruence.
    + intros cl Hcl. apply list_lookup_insert_Some in Hcl as [(_ & <- & _)|(Hne & _)];
        [reflexivity | congruence].
  - destruct (run_chained_effect _ _ _ _ _ _ H) as (Hc & Heff).
    destruct og as [g'|].
    + destruct Heff as (Hf & Hcells & (src1 & ->) & (m & w1 & ->)). simpl.
      repeat split; try reflexivity.
      * rewrite http_gets_app. simpl. apply app_nil_r.
      * intros id. rewrite tries_app, tries_try. reflexivity.
    + destruct Heff as (src' & ->).
      destruct (close_chained_cells future src' st) as (Hl & Hne & Heq).
      repeat split; try reflexivity; auto.
      intros cl Hcl. apply Heq in Hcl as [Hcl _]. exact Hcl.
  - injection H as <- <-.
    destruct (close_chained_cells future (fun _ => s) st) as (Hl & Hne & Heq).
    repeat split; try reflexivity; auto.
    intros cl Hcl. apply Heq in Hcl as [Hcl _]. exact Hcl.
Qed.

Lemma goroutine_cases (g : goroutine) :
  is_meta g = true \/
  (exists future, is_meta g = false /\ forall id, unit_of id g = (future =? id)%nat).
Proof.
  destruct g as [p | p | p rc | f0 mb cd an | f0 s e | f0 cd an | f0 s];
    [left; reflexivity | left; reflexivity | left; reflexivity
    | right | right | right | right];
    exists f0; split; reflexivity.
Qed.

Lemma untried_le_unit id g : untried_unit_of id g = true -> unit_of id g = true.
Proof. destruct g; simpl; auto; discriminate. Qed.

Lemma wf_initial w spawned :
  spawned = [] \/ (exists path, spawned = [GoMetadata path]) ->
  wf (initial w spawned).
Proof.
  intros [-> | (path & ->)]; split; simpl; intros; auto; try lia;
    try (rewrite lookup_nil in *; discriminate).
Qed.

Lemma wf_invoke f cachedir an st :
  wf st -> wf (invoke f cachedir an st).2.
Proof.
  intros [Hfresh Honce Hunit Hclosed Hmeta].
  set (g := match f with
            | sourceFutureFactory mb => GoTry (length (cells st)) mb cachedir an
            | deduceFromPath_src _ => GoChained (length (cells st)) cachedir an
            end).
  assert (Hg : is_meta g = false /\
               (forall id, unit_of id g = (length (cells st) =? id)%nat) /\
               (forall id, untried_unit_of id g = (length (cells st) =? id)%nat))
    by (destruct f; repeat split; reflexivity).
  destruct Hg as (Hgm & Hgu & Hgt).
  split; simpl; fold g.
  - intros id Hid. rewrite length_app in Hid. simpl in Hid.
    unfold pending. rewrite filter_length_snoc, Hgu.
    destruct (Nat.eqb_spec (length (cells st)) id); [lia|].
    destruct (Hfresh id ltac:(lia)) as [Hp Ht]. unfold pending in Hp. lia.
  - intros id. unfold untried. rewrite filter_length_snoc, Hgt.
    specialize (Honce id). unfold untried in Honce.
    destruct (Nat.eqb_spec (length (cells st)) id) as [<-|]; [|lia].
    destruct (Hfresh (length (cells st)) ltac:(lia)) as [Hp Ht].
    assert (untried (length (cells st)) (running st) = 0); [|unfold untried in *; lia].
    unfold untried, pending in *.
    apply Nat.le_0_r. rewrite <- Hp.
    clear. induction (running st) as [|a l IH]; simpl; [lia|].
    destruct (untried_unit_of (length (cells st)) a) eqn:Hu.
    + rewrite (untried_le_unit _ _ Hu). simpl. lia.
    + destruct (unit_of (length (cells st)) a); simpl; lia.
  - intros id. unfold pending. rewrite filter_length_snoc, Hgu.
    specialize (Hunit id). unfold pending in Hunit.
    destruct (Nat.eqb_spec (length (cells st)) id) as [<-|]; [|lia].
    destruct (Hfresh (length (cells st)) ltac:(lia)) as [Hp Ht].
    unfold pending in Hp. lia.
  - intros id cl Hcl Hc. unfold pending. rewrite filter_length_snoc, Hgu.
    destruct (Nat.lt_ge_cases id (length (cells st))) as [Hlt|Hge].
    + rewrite lookup_app_l in Hcl by exact Hlt.
      specialize (Hclosed id cl Hcl Hc). unfold pending in Hclosed.
      destruct (Nat.eqb_spec (length (cells st)) id); lia.
    + rewrite lookup_app_r in Hcl by exact Hge.
      destruct (id - length (cells st)) as [|k]; simpl in Hcl.
      * injection Hcl as <-. discriminate Hc.
      * destruct k; discriminate Hcl.
  - unfold metas. rewrite filter_length_snoc, Hgm. unfold metas in Hmeta. lia.
Qed.

Lemma wf_schedule n st st' :
  wf st -> step (Schedule n) st = Some st' -> wf st'.
Proof.
  intros [Hfresh Honce Hunit Hclosed Hmeta] H. simpl in H.
  destruct (running st !! n) as [g|] eqn:Hg; [|discriminate].
  destruct (run_goroutine g st) as [[st1 og]|] eqn:Hrun; [|discriminate].
  destruct (goroutine_cases g) as [Hgm | (future & Hgm & Hgu)].
  - destruct (run_meta_effect _ _ _ _ Hgm Hrun) as (Hc & Hr & Ht & Heff).
    assert (Hgu : forall id, unit_of id g = false) by (destruct g; try discriminate; reflexivity).
    assert (Hgt : forall id, untried_unit_of id g = false)
      by (destruct g; try discriminate; reflexivity).
    destruct og as [g'|]; injection H as <-.
    + destruct Heff as (Hgm' & Hcc & _).
      assert (Hgu' : forall id, unit_of id g' = false)
        by (destruct g'; try discriminate; reflexivity).
      assert (Hgt' : forall id, untried_unit_of id g' = false)
        by (destruct g'; try discriminate; reflexivity).
      assert (Hp : forall id, pending id (<[n := g']> (running st1)) = pending id (running st)).
      { intros id. rewrite Hr. unfold pending.
        pose proof (filter_length_insert (unit_of id) _ _ _ g' Hg) as Hd.
        rewrite Hgu, Hgu' in Hd. lia. }
      assert (Hu : forall id, untried id (<[n := g']> (running st1)) = untried id (running st)).
      { intros id. rewrite Hr. unfold untried.
        pose proof (filter_length_insert (untried_unit_of id) _ _ _ g' Hg) as Hd.
        rewrite Hgt, Hgt' in Hd. lia. }
      assert (Hm : metas (<[n := g']> (running st1)) = metas (running st)).
      { rewrite Hr. unfold metas.
        pose proof (filter_length_insert is_meta _ _ _ g' Hg) as Hd.
        rewrite Hgm, Hgm' in Hd. lia. }
      split; simpl.
      * intros id Hid. rewrite Hc in Hid. rewrite Hp, Ht. auto.
      * intros id. rewrite Hu, Ht. auto.
      * intros id. rewrite Hp. auto.
      * intros id cl Hcl Hcc'. rewrite Hc in Hcl. rewrite Hp. eauto.
      * rewrite Hm, Hcc. exact Hmeta.
    + destruct Heff as (Hcc & _).
      assert (Hp : forall id, pending id (delete n (running st1)) = pending id (running st)).
      { intros id. rewrite Hr. unfold pending.
        pose proof (filter_length_delete (unit_of id) _ _ _ Hg) as Hd.
        rewrite Hgu in Hd. lia. }
      assert (Hu : forall id, untried id (delete n (running st1)) = untried id (running st)).
      { intros id. rewrite Hr. unfold untried.
        pose proof (filter_length_delete (untried_unit_of id) _ _ _ Hg) as Hd.
        rewrite Hgt in Hd. lia. }
      assert (Hm : metas (delete n (running st1)) + 1 = metas (running st)).
      { rewrite Hr. unfold metas.
        pose proof (filter_length_delete is_meta _ _ _ Hg) as Hd.
        rewrite Hgm in Hd. exact Hd. }
      split; simpl.
      * intros id Hid. rewrite Hc in Hid. rewrite Hp, Ht. auto.
      * intros id. rewrite Hu, Ht. auto.
      * intros id. rewrite Hp. auto.
      * intros id cl Hcl Hcc'. rewrite Hc in Hcl. rewrite Hp. eauto.
      * rewrite Hcc. destruct (c st); lia.
  - destruct (run_unit_effect _ _ _ _ _ Hgm Hgu Hrun)
      as (Hr & Hcc & _ & _ & _ & _ & _ & Heff).
    destruct og as [g'|]; injection H as <-.
    + destruct Heff as (Hc & Hgm' & Hgu' & Hgt' & Hgt & Ht).
      assert (Hp : forall id, pending id (<[n := g']> (running st1)) = pending id (running st)).
      { intros id. rewrite Hr. unfold pending.
        pose proof (filter_length_insert (unit_of id) _ _ _ g' Hg) as Hd.
        rewrite Hgu, Hgu' in Hd. lia. }
      assert (Hu : forall id, untried id (<[n := g']> (running st1))
                              + (if (future =? id)%nat then 1 else 0)
                              = untried id (running st)).
      { intros id. rewrite Hr. unfold untried.
        pose proof (filter_length_insert (untried_unit_of id) _ _ _ g' Hg) as Hd.
        rewrite Hgt, Hgt' in Hd. lia. }
      assert (Hm : metas (<[n := g']> (running st1)) = metas (running st)).
      { rewrite Hr. unfold metas.
        pose proof (filter_length_insert is_meta _ _ _ g' Hg) as Hd.
        rewrite Hgm, Hgm' in Hd. lia. }
      assert (Hpos : forall id, (future =? id)%nat = true -> 1 <= pending id (running st)).
      { intros id Hid. unfold pending.
        pose proof (filter_length_delete (unit_of id) _ _ _ Hg) as Hd.
        rewrite Hgu, Hid in Hd. lia. }
      split; simpl.
      * intros id Hid. rewrite Hc in Hid. rewrite Hp, Ht.
        destruct (Hfresh id Hid) as [Hp0 Ht0]. split; [exact Hp0|].
        destruct (future =? id)%nat eqn:Hfe; [|lia].
        specialize (Hpos id Hfe). lia.
      * intros id. specialize (Hu id). specialize (Honce id). rewrite Ht.
        destruct (future =? id)%nat; lia.
      * intros id. rewrite Hp. auto.
      * intros id cl Hcl Hcc'. rewrite Hc in Hcl. rewrite Hp. eauto.
      * rewrite Hm, Hcc. exact Hmeta.
    + destruct Heff as (Htr & _ & Hlen & Hne & Hcl).
      assert (Hp : forall id, pending id (delete n (running st1))
                              + (if (future =? id)%nat then 1 else 0)
                              = pending id (running st)).
      { intros id. rewrite Hr. unfold pending.
        pose proof (filter_length_delete (unit_of id) _ _ _ Hg) as Hd.
        rewrite Hgu in Hd. exact Hd. }
      assert (Hu : forall id, untried id (delete n (running st1)) <= untried id (running st)).
      { intros id. rewrite Hr. unfold untried.
        pose proof (filter_length_delete (untried_unit_of id) _ _ _ Hg) as Hd. lia. }
      assert (Hm : metas (delete n (running st1)) = metas (running st)).
      { rewrite Hr. unfold metas.
        pose proof (filter_length_delete is_meta _ _ _ Hg) as Hd.
        rewrite Hgm in Hd. lia. }
      split; simpl.
      * intros id Hid. rewrite Hlen in Hid. rewrite Htr.
        destruct (Hfresh id Hid) as [Hp0 Ht0]. specialize (Hp id). split; [lia | exact Ht0].
      * intros id. rewrite Htr. specialize (Hu id). specialize (Honce id). lia.
      * intros id. specialize (Hp id). specialize (Hunit id). lia.
      * intros id cl' Hcl' Hcc'. specialize (Hp id). specialize (Hunit id).
        destruct (Nat.eqb_spec future id) as [->|Hne']; [lia|].
        rewrite Hne in Hcl' by congruence.
        specialize (Hclosed id cl' Hcl' Hcc'). lia.
      * rewrite Hm, Hcc. exact Hmeta.
Qed.

Lemma wf_step a st st' : wf st -> step a st = Some st' -> wf st'.
Proof.
  destruct a as [f cachedir an | n].
  - intros Hwf [= <-]. now apply wf_invoke.
  - apply wf_schedule.
Qed.

Lemma wf_exec acts : forall st st',
  wf st -> exec acts st = Some st' -> wf st'.
Proof.
  induction acts as [|a acts IH]; intros st st' Hwf H; simpl in H.
  - injection H as <-. exact Hwf.
  - destruct (step a st) as [st1|] eqn:Hs; [|discriminate].
    eapply IH; [|exact H]. eapply wf_step; eauto.
Qed.

(** The metadata fetch is no longer about once it has closed its channel. *)
Lemma meta_not_closed st n g :
  wf st -> running st !! n = Some g -> is_meta g = true -> c st = false.
Proof.
  intros Hwf Hg Hgm.
  pose proof (wf_meta _ Hwf) as Hmeta. unfold metas in Hmeta.
  pose proof (filter_length_delete is_meta _ _ _ Hg) as Hd. rewrite Hgm in Hd.
  destruct (c st); [lia | reflexivity].
Qed.

(** The unit of a source future is no longer about once it has closed the
    channel of the future. *)
Lemma unit_not_closed st n g future cl :
  wf st -> running st !! n = Some g ->
  (forall id, unit_of id g = (future =? id)%nat) ->
  cells st !! future = Some cl -> closed cl = false.
Proof.
  intros Hwf Hg Hgu Hcl.
  destruct (closed cl) eqn:Hcc; [|reflexivity].
  pose proof (wf_closed _ Hwf future cl Hcl Hcc) as Hp. unfold pending in Hp.
  pose proof (filter_length_delete (unit_of future) _ _ _ Hg) as Hd.
  rewrite Hgu, Nat.eqb_refl in Hd. lia.
Qed.

(** One step leaves every resolved future as it is, and runs no unit of a
    resolved future again. *)
Lemma step_stable a st st' :
  wf st -> step a st = Some st' ->
  (forall f p, call_futureString f st = Some p -> call_futureString f st' = Some p) /\
  (c st = true -> http_gets (trace st') = http_gets (trace st)) /\
  (forall id p, call_futureSource id st = Some p ->
     call_futureSource id st' = Some p /\ tries id (trace st') = tries id (trace st)).
Proof.
  intros Hwf H.
  destruct a as [f0 cachedir an | n].
  - injection H as <-. simpl. repeat split; auto.
    unfold call_futureSource in *. simpl.
    destruct (cells st !! id) as [cl|] eqn:Hcl; [|discriminate].
    rewrite lookup_app_l by (eapply lookup_lt_Some; eauto).
    rewrite Hcl. assumption.
  - simpl in H.
    destruct (running st !! n) as [g|] eqn:Hg; [|discriminate].
    destruct (run_goroutine g st) as [[st1 og]|] eqn:Hrun; [|discriminate].
    assert (Hst' : exists gs, st' = set_running st1 gs).
    { destruct og; injection H as <-; eauto. }
    destruct Hst' as (gs & ->). clear H.
    destruct (goroutine_cases g) as [Hgm | (future & Hgm & Hgu)].
    + pose proof (meta_not_closed _ _ _ Hwf Hg Hgm) as Hc0.
      destruct (run_meta_effect _ _ _ _ Hgm Hrun) as (Hc & Hr & Ht & _).
      repeat split.
      * intros [s|p'] q; simpl; [auto|]. rewrite Hc0. discriminate.
      * rewrite Hc0. discriminate.
      * unfold call_futureSource in *. simpl. rewrite Hc. assumption.
      * simpl. apply Ht.
    + destruct (run_unit_effect _ _ _ _ _ Hgm Hgu Hrun)
        as (Hr & Hcc & Hi & Hf & _ & _ & Hh & Heff).
      assert (Hcells : forall id cl, cells st !! id = Some cl -> closed cl = true ->
                cells st1 !! id = Some cl /\ tries id (trace st1) = tries id (trace st)).
      { intros id cl Hcl Hclosed.
        assert (Hne : id <> future).
        { intros ->.
          pose proof (unit_not_closed _ _ _ _ _ Hwf Hg Hgu Hcl). congruence. }
        destruct og as [g'|].
        - destruct Heff as (Hc & _ & _ & _ & _ & Ht). rewrite Hc, Ht.
          split; [exact Hcl|].
          destruct (Nat.eqb_spec future id); [congruence | lia].
        - destruct Heff as (Htr & _ & _ & Hlk & _).
          rewrite Htr, Hlk by exact Hne. auto. }
      repeat split.
      * intros [s|p'] q; simpl; [auto|]. rewrite Hcc, Hi, Hf. auto.
      * intros _. simpl. exact Hh.
      * unfold call_futureSource in *. simpl.
        destruct (cells st !! id) as [cl'|] eqn:Hcl'; [|discriminate].
        destruct (closed cl') eqn:Hcc'; [|discriminate].
        destruct (Hcells id cl' Hcl' Hcc') as [-> _]. rewrite Hcc'. assumption.
      * simpl. unfold call_futureSource in H.
        destruct (cells st !! id) as [cl'|] eqn:Hcl'; [|discriminate].
        destruct (closed cl') eqn:Hcc'; [|discriminate].
        exact (proj2 (Hcells id cl' Hcl' Hcc')).
Qed.

Lemma step_c_monotone a st st' :
  wf st -> step a st = Some st' -> c st = true -> c st' = true.
Proof.
  intros Hwf H Hc.
  destruct (step_stable a st st' Hwf H) as (Hs & _ & _).
  specialize (Hs (deduceFromPath_root "") (importroot st, futerr st)).
  simpl in Hs. rewrite Hc in Hs. specialize (Hs eq_refl).
  destruct (c st'); [reflexivity | discriminate].
Qed.

Lemma exec_stable acts : forall st st',
  wf st -> exec acts st = Some st' ->
  (forall f p, call_futureString f st = Some p -> call_futureString f st' = Some p) /\
  (c st = true -> http_gets (trace st') = http_gets (trace st)) /\
  (forall id p, call_futureSource id st = Some p ->
     call_futureSource id st' = Some p /\ tries id (trace st') = tries id (trace st)).
Proof.
  induction acts as [|a acts IH]; intros st st' Hwf H; simpl in H.
  - injection H as <-. repeat split; auto.
  - destruct (step a st) as [st1|] eqn:Hs; [|discriminate].
    pose proof (wf_step _ _ _ Hwf Hs) as Hwf1.
    destruct (step_stable _ _ _ Hwf Hs) as (S1 & S2 & S3).
    destruct (IH _ _ Hwf1 H) as (T1 & T2 & T3).
    repeat split.
    + intros f p Hp. apply T1, S1, Hp.
    + intros Hc.
      assert (Hc1 : c st1 = true) by exact (step_c_monotone _ _ _ Hwf Hs Hc).
      rewrite (T2 Hc1), (S2 Hc). reflexivity.
    + destruct (S3 id p H0) as [Hq Ht]. destruct (T3 id p Hq) as [Hq' _].
      exact Hq'.
    + destruct (S3 id p H0) as [Hq Ht]. destruct (T3 id p Hq) as [_ Ht'].
      congruence.
Qed.

(** C9: a future that has resolved returns the same pair to every later
    call, whatever runs in between; the unit behind a source future calls
    [try] at most once, and not at all once the future has resolved; once the
    root future has resolved, nothing is fetched any more.  Calling a future
    is a function of the state: it starts nothing. *)
Theorem futures_memoized (sm : SourceMgr) (path : string) (w : World)
  (acts acts' : list action) (st st' : state) :
  exec acts (initial w (deduceFromPath sm path).1) = Some st ->
  exec acts' st = Some st' ->
  (forall f p, call_futureString f st = Some p -> call_futureString f st' = Some p) /\
  (forall p, call_futureString (deduceFromPath_root path) st = Some p ->
     http_gets (trace st') = http_gets (trace st)) /\
  (forall id p, call_futureSource id st = Some p ->
     call_futureSource id st' = Some p /\ tries id (trace st') = tries id (trace st)) /\
  (forall id, tries id (trace st') <= 1).
Proof.
  intros H H'.
  assert (Hwf0 : wf (initial w (deduceFromPath sm path).1)).
  { apply wf_initial.
    destruct (deduceFromPath_spawned sm path) as [->| ->]; eauto. }
  pose proof (wf_exec _ _ _ Hwf0 H) as Hwf.
  pose proof (wf_exec _ _ _ Hwf H') as Hwf'.
  destruct (exec_stable _ _ _ Hwf H') as (S1 & S2 & S3).
  repeat split.
  - exact S1.
  - intros p Hp. apply S2. simpl in Hp.
    destruct (c st); [reflexivity | discriminate].
  - destruct (S3 id p H0) as [Hq _]. exact Hq.
  - destruct (S3 id p H0) as [_ Ht]. exact Ht.
  - intros id. pose proof (wf_once _ Hwf' id). lia.
Qed.

End Memoization.

Section OfflineMemoization.

Import Offline OfflineRun.

Lemma futures_memoized_witness :
  exec first_calls (initial tt (deduceFromPath sm path).1) = Some resolved
  /\ exec later_calls resolved = Some later
  /\ call_futureString (deduceFromPath_root path) resolved
     = Some ("", Some (ErrUnableToDeduce path))
  /\ call_futureSource 0 resolved = Some (None, None)
  /\ ((forall f p, call_futureString f resolved = Some p ->
                   call_futureString f later = Some p) /\
      (forall p, call_futureString (deduceFromPath_root path) resolved = Some p ->
         http_gets (trace later) = http_gets (trace resolved)) /\
      (forall id p, call_futureSource id resolved = Some p ->
         call_futureSource id later = Some p /\
         tries id (trace later) = tries id (trace resolved)) /\
      (forall id, tries id (trace later) <= 1)).
Proof.
  assert (H1 : exec first_calls (initial tt (deduceFromPath sm path).1) = Some resolved)
    by (reflexivity).
  assert (H2 : exec later_calls resolved = Some later)
    by (reflexivity).
  split; [exact H1|]. split; [exact H2|].
  split; [reflexivity|]. split; [reflexivity|].
  exact (futures_memoized sm path tt first_calls later_calls resolved later H1 H2).
Defined.

End OfflineMemoization.

(** ** The source future of the vanity stage *)

Section Chained.

Context `{E : External}.

Lemma err_free_step a st st' :
  only_chained a -> err_free st -> step a st = Some st' -> err_free st'.
Proof.
  intros Ha [Hcells Hrun] H.
  destruct a as [f cachedir an | n].
  - destruct f as [mb | p]; [destruct Ha|].
    injection H as <-. split; simpl.
    + apply Forall_app; split; [exact Hcells|]. repeat constructor.
    + apply Forall_app; split; [exact Hrun|]. repeat constructor.
  - simpl in H.
    destruct (running st !! n) as [g|] eqn:Hg; [|discriminate].
    destruct (run_goroutine g st) as [[st1 og]|] eqn:Hr; [|discriminate].
    pose proof (proj1 (Forall_lookup _ _) Hrun n g Hg) as Hgk.
    assert (Hclose : forall future src',
              Forall (fun cl => err cl = None) (cells (close_chained future src' st))).
    { intros future src'. unfold close_chained. simpl.
      apply Forall_alter; [exact Hcells|].
      intros cl _ Hcl. exact Hcl. }
    destruct (goroutine_cases g) as [Hgm | (future & Hgm & Hgu)].
    + destruct (run_meta_effect _ _ _ _ Hgm Hr) as (Hc & Hrr & _ & Heff).
      destruct og as [g'|]; injection H as <-; split; simpl; rewrite ?Hc, ?Hrr;
        auto using Forall_delete.
      apply Forall_insert; [exact Hrun|].
      destruct Heff as (Hgm' & _). destruct g'; try discriminate; exact I.
    + destruct g as [p | p | p rc | f0 mb cd an | f0 s e | f0 cd an | f0 s];
        try discriminate Hgm; try destruct Hgk; simpl in Hr.
      * destruct (run_chained_effect _ _ _ _ _ _ Hr) as (_ & Heff).
        destruct og as [g'|]; injection H as <-; split; simpl.
        -- destruct Heff as (_ & -> & _). exact Hcells.
        -- destruct Heff as (_ & _ & (src1 & ->) & (m & w1 & ->)). simpl.
           apply Forall_insert; [exact Hrun | exact I].
        -- destruct Heff as (src' & ->). apply Hclose.
        -- destruct Heff as (src' & ->). simpl. apply Forall_delete, Hrun.
      * injection Hr as <- <-. injection H as <-. split; simpl.
        -- apply Hclose.
        -- apply Forall_delete, Hrun.
Qed.

Lemma err_free_exec acts : forall st st',
  Forall only_chained acts -> err_free st -> exec acts st = Some st' -> err_free st'.
Proof.
  induction acts as [|a acts IH]; intros st st' Ha Hst H; simpl in H.
  - injection H as <-. exact Hst.
  - destruct (step a st) as [st1|] eqn:Hs; [|discriminate].
    apply Forall_cons in Ha as [Ha Hacts].
    apply (IH st1 st' Hacts); [|exact H].
    exact (err_free_step a st st1 Ha Hst Hs).
Qed.

(** X17: On every path through the vanity stage, a source future made by its
    factory returns a nil error: the error of the root future, and that of
    [try], stay in the variable the goroutine has declared for itself. *)
Lemma chained_future_returns_nil_error (w : World) (path : string)
  (acts : list action) (st : state) :
  Forall only_chained acts ->
  exec acts (initial w [GoMetadata path]) = Some st ->
  forall id p, call_futureSource id st = Some p -> p.2 = None.
Proof.
  intros Ha H id p Hp.
  assert (Hinit : err_free (initial w [GoMetadata path])).
  { split; simpl; repeat constructor. }
  destruct (err_free_exec _ _ _ Ha Hinit H) as [Hcells _].
  unfold call_futureSource in Hp.
  destruct (cells st !! id) as [cl|] eqn:Hcl; [|discriminate].
  destruct (closed cl); [|discriminate].
  injection Hp as <-. simpl.
  exact (proj1 (Forall_lookup _ _) Hcells _ _ Hcl).
Qed.

End Chained.

Section OfflineChained.

Import Offline.

(** C2, on the code: the metadata fetch for [example.org/pkg] fails, the root
    future returns its error, and the source future made by the factory
    returns no error at all.  (Nothing is fetched or tried on its behalf:
    that part holds.) *)
Theorem vanity_source_future_loses_root_error :
  deduceFromPath (E := Offline.offline) {| rootxt := registry |} "example.org/pkg"
  = ([GoMetadata "example.org/pkg"],
     Ok (deduceFromPath_root "example.org/pkg", deduceFromPath_src "example.org/pkg",
         Some (ErrNoVcsExtensionHints "example.org/pkg")))
  /\ exists st : state (E := Offline.offline),
       exec [Schedule 0; Schedule 0; Schedule 0;
             Invoke (deduceFromPath_src "example.org/pkg") "cache" tt; Schedule 0]
         (initial tt [GoMetadata "example.org/pkg"]) = Some st
       /\ call_futureString (deduceFromPath_root "example.org/pkg") st
          = Some ("", Some (ErrUnableToDeduce "example.org/pkg"))
       /\ call_futureSource 0 st = Some (None, None)
       /\ trace st = [EvHttpGet "https://example.org/pkg?go-get=1";
                      EvHttpGet "http://example.org/pkg?go-get=1"].
Proof.
  split; [reflexivity|].
  let r := eval vm_compute in
             (exec [Schedule 0; Schedule 0; Schedule 0;
                    Invoke (deduceFromPath_src "example.org/pkg") "cache" tt; Schedule 0]
                (initial tt [GoMetadata "example.org/pkg"])) in
  match r with
  | Some ?st => exists st
  end.
  split; [reflexivity|].
  repeat split; reflexivity.
Qed.

End OfflineChained.

(** * Further properties *)

(** ** validateVCSScheme *)

(** X2: Every scheme that is valid for hg is valid for git, and [https] and
    [http] are valid for each of the four kinds. *)
Theorem valid_for_hg_git scheme :
  (valid_for scheme "hg" = true -> valid_for scheme "git" = true) /\
  (forall typ, In typ known_kinds ->
     valid_for "https" typ = true /\ valid_for "http" typ = true).
Proof.
  split.
  - unfold valid_for. simpl.
    destruct (String.eqb scheme "https"); [reflexivity|].
    destruct (String.eqb scheme "ssh"); [reflexivity|].
    destruct (String.eqb scheme "http"); [|discriminate].
    intros _. simpl. destruct (String.eqb scheme "git"); reflexivity.
  - intros typ [<-|[<-|[<-|[<-|[]]]]]; split; reflexivity.
Qed.

Lemma valid_for_hg_git_witness :
  valid_for "ssh" "hg" = true /\ valid_for "ssh" "git" = true.
Proof.
  split; [reflexivity|].
  exact (proj1 (valid_for_hg_git "ssh") eq_refl).
Defined.

(** ** The loop that fills the candidates *)

Lemma assign_app {A} (pre post : list A) (x y : A) :
  assign (pre ++ x :: post) (length pre) y = Ok ((pre ++ [y]) ++ post).
Proof.
  unfold assign.
  destruct (decide (length pre < length (pre ++ x :: post))) as [_|Hn];
    [|rewrite length_app in Hn; simpl in Hn; lia].
  rewrite insert_app_r_alt by lia. rewrite Nat.sub_diag. simpl.
  rewrite <- app_assoc. reflexivity.
Qed.

Lemma assign_end {A} (pre : list A) (y : A) :
  assign pre (length pre) y = Panic (PanicIndexOutOfRange (length pre) (length pre)).
Proof.
  unfold assign. destruct (decide (length pre < length pre)) as [Hn|_]; [lia|].
  reflexivity.
Qed.

Lemma range_schemes_cons {A} (body : nat -> string -> A -> result A) k scheme rest acc :
  range_schemes body k (scheme :: rest) acc
  = Go.bind (body k scheme acc) (fun acc' => range_schemes body (S k) rest acc').
Proof. reflexivity. Qed.

Lemma range_assign_ok (mk : option URL -> maybeSource) (u : URL) (schemes : list string) :
  forall (pre post : list maybeSource),
    length schemes <= length post ->
    range_schemes (fun k scheme mb => assign mb k (mk (Some (with_Scheme u scheme))))
      (length pre) schemes (pre ++ post)
    = Ok (pre ++ per_scheme mk u schemes ++ drop (length schemes) post).
Proof.
  induction schemes as [|scheme rest IH]; intros pre post Hlen.
  - simpl. rewrite drop_0. reflexivity.
  - destruct post as [|x post]; [simpl in Hlen; lia|].
    rewrite range_schemes_cons, assign_app. unfold Go.bind.
    replace (S (length pre)) with (length (pre ++ [mk (Some (with_Scheme u scheme))]))
      by (rewrite length_app; simpl; lia).
    rewrite IH by (simpl in Hlen; lia).
    unfold per_scheme. simpl. rewrite <- app_assoc. reflexivity.
Qed.

Lemma range_assign_panic (mk : option URL -> maybeSource) (u : URL) (schemes : list string) :
  forall (pre post : list maybeSource),
    length post < length schemes ->
    range_schemes (fun k scheme mb => assign mb k (mk (Some (with_Scheme u scheme))))
      (length pre) schemes (pre ++ post)
    = Panic (PanicIndexOutOfRange (length pre + length post) (length pre + length post)).
Proof.
  induction schemes as [|scheme rest IH]; intros pre post Hlen.
  - simpl in Hlen; lia.
  - destruct post as [|x post].
    + rewrite app_nil_r, range_schemes_cons, assign_end. simpl.
      rewrite Nat.add_0_r. reflexivity.
    + rewrite range_schemes_cons, assign_app. unfold Go.bind.
      replace (S (length pre)) with (length (pre ++ [mk (Some (with_Scheme u scheme))]))
        by (rewrite length_app; simpl; lia).
      rewrite IH by (simpl in Hlen; lia).
      rewrite length_app. simpl. f_equal. f_equal; lia.
Qed.

(** X3: The loop [mb := make(maybeSources, n); for k, scheme := range schemes
    { mb[k] = ... }] of the matchers: when the slice has room for every
    scheme it ends with one candidate per scheme, in the order of the list
    (and nil in the places left over); when the list is longer than the slice
    it panics at the first index past the slice. *)
Theorem fill_schemes_make (mk : option URL -> maybeSource) (u : URL)
  (schemes : list string) (n : nat) :
  fill_schemes mk u schemes (make_maybeSources n)
  = if decide (length schemes <= n)
    then Ok (per_scheme mk u schemes ++ replicate (n - length schemes) nilSource)
    else Panic (PanicIndexOutOfRange n n).
Proof.
  unfold fill_schemes, make_maybeSources.
  destruct (decide (length schemes <= n)) as [Hle|Hgt].
  - pose proof (range_assign_ok mk u schemes [] (replicate n nilSource)) as H.
    cbn [length app] in H. rewrite H by (rewrite length_replicate; exact Hle).
    rewrite drop_replicate. reflexivity.
  - pose proof (range_assign_panic mk u schemes [] (replicate n nilSource)) as H.
    cbn [length app] in H. rewrite H by (rewrite length_replicate; lia).
    rewrite length_replicate. reflexivity.
Qed.

(** ** The matchers of one host and one kind *)

Lemma fill_schemes_exact mk u schemes :
  fill_schemes mk u schemes (make_maybeSources (length schemes))
  = Ok (per_scheme mk u schemes).
Proof.
  unfold fill_schemes, make_maybeSources.
  pose proof (range_assign_ok mk u schemes [] (replicate (length schemes) nilSource)) as H.
  cbn [length app] in H. rewrite H by (rewrite length_replicate; lia).
  rewrite drop_replicate, Nat.sub_diag. simpl. rewrite app_nil_r. reflexivity.
Qed.

(** What [deduceSource] of a matcher of one host and one kind does on a path
    its pattern accepts. *)
Lemma simple_deduceSource_matched re host typ what mk schemes path u v repo :
  FindStringSubmatch re path = Some v ->
  v !! 2 = Some repo ->
  In typ known_kinds ->
  simple_deduceSource re host typ what mk schemes path u
  = if String.eqb (Scheme u) ""
    then Ok (sourceFutureFactory (maybeSources (per_scheme mk (with_Path u repo) schemes)))
    else if valid_for (Scheme u) typ
         then Ok (sourceFutureFactory (mk (Some (with_Path u repo))))
         else Err (ErrInvalidScheme (Scheme u) what).
Proof.
  intros H Hv Htyp. unfold simple_deduceSource. rewrite H.
  unfold index. rewrite Hv.
  change (mbind ?f (Ok repo)) with (f repo). cbv beta zeta.
  change (Scheme (with_Path u repo)) with (Scheme u).
  destruct (String.eqb (Scheme u) ""); cbv [negb].
  - rewrite fill_schemes_exact. reflexivity.
  - rewrite (validateVCSScheme_valid_for _ _ Htyp).
    change (mbind ?f (Ok ?y)) with (f y). cbv beta.
    destruct (valid_for (Scheme u) typ); reflexivity.
Qed.

Lemma FindStringSubmatch_index re path v n :
  FindStringSubmatch re path = Some v -> n <= NumSubexp re ->
  exists x, v !! n = Some x.
Proof.
  intros H Hn. apply FindStringSubmatch_lookup in H as (c & _ & Hv).
  eexists. apply Hv. exact Hn.
Qed.

(** X4: The GitHub, Launchpad, Jazz and Apache matchers on a path their pattern
    accepts: with an explicit scheme, [deduceSource] succeeds exactly when the
    scheme is one of the kind's, with the single candidate on the given URL;
    without one it offers one candidate per scheme of the kind, in order, and
    every scheme it offers is one it would accept. *)
Theorem hosted_deduceSource_spec :
  hosted_spec github ghRegex "git" maybeGitSource
  /\ hosted_spec launchpad lpRegex "bzr" maybeBzrSource
  /\ hosted_spec jazz jazzRegex "git" maybeGitSource
  /\ hosted_spec apache apacheRegex "git" maybeGitSource.
Proof.
  repeat split; intros path u v H.
  all: match type of H with
       | FindStringSubmatch ?re _ = _ =>
           destruct (FindStringSubmatch_index re path v 2 H) as (repo & Hv);
           [vm_compute; lia|]
       end.
  all: exists repo; split; [exact Hv|].
  all: simpl deduceSource; unfold github, launchpad, jazz, apache; simpl;
       erewrite simple_deduceSource_matched by (eauto; simpl; auto).
  all: unfold hosted_outcome;
       destruct (String.eqb_spec (Scheme u) "") as [Hs|Hs].
  all: try (split; [reflexivity | repeat constructor]).
  all: destruct (valid_for (Scheme u) _); reflexivity.
Qed.

Lemma hosted_deduceSource_spec_witness :
  FindStringSubmatch ghRegex "github.com/user/repo/pkg"
  = Some ["github.com/user/repo/pkg"; "github.com/user/repo"; "user/repo"; "/pkg"]
  /\ deduceSource github "github.com/user/repo/pkg"
       (with_Scheme (bare "github.com/user/repo/pkg") "svn")
     = Err (ErrInvalidScheme "svn" "a git repository")
  /\ exists repo,
       ["github.com/user/repo/pkg"; "github.com/user/repo"; "user/repo"; "/pkg"] !! 2
       = Some repo /\
       deduceSource github "github.com/user/repo/pkg" (bare "github.com/user/repo/pkg")
       = hosted_outcome "git" ("a " ++ "git" ++ " repository") maybeGitSource
           (schemes_of "git") (bare "github.com/user/repo/pkg") repo /\
       Forall (fun scheme => valid_for scheme "git" = true) (schemes_of "git").
Proof.
  split; [vm_compute; reflexivity|]. split; [vm_compute; reflexivity|].
  apply (proj1 hosted_deduceSource_spec "github.com/user/repo/pkg"
           (bare "github.com/user/repo/pkg")).
  vm_compute; reflexivity.
Defined.

(** X5: The Launchpad-git matcher builds git candidates but ranges over the
    schemes of bzr: with an explicit scheme it accepts the schemes of git,
    without one it offers [https], [bzr+ssh], [bzr] and [http], of which the
    two in the middle are schemes it refuses when they are given. *)
Theorem launchpadGit_deduceSource_spec path u v :
  FindStringSubmatch glpRegex path = Some v ->
  exists repo,
    v !! 2 = Some repo /\
    deduceSource launchpadGit path u
    = hosted_outcome "git" "a git repository" maybeGitSource bzrSchemes u repo /\
    List.filter (fun scheme => negb (valid_for scheme "git")) bzrSchemes = ["bzr+ssh"; "bzr"] /\
    (forall scheme, In scheme ["bzr+ssh"; "bzr"] ->
       deduceSource launchpadGit path (with_Scheme u scheme)
       = Err (ErrInvalidScheme scheme "a git repository")).
Proof.
  intros H.
  destruct (FindStringSubmatch_index glpRegex path v 2 H) as (repo & Hv);
    [vm_compute; lia|].
  exists repo; split; [exact Hv|].
  assert (Hd : forall u', deduceSource launchpadGit path u'
               = hosted_outcome "git" "a git repository" maybeGitSource bzrSchemes u' repo).
  { intros u'. simpl deduceSource. unfold launchpadGit. simpl.
    erewrite simple_deduceSource_matched by (eauto; simpl; auto). reflexivity. }
  split; [apply Hd|]. split; [reflexivity|].
  intros scheme [<-|[<-|[]]]; rewrite Hd; reflexivity.
Qed.

Lemma launchpadGit_deduceSource_spec_witness :
  FindStringSubmatch glpRegex "git.launchpad.net/proj"
  = Some ["git.launchpad.net/proj"; "git.launchpad.net/proj"; "proj"; ""]
  /\ exists repo,
       ["git.launchpad.net/proj"; "git.launchpad.net/proj"; "proj"; ""] !! 2 = Some repo /\
       deduceSource launchpadGit "git.launchpad.net/proj" (bare "git.launchpad.net/proj")
       = hosted_outcome "git" "a git repository" maybeGitSource bzrSchemes
           (bare "git.launchpad.net/proj") repo /\
       List.filter (fun scheme => negb (valid_for scheme "git")) bzrSchemes
       = ["bzr+ssh"; "bzr"] /\
       (forall scheme, In scheme ["bzr+ssh"; "bzr"] ->
          deduceSource launchpadGit "git.launchpad.net/proj"
            (with_Scheme (bare "git.launchpad.net/proj") scheme)
          = Err (ErrInvalidScheme scheme "a git repository")).
Proof.
  split; [vm_compute; reflexivity|].
  apply (launchpadGit_deduceSource_spec "git.launchpad.net/proj"
           (bare "git.launchpad.net/proj")).
  vm_compute; reflexivity.
Defined.

(** ** Bitbucket with a hint and an explicit scheme *)

(** X6: With an explicit scheme, a git hint settles the kind on git even when
    there is an hg hint too: the scheme has to be one of git's and the single
    candidate is a git one.  With an hg hint alone the scheme has to be one of
    hg's and the single candidate is an hg one. *)
Theorem bitbucket_deduceSource_hinted path u v :
  FindStringSubmatch bbRegex path = Some v ->
  Scheme u <> "" ->
  exists bitname,
    v !! 2 = Some bitname /\
    let u' := with_Path u bitname in
    (bitbucket_hint "git" u' = true ->
       deduceSource bitbucket path u
       = single_candidate "git" maybeGitSource u'
           (ErrInvalidScheme (Scheme u) "a git repository")) /\
    (bitbucket_hint "git" u' = false -> bitbucket_hint "hg" u' = true ->
       deduceSource bitbucket path u
       = single_candidate "hg" maybeHgSource u'
           (ErrInvalidScheme (Scheme u) "an hg repository")).
Proof.
  intros H Hs.
  destruct (list_of_length_4 v (FindStringSubmatch_length _ _ _ H))
    as (a0 & a1 & bitname & a3 & ->).
  exists bitname; split; [reflexivity|].
  cbv zeta. unfold bitbucket_hint, single_candidate.
  change ("." ++ "hg")%string with ".hg". change ("." ++ "git")%string with ".git".
  assert (Hd : forall isgit ishg,
            strings.HasSuffix (Path (with_Path u bitname)) ".git"
            || (Username (User (with_Path u bitname)) =? "git")%string = isgit ->
            strings.HasSuffix (Path (with_Path u bitname)) ".hg"
            || (Username (User (with_Path u bitname)) =? "hg")%string = ishg ->
            deduceSource bitbucket path u
            = if isgit then
                if valid_for (Scheme u) "git"
                then Ok (sourceFutureFactory (maybeGitSource (Some (with_Path u bitname))))
                else Err (ErrInvalidScheme (Scheme u) "a git repository")
              else if ishg then
                if valid_for (Scheme u) "hg"
                then Ok (sourceFutureFactory (maybeHgSource (Some (with_Path u bitname))))
                else Err (ErrInvalidScheme (Scheme u) "an hg repository")
              else if negb (valid_for (Scheme u) "git") && negb (valid_for (Scheme u) "hg")
              then Err (ErrInvalidScheme (Scheme u) "either a git or hg repository")
              else Ok (sourceFutureFactory
                         (maybeSources [maybeGitSource (Some (with_Path u bitname));
                                        maybeHgSource (Some (with_Path u bitname))]))).
  { intros isgit ishg Hgit Hhg.
    simpl deduceSource. unfold bitbucketMatcher_deduceSource.
    change (bitbucket_regexp bitbucket) with bbRegex. rewrite H.
    change (index [a0; a1; bitname; a3] 2) with (Ok (A := string) bitname).
    change (mbind ?f (Ok bitname)) with (f bitname). cbv beta zeta.
    rewrite Hgit, Hhg.
    change (Scheme (with_Path u bitname)) with (Scheme u).
    apply String.eqb_neq in Hs. rewrite Hs. cbv [negb].
    rewrite !validateVCSScheme_valid_for by (simpl; auto).
    change (mbind ?f (Ok ?x)) with (f x). cbv beta.
    change (mbind ?f (Ok ?x)) with (f x). cbv beta.
    destruct isgit, ishg, (valid_for (Scheme u) "git"), (valid_for (Scheme u) "hg");
      reflexivity. }
  split.
  - intros Hgit. rewrite (Hd true _ Hgit eq_refl).
    change (Scheme (with_Path u bitname)) with (Scheme u). reflexivity.
  - intros Hgit Hhg. rewrite (Hd false true Hgit Hhg).
    change (Scheme (with_Path u bitname)) with (Scheme u). reflexivity.
Qed.

Lemma bitbucket_deduceSource_hinted_witness :
  FindStringSubmatch bbRegex "bitbucket.org/user/repo.hg"
  = Some ["bitbucket.org/user/repo.hg"; "bitbucket.org/user/repo.hg"; "user/repo.hg"; ""]
  /\ Scheme (with_Scheme (bare "bitbucket.org/user/repo.hg") "git") <> ""
  /\ deduceSource bitbucket "bitbucket.org/user/repo.hg"
       (with_Scheme (bare "bitbucket.org/user/repo.hg") "git")
     = Err (ErrInvalidScheme "git" "an hg repository")
  /\ exists bitname,
       ["bitbucket.org/user/repo.hg"; "bitbucket.org/user/repo.hg"; "user/repo.hg"; ""] !! 2
       = Some bitname /\
       let u := with_Scheme (bare "bitbucket.org/user/repo.hg") "git" in
       let u' := with_Path u bitname in
       (bitbucket_hint "git" u' = true ->
          deduceSource bitbucket "bitbucket.org/user/repo.hg" u
          = single_candidate "git" maybeGitSource u'
              (ErrInvalidScheme (Scheme u) "a git repository")) /\
       (bitbucket_hint "git" u' = false -> bitbucket_hint "hg" u' = true ->
          deduceSource bitbucket "bitbucket.org/user/repo.hg" u
          = single_candidate "hg" maybeHgSource u'
              (ErrInvalidScheme (Scheme u) "an hg repository")).
Proof.
  split; [vm_compute; reflexivity|]. split; [discriminate|].
  split; [vm_compute; reflexivity|].
  apply (bitbucket_deduceSource_hinted "bitbucket.org/user/repo.hg"
           (with_Scheme (bare "bitbucket.org/user/repo.hg") "git")).
  - vm_compute; reflexivity.
  - discriminate.
Defined.

(** ** The generic matcher with an explicit scheme *)

(** X7: With an explicit scheme and one of the extensions git, hg and bzr, the
    generic matcher checks the scheme against the scheme set of that very
    kind and offers the single candidate of that kind, on the host and path
    the root splits into at its first slash; it does not panic. *)
Theorem vcsExtension_deduceSource_explicit_scheme path u v :
  FindStringSubmatch vcsExtensionRegex path = Some v ->
  Scheme u <> "" ->
  exists root vcs host rest,
    v !! 1 = Some root /\ v !! 5 = Some vcs /\
    strings.SplitN2 root "/" = [host; rest] /\
    (vcs <> "svn" ->
       deduceSource exm path u
       = single_candidate vcs (maybe_of_kind vcs) (with_Path (with_Host u host) rest)
           (ErrInvalidSchemeExt (Scheme u) vcs path)).
Proof.
  intros H Hs.
  destruct (vcsExtensionRegex_submatch path v H)
    as (root & vcs & Hroot & Hvcs & Hin & (a & b & Hab)).
  destruct (SplitN2_slash a b) as (host & rest & Hsplit). rewrite <- Hab in Hsplit.
  exists root, vcs, host, rest.
  split; [exact Hroot|]. split; [exact Hvcs|]. split; [exact Hsplit|].
  destruct (list_of_length_7 v (FindStringSubmatch_length _ _ _ H))
    as (a0 & a1 & a2 & a3 & a4 & a5 & a6 & ->).
  simpl in Hroot, Hvcs. apply (inj Some) in Hroot, Hvcs; subst a1 a5.
  intros Hsvn.
  simpl deduceSource. unfold vcsExtensionMatcher_deduceSource.
  change (vcsExtension_regexp exm) with vcsExtensionRegex. rewrite H.
  change (index [a0; root; a2; a3; a4; vcs; a6] 5) with (Ok (A := string) vcs).
  change (index [a0; root; a2; a3; a4; vcs; a6] 1) with (Ok (A := string) root).
  change (mbind ?f (Ok vcs)) with (f vcs). cbv beta zeta.
  apply String.eqb_neq in Hs.
  unfold single_candidate.
  change (Scheme (with_Path (with_Host u host) rest)) with (Scheme u).
  destruct Hin as [<-|[<-|[<-|[<-|[]]]]]; [| | |congruence].
  all: match goal with
       | |- (if ?b then _ else _) = _ => change b with true; cbv iota
       end.
  all: change (mbind ?f (Ok root)) with (f root); cbv beta.
  all: rewrite Hsplit.
  all: change (index [host; rest] 0) with (Ok (A := string) host).
  all: change (index [host; rest] 1) with (Ok (A := string) rest).
  all: change (mbind ?f (Ok host)) with (f host); cbv beta.
  all: change (mbind ?f (Ok rest)) with (f rest); cbv beta.
  all: change (Scheme (with_Path (with_Host u host) rest)) with (Scheme u).
  all: rewrite Hs; cbv [negb].
  all: rewrite validateVCSScheme_valid_for by (simpl; auto).
  all: change (mbind ?f (Ok ?x)) with (f x); cbv beta.
  all: destruct (valid_for (Scheme u) _); reflexivity.
Qed.

Lemma vcsExtension_deduceSource_explicit_scheme_witness :
  FindStringSubmatch vcsExtensionRegex "example.com/foo/bar.hg"
  = Some ["example.com/foo/bar.hg"; "example.com/foo/bar.hg"; "example.com/foo/bar";
          "example."; ""; "hg"; ""]
  /\ Scheme (with_Scheme (bare "example.com/foo/bar.hg") "ssh") <> ""
  /\ deduceSource exm "example.com/foo/bar.hg"
       (with_Scheme (bare "example.com/foo/bar.hg") "ssh")
     = Ok (sourceFutureFactory (maybeHgSource (Some
             (with_Path (with_Host (with_Scheme (bare "example.com/foo/bar.hg") "ssh")
                           "example.com") "foo/bar.hg"))))
  /\ exists root vcs host rest,
       ["example.com/foo/bar.hg"; "example.com/foo/bar.hg"; "example.com/foo/bar";
        "example."; ""; "hg"; ""] !! 1 = Some root /\
       ["example.com/foo/bar.hg"; "example.com/foo/bar.hg"; "example.com/foo/bar";
        "example."; ""; "hg"; ""] !! 5 = Some vcs /\
       strings.SplitN2 root "/" = [host; rest] /\
       (vcs <> "svn" ->
          deduceSource exm "example.com/foo/bar.hg"
            (with_Scheme (bare "example.com/foo/bar.hg") "ssh")
          = single_candidate vcs (maybe_of_kind vcs)
              (with_Path (with_Host (with_Scheme (bare "example.com/foo/bar.hg") "ssh") host) rest)
              (ErrInvalidSchemeExt
                 (Scheme (with_Scheme (bare "example.com/foo/bar.hg") "ssh")) vcs
                 "example.com/foo/bar.hg")).
Proof.
  split; [vm_compute; reflexivity|]. split; [discriminate|].
  split; [vm_compute; reflexivity|].
  apply (vcsExtension_deduceSource_explicit_scheme "example.com/foo/bar.hg"
           (with_Scheme (bare "example.com/foo/bar.hg") "ssh")).
  - vm_compute; reflexivity.
  - discriminate.
Defined.

(** ** The root is a prefix of the path *)

Lemma consumes_any r : consumes r (fun _ => True).
Proof.
  intros k s i c res H.
  apply run_frame in H as (s' & i' & c' & H & (w & -> & ->) & F).
  exists s', (i + String.length w), c', w. auto.
Qed.

(** A repetition of a pattern that begins with a slash consumes nothing or a
    text that begins with a slash. *)
Lemma consumes_subpath greedy r : consumes (Star greedy (Concat (Literal "/") r)) slash_led.
Proof.
  intros k s i c res H.
  change (run (Star greedy (Concat (Literal "/") r)) k s i c)
    with (star_loop greedy (run (Concat (Literal "/") r)) k (S (String.length s)) s i c) in H.
  assert (Hstop : k s i c = Some res ->
            exists s' i' c' w,
              k s' i' c' = Some res /\ s = (w ++ s')%string /\
              i' = i + String.length w /\ slash_led w /\
              frame (Star greedy (Concat (Literal "/") r)) c c').
  { intros Hk. exists s, i, c, "".
    split; [exact Hk|]. split; [reflexivity|]. split; [simpl; lia|].
    split; [left; reflexivity|]. intros n _. reflexivity. }
  assert (Hagain :
            run (Concat (Literal "/") r)
              (fun s' i' c' =>
                 if (i' =? i)%nat then None
                 else star_loop greedy (run (Concat (Literal "/") r)) k
                        (String.length s) s' i' c') s i c = Some res ->
            exists s' i' c' w,
              k s' i' c' = Some res /\ s = (w ++ s')%string /\
              i' = i + String.length w /\ slash_led w /\
              frame (Star greedy (Concat (Literal "/") r)) c c').
  { intros Hr. rewrite run_Concat_eq in Hr.
    apply run_Literal_inv in Hr as (s1 & -> & Hr). cbv beta in Hr.
    apply run_frame in Hr as (s2 & i2 & c2 & Hr & (w1 & -> & ->) & F1).
    cbv beta in Hr.
    destruct (S i + String.length w1 =? i)%nat; [discriminate|].
    apply (star_loop_frame greedy (Concat (Literal "/") r)
             (run (Concat (Literal "/") r)) k (run_frame _)) in Hr
      as (s3 & i3 & c3 & Hr & (w2 & -> & ->) & F2).
    exists s3, (S i + String.length w1 + String.length w2), c3,
           (String "/" (w1 ++ w2)).
    split; [exact Hr|].
    split; [rewrite append_cons, append_assoc; reflexivity|].
    split; [string_len|]. split; [right; eauto|].
    intros n Hn. rewrite F2 by exact Hn. apply F1.
    intros Hin; apply Hn. simpl. exact Hin. }
  simpl star_loop in H. unfold orelse in H.
  destruct greedy.
  - match type of H with
    | match ?a with _ => _ end = _ => destruct a eqn:Ha
    end; [injection H as ->; auto | auto].
  - match type of H with
    | match ?a with _ => _ end = _ => destruct a eqn:Ha
    end; [injection H as ->; auto | auto].
Qed.

Lemma cap_lookup_cons n m se c :
  cap_lookup n ((m, se) :: c) = if (n =? m)%nat then Some se else cap_lookup n c.
Proof. reflexivity. Qed.

(** A pattern made of the start of the text, a first group, one more group
    and the end of the text: the first submatch and that of the other group
    make up the whole text. *)
Lemma rooted_regex_submatch (R S : Regexp) (n : nat) (P : string -> Prop) path v :
  n <> 0 -> n <> 1 -> ~ In 1 (groups S) ->
  consumes S P ->
  FindStringSubmatch
    (Concat BeginText (Concat (Capture 1 R) (Concat (Capture n S) EndText))) path = Some v ->
  exists root sub,
    v !! 0 = Some path /\ v !! 1 = Some root /\ v !! n = Some sub /\
    path = (root ++ sub)%string /\ P sub.
Proof.
  intros Hn0 Hn1 HS HP H.
  apply FindStringSubmatch_lookup in H as (res & H & Hv).
  rewrite (Hv 0), (Hv 1), (Hv n) by (cbn [NumSubexp]; lia). clear Hv v.
  apply search_sound in H as (s0 & i0 & A0 & H).
  rewrite run_Concat_eq, run_BeginText_eq in H.
  destruct (Nat.eqb_spec i0 0) as [->|]; [|discriminate].
  destruct A0 as (w0 & -> & Hw0).
  destruct w0; [|discriminate]. rewrite append_nil_l in *. clear Hw0.
  rewrite run_Concat_eq, run_Capture_eq in H.
  apply run_frame in H as (s1 & i1 & c1 & H & (root & -> & ->) & _).
  cbv beta in H. rewrite run_Concat_eq, run_Capture_eq in H.
  apply HP in H as (s2 & i2 & c2 & sub & H & -> & -> & Hsub & F2).
  cbv beta in H. rewrite run_EndText_eq in H. destruct s2; [|discriminate].
  apply (inj Some) in H; subst res.
  rewrite append_nil_r.
  exists root, sub.
  assert (L1 : cap_lookup 1
                 ((0, (0, 0 + String.length root + String.length sub))
                    :: (n, (0 + String.length root,
                            0 + String.length root + String.length sub)) :: c2)
               = Some (0, 0 + String.length root)).
  { rewrite !cap_lookup_cons.
    change (1 =? 0)%nat with false. cbv iota.
    destruct (Nat.eqb_spec 1 n) as [E|_]; [congruence|].
    rewrite F2 by exact HS. reflexivity. }
  assert (Ln : cap_lookup n
                 ((0, (0, 0 + String.length root + String.length sub))
                    :: (n, (0 + String.length root,
                            0 + String.length root + String.length sub)) :: c2)
               = Some (0 + String.length root,
                       0 + String.length root + String.length sub)).
  { rewrite !cap_lookup_cons.
    destruct (Nat.eqb_spec n 0) as [E|_]; [congruence|].
    rewrite Nat.eqb_refl. reflexivity. }
  repeat split; auto; f_equal.
  - eapply (submatch_text_at _ _ 0 "" _ "");
      [rewrite append_nil_l, append_nil_r; reflexivity | reflexivity
      | reflexivity | string_len].
  - eapply (submatch_text_at _ _ 1 "" root sub);
      [rewrite append_nil_l; reflexivity | exact L1 | reflexivity | lia].
  - eapply (submatch_text_at _ _ n root sub "");
      [rewrite append_nil_r; reflexivity | exact Ln | lia | lia].
Qed.

(** The same with a first group made of a literal host and a second group:
    the first submatch is the host followed by the second. *)
Lemma hosted_regex_submatch (host : string) (X S : Regexp) (P : string -> Prop) path v :
  ~ In 1 (groups S) -> ~ In 2 (groups S) ->
  consumes S P ->
  FindStringSubmatch
    (Concat BeginText
       (Concat (Capture 1 (Concat (Lit host) (Capture 2 X)))
          (Concat (Capture 3 S) EndText))) path = Some v ->
  exists repo sub,
    v !! 2 = Some repo /\ path = (host ++ repo ++ sub)%string /\ P sub.
Proof.
  intros HS1 HS2 HP H.
  apply FindStringSubmatch_lookup in H as (res & H & Hv).
  rewrite (Hv 2) by (cbn [NumSubexp]; lia). clear Hv v.
  apply search_sound in H as (s0 & i0 & A0 & H).
  rewrite run_Concat_eq, run_BeginText_eq in H.
  destruct (Nat.eqb_spec i0 0) as [->|]; [|discriminate].
  destruct A0 as (w0 & -> & Hw0).
  destruct w0; [|discriminate]. rewrite append_nil_l in *. clear Hw0.
  rewrite run_Concat_eq, run_Capture_eq, run_Concat_eq in H.
  apply run_Lit_inv in H as (s1 & -> & H). cbv beta in H.
  rewrite run_Capture_eq in H.
  apply run_frame in H as (s2 & i2 & c2 & H & (repo & -> & ->) & _).
  cbv beta in H. rewrite run_Concat_eq, run_Capture_eq in H.
  apply HP in H as (s3 & i3 & c3 & sub & H & -> & -> & Hsub & F3).
  cbv beta in H. rewrite run_EndText_eq in H. destruct s3; [|discriminate].
  apply (inj Some) in H; subst res.
  rewrite append_nil_r.
  exists repo, sub. repeat split; auto. f_equal.
  eapply (submatch_text_at _ _ 2 host repo sub); [reflexivity | | reflexivity | reflexivity].
  simpl. rewrite F3 by exact HS2. reflexivity.
Qed.

Lemma simple_deduceRoot_rooted (host : string) (X : Regexp) path :
  let re := Seq [ BeginText;
                  Capture 1 (Seq [ Lit (host ++ "/"); Capture 2 X ]);
                  subpath 3; EndText ] in
  simple_deduceRoot re host path = Err (ErrNotValidPathFor path host) \/
  exists repo sub,
    simple_deduceRoot re host path = Ok (simpleStringFuture (host ++ "/" ++ repo)) /\
    path = (host ++ "/" ++ repo ++ sub)%string /\ slash_led sub.
Proof.
  intros re. unfold simple_deduceRoot.
  destruct (FindStringSubmatch re path) as [v|] eqn:H; [right | left; reflexivity].
  destruct (hosted_regex_submatch (host ++ "/") X
              (Star true (Concat (Literal "/") (Plus true Re.word))) slash_led path v)
    as (repo & sub & Hv & Hp & Hs).
  - intros [].
  - intros [].
  - apply consumes_subpath.
  - exact H.
  - exists repo, sub. unfold index. rewrite Hv.
    rewrite append_assoc in Hp. auto.
Qed.

(** X8: [deduceRoot] of the GitHub, Bitbucket, Launchpad-git, Jazz and Apache
    matchers never panics; when it accepts a path, the root it returns is a
    prefix of the path, and what follows the root is empty or begins with a
    slash. *)
Theorem hosted_deduceRoot_prefix :
  rooted_spec github "github.com"
  /\ rooted_spec bitbucket "bitbucket.org"
  /\ rooted_spec launchpadGit "git.launchpad.net"
  /\ rooted_spec jazz "hub.jazz.net"
  /\ rooted_spec apache "git.apache.org".
Proof.
  repeat split; intros path.
  - exact (simple_deduceRoot_rooted "github.com" _ path).
  - exact (simple_deduceRoot_rooted "bitbucket.org" _ path).
  - exact (simple_deduceRoot_rooted "git.launchpad.net" _ path).
  - exact (simple_deduceRoot_rooted "hub.jazz.net" _ path).
  - exact (simple_deduceRoot_rooted "git.apache.org" _ path).
Qed.

(** X9: [deduceRoot] of the generic matcher never panics: it refuses the path for
    want of an extension, or returns a root with a slash in it that is a
    prefix of the path, followed by nothing or by a sub-path that begins with
    a slash. *)
Theorem vcsExtension_deduceRoot_prefix path :
  deduceRoot exm path = Err (ErrNoVcsExtensionHints path) \/
  exists root sub,
    deduceRoot exm path = Ok (simpleStringFuture root) /\
    path = (root ++ sub)%string /\ slash_led sub /\
    exists a b, root = (a ++ "/" ++ b)%string.
Proof.
  simpl deduceRoot. unfold vcsExtensionMatcher_deduceRoot.
  change (vcsExtension_regexp exm) with vcsExtensionRegex.
  destruct (FindStringSubmatch vcsExtensionRegex path) as [v|] eqn:H;
    [right | left; reflexivity].
  destruct (vcsExtensionRegex_submatch path v H) as (root & vcs & Hroot & _ & _ & Hab).
  unfold vcsExtensionRegex in H. cbn [Seq] in H. unfold subpath in H.
  apply (rooted_regex_submatch _ _ 6 slash_led) in H
    as (root' & sub & _ & Hroot' & _ & Hp & Hsub);
    [ | lia | lia | intros [] | apply consumes_subpath ].
  rewrite Hroot in Hroot'. injection Hroot' as <-.
  exists root, sub. unfold index. rewrite Hroot. auto.
Qed.

Lemma hosted_deduceRoot_prefix_witness :
  deduceRoot github "github.com/user/repo/pkg"
  = Ok (simpleStringFuture "github.com/user/repo")
  /\ deduceRoot github "github.com/user" = Err (ErrNotValidPathFor "github.com/user" "github.com")
  /\ rooted_spec github "github.com".
Proof.
  split; [vm_compute; reflexivity|]. split; [vm_compute; reflexivity|].
  exact (proj1 hosted_deduceRoot_prefix).
Defined.

Lemma vcsExtension_deduceRoot_prefix_witness :
  deduceRoot exm "example.com/foo/bar.git/pkg"
  = Ok (simpleStringFuture "example.com/foo/bar.git")
  /\ (deduceRoot exm "example.com/foo/bar.git/pkg"
      = Err (ErrNoVcsExtensionHints "example.com/foo/bar.git/pkg") \/
      exists root sub,
        deduceRoot exm "example.com/foo/bar.git/pkg" = Ok (simpleStringFuture root) /\
        "example.com/foo/bar.git/pkg" = (root ++ sub)%string /\ slash_led sub /\
        exists a b, root = (a ++ "/" ++ b)%string).
Proof.
  split; [vm_compute; reflexivity|].
  exact (vcsExtension_deduceRoot_prefix "example.com/foo/bar.git/pkg").
Defined.

(** X10: [deduceRoot] of the Launchpad matcher never panics, and the root it
    returns is [launchpad.net/] followed by a name that is not empty, and is
    a prefix of the path.  Its pattern has no anchor at the end, so nothing
    is required of what follows the root. *)
Theorem launchpad_deduceRoot_prefix path :
  deduceRoot launchpad path = Err (ErrNotValidPathFor path "launchpad.net") \/
  exists repo rest,
    deduceRoot launchpad path = Ok (simpleStringFuture ("launchpad.net/" ++ repo)) /\
    path = ("launchpad.net/" ++ repo ++ rest)%string /\ repo <> "".
Proof.
  simpl deduceRoot. unfold simple_deduceRoot.
  change (launchpad_regexp launchpad) with lpRegex.
  destruct (FindStringSubmatch lpRegex path) as [v|] eqn:H; [right | left; reflexivity].
  apply FindStringSubmatch_lookup in H as (res & H & Hv).
  unfold index. rewrite (Hv 2) by (vm_compute; lia). clear Hv v.
  apply search_sound in H as (s0 & i0 & A0 & H).
  unfold lpRegex in H. cbn [Seq] in H.
  rewrite run_Concat_eq, run_BeginText_eq in H.
  destruct (Nat.eqb_spec i0 0) as [->|]; [|discriminate].
  destruct A0 as (w0 & -> & Hw0).
  destruct w0; [|discriminate]. rewrite append_nil_l in *. clear Hw0.
  rewrite run_Concat_eq, run_Capture_eq, run_Concat_eq in H.
  apply run_Lit_inv in H as (s1 & -> & H). cbv beta in H.
  rewrite run_Capture_eq in H. unfold Plus at 1 in H. rewrite run_Concat_eq in H.
  apply run_CharClass_inv in H as (b & s2 & -> & _ & H). cbv beta in H.
  apply run_frame in H as (s3 & i3 & c3 & H & (w & -> & ->) & _). cbv beta in H.
  apply run_frame in H as (s4 & i4 & c4 & H & (rest & -> & ->) & F).
  apply (inj Some) in H; subst res.
  exists (String b w), (rest ++ s4)%string.
  split; [|split; [rewrite append_cons; reflexivity | discriminate]].
  change (mbind ?f (Ok ?x)) with (f x). cbv beta.
  change ("launchpad.net" ++ "/" ++ ?x)%string with ("launchpad.net/" ++ x)%string.
  do 3 f_equal.
  assert (L2 : cap_lookup 2
                 ((0, (0, S (0 + String.length "launchpad.net/") + String.length w
                          + String.length rest)) :: c4)
               = Some (0 + String.length "launchpad.net/",
                       S (0 + String.length "launchpad.net/") + String.length w)).
  { rewrite cap_lookup_cons. change (2 =? 0)%nat with false. cbv iota.
    rewrite F by (vm_compute; intros [?|[]]; discriminate).
    reflexivity. }
  eapply (submatch_text_at _ _ 2 "launchpad.net/" (String b w) (rest ++ s4));
    [rewrite append_cons; reflexivity | exact L2 | reflexivity | string_len].
Qed.

Lemma launchpad_deduceRoot_prefix_witness :
  deduceRoot launchpad "launchpad.net/foo~bar"
  = Ok (simpleStringFuture "launchpad.net/foo")
  /\ (deduceRoot launchpad "launchpad.net/foo~bar"
      = Err (ErrNotValidPathFor "launchpad.net/foo~bar" "launchpad.net") \/
      exists repo rest,
        deduceRoot launchpad "launchpad.net/foo~bar"
        = Ok (simpleStringFuture ("launchpad.net/" ++ repo)) /\
        "launchpad.net/foo~bar" = ("launchpad.net/" ++ repo ++ rest)%string /\ repo <> "").
Proof.
  split; [vm_compute; reflexivity|].
  exact (launchpad_deduceRoot_prefix "launchpad.net/foo~bar").
Defined.

(** ** normalizeURI *)

(** A string the grammar of import paths accepts begins with a letter, a
    digit or a hyphen and has a dot further on. *)
Lemma pathvld_shape s :
  MatchString pathvld s = true ->
  exists b w rest, s = String b (w ++ "." ++ rest) /\ label_char b = true.
Proof.
  unfold MatchString. destruct (search pathvld s 0) as [res|] eqn:H; [|discriminate].
  intros _.
  apply search_sound in H as (s0 & i0 & A0 & H).
  unfold pathvld in H. cbn [Seq] in H.
  rewrite run_Concat_eq, run_BeginText_eq in H.
  destruct (Nat.eqb_spec i0 0) as [->|]; [|discriminate].
  destruct A0 as (w0 & -> & Hw0).
  destruct w0; [|discriminate]. rewrite append_nil_l in *. clear Hw0.
  rewrite run_Concat_eq, run_Capture_eq in H.
  unfold Plus at 1 in H. rewrite run_Concat_eq in H.
  apply run_CharClass_inv in H as (b & s1 & -> & Hb & H). cbv beta in H.
  apply run_frame in H as (s2 & i2 & c2 & H & (w & -> & ->) & _). cbv beta in H.
  rewrite run_Concat_eq in H. unfold Plus at 1 in H.
  rewrite run_Concat_eq, run_Capture_eq, run_Concat_eq in H.
  apply run_Literal_inv in H as (s3 & -> & _).
  exists b, w, s3. split; [reflexivity | exact Hb].
Qed.

Section NormalizeURI.

Context `{E : External}.

(** X11: [normalizeURI] never panics.  What it returns is the URL of the SCP-like
    form when the input has that form and else what [url.Parse] returns,
    unchanged; and the host and path of the URL it returns, joined, begin
    with a letter, a digit or a hyphen and have a dot further on.  What it
    refuses, it refuses as no URI (only when [url.Parse] fails) or as no
    import path. *)
Theorem normalizeURI_sound (path : string) :
  match normalizeURI path with
  | Ok u =>
      ((exists user host rest,
          path = (user ++ "@" ++ host ++ ":" ++ rest)%string /\ u = scp_url user host rest)
       \/ (FindStringSubmatch scpSyntaxRe path = None /\ url_Parse path = Some u))
      /\ MatchString pathvld (import_path_of u) = true
      /\ exists b w rest, import_path_of u = String b (w ++ "." ++ rest) /\ label_char b = true
  | Err e =>
      (e = ErrNotValidURI path /\ FindStringSubmatch scpSyntaxRe path = None
       /\ url_Parse path = None)
      \/ exists p, e = ErrNotValidImportPath p /\ MatchString pathvld p = false
  | Panic _ => False
  end.
Proof.
  assert (Hgen : forall u (Hsrc :
              (exists user host rest,
                 path = (user ++ "@" ++ host ++ ":" ++ rest)%string /\
                 u = scp_url user host rest)
              \/ (FindStringSubmatch scpSyntaxRe path = None /\ url_Parse path = Some u)),
            match (if negb (MatchString pathvld (import_path_of u))
                   then Err (ErrNotValidImportPath (import_path_of u))
                   else Ok u) with
            | Ok u =>
                ((exists user host rest,
                    path = (user ++ "@" ++ host ++ ":" ++ rest)%string /\
                    u = scp_url user host rest)
                 \/ (FindStringSubmatch scpSyntaxRe path = None /\ url_Parse path = Some u))
                /\ MatchString pathvld (import_path_of u) = true
                /\ exists b w rest,
                     import_path_of u = String b (w ++ "." ++ rest) /\ label_char b = true
            | Err e =>
                (e = ErrNotValidURI path /\ FindStringSubmatch scpSyntaxRe path = None
                 /\ url_Parse path = None)
                \/ exists p, e = ErrNotValidImportPath p /\ MatchString pathvld p = false
            | Panic _ => False
            end).
  { intros u Hsrc.
    destruct (MatchString pathvld (import_path_of u)) eqn:Hm; cbv [negb].
    - split; [exact Hsrc|]. split; [exact Hm|]. apply pathvld_shape, Hm.
    - right. eexists; split; [reflexivity | exact Hm]. }
  unfold normalizeURI.
  destruct (FindStringSubmatch scpSyntaxRe path) as [m|] eqn:Hm.
  - destruct (scpSyntaxRe_submatch path m Hm) as (user & host & rest & -> & Hp & _).
    change (index [path; user; host; rest] 1) with (Ok (A := string) user).
    change (index [path; user; host; rest] 2) with (Ok (A := string) host).
    change (index [path; user; host; rest] 3) with (Ok (A := string) rest).
    change (mbind ?f (Ok user)) with (f user). cbv beta.
    change (mbind ?f (Ok host)) with (f host). cbv beta.
    change (mbind ?f (Ok rest)) with (f rest). cbv beta.
    change (mbind ?f (Ok ?x)) with (f x). cbv beta zeta.
    apply (Hgen (scp_url user host rest)). left. eauto.
  - destruct (url_Parse path) as [u|] eqn:Hu.
    + change (mbind ?f (Ok ?x)) with (f x). cbv beta zeta.
      apply (Hgen u). right. auto.
    + left. auto.
Qed.

End NormalizeURI.

(** ** The stages of deduceFromPath *)

Lemma vcsExtension_deduceRoot_cases path :
  match FindStringSubmatch vcsExtensionRegex path with
  | Some v => exists root, deduceRoot exm path = Ok (simpleStringFuture root)
  | None => deduceRoot exm path = Err (ErrNoVcsExtensionHints path)
  end.
Proof.
  simpl deduceRoot. unfold vcsExtensionMatcher_deduceRoot.
  change (vcsExtension_regexp exm) with vcsExtensionRegex.
  destruct (FindStringSubmatch vcsExtensionRegex path) as [v|] eqn:H; [|reflexivity].
  destruct (FindStringSubmatch_index _ _ _ 1 H) as (root & Hroot); [vm_compute; lia|].
  exists root. unfold index. rewrite Hroot. reflexivity.
Qed.

Section Stages.

Context `{E : External}.

(** X12: [deduceFromPath] starts the metadata fetch, the only way it has to
    reach the network, exactly when the path is a valid import path that no
    registered prefix and no VCS extension claims.  It then returns the two
    futures of the vanity stage, and with them a non-nil error: the one the
    generic matcher has left in the named result [err], which nothing resets
    before the final [return].  In every other case it returns with nothing
    started, and if it returns futures the error is nil. *)
Theorem deduceFromPath_fetches_iff (sm : SourceMgr) (path : string) :
  ((exists u, normalizeURI path = Ok u) /\
   LongestPrefix (rootxt sm) path = None /\
   FindStringSubmatch vcsExtensionRegex path = None ->
   deduceFromPath sm path
   = ([GoMetadata path],
      Ok (deduceFromPath_root path, deduceFromPath_src path,
          Some (ErrNoVcsExtensionHints path)))) /\
  (~ ((exists u, normalizeURI path = Ok u) /\
      LongestPrefix (rootxt sm) path = None /\
      FindStringSubmatch vcsExtensionRegex path = None) ->
   (deduceFromPath sm path).1 = [] /\
   forall root src err,
     (deduceFromPath sm path).2 = Ok (root, src, err) -> err = None).
Proof.
  pose proof (vcsExtension_deduceRoot_cases path) as Hx.
  unfold deduceFromPath.
  change {| vcsExtension_regexp := vcsExtensionRegex |} with exm.
  split.
  - intros ((u & Hu) & Hl & Hv). rewrite Hu, Hl.
    rewrite Hv in Hx. rewrite Hx. reflexivity.
  - intros Hn.
    destruct (normalizeURI path) as [u|e|p];
      [| split; [reflexivity | discriminate] | split; [reflexivity | discriminate]].
    destruct (LongestPrefix (rootxt sm) path) as [[key [M HM mtch]]|] eqn:Hl.
    + destruct (deduceRoot mtch path) as [root|e|p];
        [| split; [reflexivity | discriminate] | split; [reflexivity | discriminate]].
      destruct (deduceSource mtch path u);
        (split; [reflexivity | simpl; congruence]).
    + destruct (FindStringSubmatch vcsExtensionRegex path) as [v|] eqn:Hv.
      * destruct Hx as (root & ->).
        destruct (deduceSource exm path u);
          (split; [reflexivity | simpl; congruence]).
      * exfalso. apply Hn. eauto.
Qed.

End Stages.

Section OfflineStages.

Import Offline.

Lemma deduceFromPath_fetches_iff_witness :
  ((exists u, normalizeURI "example.org/pkg" = Ok u) /\
   LongestPrefix registry "example.org/pkg" = None /\
   FindStringSubmatch vcsExtensionRegex "example.org/pkg" = None)
  /\ deduceFromPath {| rootxt := registry |} "example.org/pkg"
     = ([GoMetadata "example.org/pkg"],
        Ok (deduceFromPath_root "example.org/pkg", deduceFromPath_src "example.org/pkg",
            Some (ErrNoVcsExtensionHints "example.org/pkg")))
  /\ ~ ((exists u, normalizeURI "github.com/user/repo" = Ok u) /\
        LongestPrefix registry "github.com/user/repo" = None /\
        FindStringSubmatch vcsExtensionRegex "github.com/user/repo" = None)
  /\ (deduceFromPath {| rootxt := registry |} "github.com/user/repo").1 = []
  /\ forall root src err,
       (deduceFromPath {| rootxt := registry |} "github.com/user/repo").2
       = Ok (root, src, err) -> err = None.
Proof.
  assert (H1 : (exists u, normalizeURI "example.org/pkg" = Ok u) /\
               LongestPrefix registry "example.org/pkg" = None /\
               FindStringSubmatch vcsExtensionRegex "example.org/pkg" = None).
  { split; [eexists; reflexivity|]. split; reflexivity. }
  assert (H2 : ~ ((exists u, normalizeURI "github.com/user/repo" = Ok u) /\
                  LongestPrefix registry "github.com/user/repo" = None /\
                  FindStringSubmatch vcsExtensionRegex "github.com/user/repo" = None)).
  { intros (_ & Hl & _). discriminate Hl. }
  split; [exact H1|].
  split; [exact (proj1 (deduceFromPath_fetches_iff {| rootxt := registry |}
                          "example.org/pkg") H1)|].
  split; [exact H2|].
  exact (proj2 (deduceFromPath_fetches_iff {| rootxt := registry |}
                  "github.com/user/repo") H2).
Defined.

End OfflineStages.

(** ** Fetching and reading the metadata *)

Lemma matching_from_snd path imports : forall i,
  (matching_from path i imports).*2 = matching path imports.
Proof.
  induction imports as [|im rest IH]; intros i; simpl; [reflexivity|].
  unfold matching in *. simpl.
  destruct (strings.HasPrefix path (Prefix im)); simpl; rewrite IH; reflexivity.
Qed.

Lemma matching_from_lookup path imports : forall i j im,
  In (j, im) (matching_from path i imports) ->
  i <= j /\ imports !! (j - i) = Some im.
Proof.
  induction imports as [|im0 rest IH]; intros i j im Hin; simpl in Hin; [destruct Hin|].
  assert (Hrest : In (j, im) (matching_from path (S i) rest) ->
                  i <= j /\ (im0 :: rest) !! (j - i) = Some im).
  { intros H. apply IH in H as [Hle Hl]. split; [lia|].
    replace (j - i) with (S (j - S i)) by lia. exact Hl. }
  destruct (strings.HasPrefix path (Prefix im0)); [|auto].
  destruct Hin as [[= <- <-]|Hin]; [|auto].
  split; [lia|]. rewrite Nat.sub_diag. reflexivity.
Qed.

(** The loop of [parseMetadata]: it ends with the position of the only tag
    whose prefix fits, with none when no prefix fits, and with the error when
    two do. *)
Lemma select_import_spec path imports : forall i found,
  select_import path imports i found
  = match found, matching_from path i imports with
    | None, [] => Ok None
    | None, [(j, _)] => Ok (Some j)
    | Some f, [] => Ok (Some f)
    | _, _ => Err (ErrMultipleMetaTags path)
    end.
Proof.
  induction imports as [|im rest IH]; intros i found; simpl.
  - destruct found; reflexivity.
  - destruct (strings.HasPrefix path (Prefix im)); cbv [negb].
    + destruct found as [f|].
      * reflexivity.
      * rewrite IH. destruct (matching_from path (S i) rest) as [|[j im'] l]; reflexivity.
    + apply IH.
Qed.

Section Metadata.

Context `{E : External}.

Lemma fetchMetadata_eq (path : string) (w : World) :
  fetchMetadata path w
  = match http_Get (go_get_url "https" path) w with
    | (Some body, w1) => (Ok body, w1, [EvHttpGet (go_get_url "https" path)])
    | (None, w1) =>
        match http_Get (go_get_url "http" path) w1 with
        | (Some body, w2) =>
            (Ok body, w2, [EvHttpGet (go_get_url "https" path);
                           EvHttpGet (go_get_url "http" path)])
        | (None, w2) =>
            (Err (ErrMetadataProtocol (ErrFailedToAccess (go_get_url "http" path))), w2,
             [EvHttpGet (go_get_url "https" path); EvHttpGet (go_get_url "http" path)])
        end
    end.
Proof.
  unfold fetchMetadata, doFetchMetadata, go_get_url.
  change (("https" =? "https")%string || ("https" =? "http")%string) with true.
  change (("http" =? "https")%string || ("http" =? "http")%string) with true.
  cbv iota.
  destruct (http_Get ("https" ++ "://" ++ path ++ "?go-get=1") w) as [[body|] w1];
    [reflexivity|].
  destruct (http_Get ("http" ++ "://" ++ path ++ "?go-get=1") w1) as [[body|] w2];
    reflexivity.
Qed.

Lemma fetchMetadata_no_panic path w r w' ev p :
  fetchMetadata path w = (r, w', ev) -> r <> Panic p.
Proof.
  rewrite fetchMetadata_eq.
  destruct (http_Get (go_get_url "https" path) w) as [[body|] w1];
    [intros [= <- _ _]; discriminate|].
  destruct (http_Get (go_get_url "http" path) w1) as [[body|] w2];
    intros [= <- _ _]; discriminate.
Qed.

(** [parseMetadata] from the return of [fetchMetadata] on. *)
Lemma parseMetadata_read_cases (path : string) (rc : result Body) :
  parseMetadata_read path rc
  = match rc with
    | Err e => Ok ("", "", "", Some e)
    | Panic p => Panic p
    | Ok body =>
        match parseMetaGoImports body with
        | Err e => Ok ("", "", "", Some e)
        | Panic p => Panic p
        | Ok imports => Ok (selected path imports)
        end
    end.
Proof.
  unfold parseMetadata_read.
  destruct rc as [body|e|p]; [|reflexivity|reflexivity].
  destruct (parseMetaGoImports body) as [imports|e|p]; [|reflexivity|reflexivity].
  rewrite select_import_spec. unfold selected.
  rewrite <- (matching_from_snd path imports 0).
  destruct (matching_from path 0 imports) as [|[j im] [|[j' im'] l]] eqn:Hm;
    [reflexivity| |reflexivity].
  destruct (matching_from_lookup path imports 0 j im) as [_ Hl];
    [rewrite Hm; left; reflexivity|].
  rewrite Nat.sub_0_r in Hl. simpl. unfold index. rewrite Hl. reflexivity.
Qed.

(** With a nil error the prefix is a prefix of the path; with an error the
    other results are empty. *)
Lemma parseMetadata_read_prefix path rc ir v rr fe :
  parseMetadata_read path rc = Ok (ir, v, rr, fe) ->
  (fe = None -> strings.HasPrefix path ir = true) /\
  (fe <> None -> ir = "" /\ v = "" /\ rr = "").
Proof.
  rewrite parseMetadata_read_cases.
  assert (Hsel : forall imports,
            Ok (A := string * string * string * option error) (selected path imports)
            = Ok (ir, v, rr, fe) ->
            (fe = None -> strings.HasPrefix path ir = true) /\
            (fe <> None -> ir = "" /\ v = "" /\ rr = "")).
  { intros imports [= Hsel]. unfold selected in Hsel.
    destruct (matching path imports) as [|im [|im' l]] eqn:Hm;
      injection Hsel as <- <- <- <-; try (split; [discriminate | auto]).
    split; [|congruence]. intros _.
    assert (Hin : In im (matching path imports)) by (rewrite Hm; left; reflexivity).
    unfold matching in Hin. apply List.filter_In in Hin as [_ Hp]. exact Hp. }
  destruct rc as [body|e|p]; [| |discriminate].
  - destruct (parseMetaGoImports body) as [imports|e|p]; [apply Hsel| |discriminate].
    intros [= <- <- <- <-]. split; [discriminate | auto].
  - intros [= <- <- <- <-]. split; [discriminate | auto].
Qed.

Lemma parseMetadata_cases (path : string) (w : World) :
  let '(r, w', ev) := parseMetadata path w in
  let '(rc, w1, ev1) := fetchMetadata path w in
  w' = w1 /\ ev = ev1 /\
  match rc with
  | Err e => r = Ok ("", "", "", Some e)
  | Panic p => False
  | Ok body =>
      match parseMetaGoImports body with
      | Err e => r = Ok ("", "", "", Some e)
      | Panic p => r = Panic p
      | Ok imports => r = Ok (selected path imports)
      end
  end.
Proof.
  unfold parseMetadata.
  destruct (fetchMetadata path w) as [[rc w1] ev1] eqn:Hf.
  split; [reflexivity|]. split; [reflexivity|].
  rewrite parseMetadata_read_cases.
  destruct rc as [body|e|p]; [|reflexivity|exact (fetchMetadata_no_panic _ _ _ _ _ _ Hf eq_refl)].
  destruct (parseMetaGoImports body) as [imports|e|p]; reflexivity.
Qed.

(** What a caller of [parseMetadata] can rely on: with a nil error the prefix
    it returns is a prefix of the path; with an error the other results are
    empty. *)
Lemma parseMetadata_prefix path w ir v rr fe w' ev :
  parseMetadata path w = (Ok (ir, v, rr, fe), w', ev) ->
  (fe = None -> strings.HasPrefix path ir = true) /\
  (fe <> None -> ir = "" /\ v = "" /\ rr = "").
Proof.
  unfold parseMetadata.
  destruct (fetchMetadata path w) as [[rc w1] ev1].
  intros [= H _ _]. exact (parseMetadata_read_prefix _ _ _ _ _ _ H).
Qed.

(** X14: [parseMetadata] asks the network what [fetchMetadata] asks and nothing
    more.  When the fetch fails, or the tags cannot be read, it returns that
    error; with the tags read, it returns the only tag whose prefix is a
    prefix of the path, the not-found error when there is none and the
    ambiguity error when there are several; its first three results are empty
    whenever it returns an error.  It panics only if reading the tags does.
    With a nil error the prefix it returns is a prefix of the path. *)
Theorem parseMetadata_spec (path : string) (w : World) :
  let '(r, w', ev) := parseMetadata path w in
  let '(rc, w1, ev1) := fetchMetadata path w in
  (w' = w1 /\ ev = ev1 /\
   match rc with
   | Err e => r = Ok ("", "", "", Some e)
   | Panic p => False
   | Ok body =>
       match parseMetaGoImports body with
       | Err e => r = Ok ("", "", "", Some e)
       | Panic p => r = Panic p
       | Ok imports => r = Ok (selected path imports)
       end
   end) /\
  (forall ir v rr fe, r = Ok (ir, v, rr, fe) ->
     (fe = None -> strings.HasPrefix path ir = true) /\
     (fe <> None -> ir = "" /\ v = "" /\ rr = "")).
Proof.
  pose proof (parseMetadata_cases path w) as Hs.
  destruct (parseMetadata path w) as [[r w'] ev] eqn:Hp.
  destruct (fetchMetadata path w) as [[rc w1] ev1] eqn:Hf.
  split; [exact Hs|].
  intros ir v rr fe ->. exact (parseMetadata_prefix _ _ _ _ _ _ _ _ Hp).
Qed.

End Metadata.

(** ** The futures of the vanity stage *)

Section RootFuture.

Context `{E : External}.

Lemma run_metadata_read_settles path rc st st' :
  run_metadata_read path rc st = Some st' -> root_settled path st'.
Proof.
  unfold run_metadata_read.
  destruct (parseMetadata_read path rc) as [[[[ir v] rr] fe]| |] eqn:Hp; try discriminate.
  destruct (parseMetadata_read_prefix _ _ _ _ _ _ Hp) as [Hok Herr].
  destruct fe as [e|].
  - intros [= <-] _. simpl. split; [discriminate|].
    intros e' [= <-]. destruct Herr as (-> & _); [discriminate|]. auto.
  - destruct (url_Parse rr) as [u|]; intros [= <-] _; simpl.
    + split; [|discriminate]. intros _. split; [discriminate | auto].
    + split; [discriminate|]. intros e' [= <-]. eauto.
Qed.

(** The metadata fetch stays with its path. *)
Lemma run_meta_path g st st' g' path :
  is_meta g = true ->
  match g with
  | GoMetadata p | GoMetadataHttp p | GoMetadataRead p _ => p = path
  | _ => True
  end ->
  run_goroutine g st = Some (st', Some g') ->
  match g' with
  | GoMetadata p | GoMetadataHttp p | GoMetadataRead p _ => p = path
  | _ => True
  end.
Proof.
  destruct g as [p | p | p rc | f0 mb cd an | f0 s e | f0 cd an | f0 s];
    try discriminate; intros _ ->; simpl.
  - unfold run_metadata.
    destruct (doFetchMetadata "https" path (world st)) as [[rc w1] ev1].
    intros [= <- <-]. destruct rc; reflexivity.
  - unfold run_metadata_http.
    destruct (doFetchMetadata "http" path (world st)) as [[rc w1] ev1].
    intros [= <- <-]. reflexivity.
  - destruct (run_metadata_read path rc st); discriminate.
Qed.

Lemma root_settled_step path a st st' :
  wf st -> fetches_for path st -> root_settled path st ->
  step a st = Some st' ->
  fetches_for path st' /\ root_settled path st'.
Proof.
  intros Hwf Hfor Hroot H.
  destruct a as [f cachedir an | n].
  - injection H as <-. split.
    + unfold fetches_for. simpl. apply Forall_app; split; [exact Hfor|].
      destruct f; repeat constructor.
    + exact Hroot.
  - simpl in H.
    destruct (running st !! n) as [g|] eqn:Hg; [|discriminate].
    destruct (run_goroutine g st) as [[st1 og]|] eqn:Hrun; [|discriminate].
    pose proof (proj1 (Forall_lookup _ _) Hfor n g Hg) as Hgp.
    destruct (goroutine_cases g) as [Hgm | (future & Hgm & Hgu)].
    + destruct (run_meta_effect _ _ _ _ Hgm Hrun) as (_ & Hr & _ & Heff).
      destruct og as [g'|]; injection H as <-.
      * destruct Heff as (_ & Hc & Hi & Hf & Hu & _). split.
        -- unfold fetches_for. simpl. rewrite Hr.
           apply Forall_insert; [exact Hfor|].
           exact (run_meta_path _ _ _ _ _ Hgm Hgp Hrun).
        -- unfold root_settled. simpl. rewrite Hc, Hf, Hi, Hu. exact Hroot.
      * split.
        -- unfold fetches_for. simpl. rewrite Hr. apply Forall_delete, Hfor.
        -- destruct g as [p | p | p rc | f0 mb cd an | f0 s e | f0 cd an | f0 s];
             try discriminate Hgm; simpl in Hrun.
           ++ destruct (run_metadata p st); discriminate.
           ++ destruct (run_metadata_http p st); discriminate.
           ++ simpl in Hgp; subst p.
              destruct (run_metadata_read path rc st) as [st2|] eqn:Hread; [|discriminate].
              injection Hrun as <-.
              exact (run_metadata_read_settles _ _ _ _ Hread).
    + destruct (run_unit_effect _ _ _ _ _ Hgm Hgu Hrun)
        as (Hr & Hc & Hi & Hf & Hu & _ & _ & Heff).
      destruct og as [g'|]; injection H as <-; split.
      * unfold fetches_for. simpl. rewrite Hr.
        apply Forall_insert; [exact Hfor|].
        destruct Heff as (_ & Hgm' & _). destruct g'; try discriminate; exact I.
      * unfold root_settled. simpl. rewrite Hc, Hf, Hi, Hu. exact Hroot.
      * unfold fetches_for. simpl. rewrite Hr. apply Forall_delete, Hfor.
      * unfold root_settled. simpl. rewrite Hc, Hf, Hi, Hu. exact Hroot.
Qed.

Lemma root_settled_exec path acts : forall st st',
  wf st -> fetches_for path st -> root_settled path st ->
  exec acts st = Some st' -> root_settled path st'.
Proof.
  induction acts as [|a acts IH]; intros st st' Hwf Hfor Hroot H; simpl in H.
  - injection H as <-. exact Hroot.
  - destruct (step a st) as [st1|] eqn:Hs; [|discriminate].
    destruct (root_settled_step path a st st1 Hwf Hfor Hroot Hs) as [Hfor1 Hroot1].
    exact (IH st1 st' (wf_step _ _ _ Hwf Hs) Hfor1 Hroot1 H).
Qed.

(** X15: Whatever the schedule, what the root future of the vanity stage returns
    is either a root that is a prefix of the path, with a nil error (and the
    URL of the repository is then set for the source units), or the empty
    string with the error that the path could not be deduced or that the
    server gave a bad URL. *)
Theorem root_future_result (w : World) (path : string) (acts : list action)
  (st : state) (root : string) (err : option error) :
  exec acts (initial w [GoMetadata path]) = Some st ->
  call_futureString (deduceFromPath_root path) st = Some (root, err) ->
  (err = None -> strings.HasPrefix path root = true /\ ru st <> None) /\
  (forall e, err = Some e ->
     root = "" /\ (e = ErrUnableToDeduce path \/ exists reporoot, e = ErrBadVanityURL reporoot)).
Proof.
  intros H Hcall.
  assert (Hwf : wf (initial w [GoMetadata path])) by (apply wf_initial; eauto).
  assert (Hfor : fetches_for path (initial w [GoMetadata path]))
    by (repeat constructor).
  assert (Hroot : root_settled path (initial w [GoMetadata path]))
    by (intros Hc; discriminate Hc).
  pose proof (root_settled_exec path acts _ _ Hwf Hfor Hroot H) as Hst.
  simpl in Hcall. destruct (c st) eqn:Hc; [|discriminate].
  injection Hcall as <- <-.
  destruct (Hst Hc) as [Hok Herr].
  split.
  - intros Hn. destruct (Hok Hn). auto.
  - exact Herr.
Qed.


End RootFuture.

Section OfflineRootFuture.

Import Offline OfflineRun.

Lemma root_future_result_witness :
  exec first_calls (initial tt [GoMetadata path]) = Some resolved
  /\ call_futureString (deduceFromPath_root path) resolved
     = Some ("", Some (ErrUnableToDeduce path))
  /\ (Some (ErrUnableToDeduce path) = None ->
        strings.HasPrefix path "" = true /\ ru resolved <> None)
  /\ (forall e, Some (ErrUnableToDeduce path) = Some e ->
        "" = "" /\
        (e = ErrUnableToDeduce path \/ exists reporoot, e = ErrBadVanityURL reporoot)).
Proof.
  assert (H1 : exec first_calls (initial tt [GoMetadata path]) = Some resolved)
    by reflexivity.
  assert (H2 : call_futureString (deduceFromPath_root path) resolved
               = Some ("", Some (ErrUnableToDeduce path))) by reflexivity.
  split; [exact H1|]. split; [exact H2|].
  exact (root_future_result tt path first_calls resolved _ _ H1 H2).
Defined.


Lemma chained_future_returns_nil_error_witness :
  Forall only_chained first_calls
  /\ exec first_calls (initial tt [GoMetadata path]) = Some resolved
  /\ call_futureSource 0 resolved = Some (None, None)
  /\ (forall id p, call_futureSource id resolved = Some p -> p.2 = None).
Proof.
  assert (H0 : Forall only_chained first_calls) by (repeat constructor).
  assert (H1 : exec first_calls (initial tt [GoMetadata path]) = Some resolved)
    by reflexivity.
  split; [exact H0|]. split; [exact H1|]. split; [reflexivity|].
  exact (chained_future_returns_nil_error tt path first_calls resolved H0 H1).
Defined.

End OfflineRootFuture.

Section Uninterrupted.

Context `{E : External}.

Lemma delete_insert_same {A} (l : list A) : forall n x,
  delete n (<[n := x]> l) = delete n l.
Proof.
  induction l as [|a l IH]; intros [|n] x; simpl; try reflexivity.
  f_equal. apply IH.
Qed.

Lemma exec_snoc acts a : forall st,
  exec (acts ++ [a]) st
  = match exec acts st with
    | Some st' => step a st'
    | None => None
    end.
Proof.
  induction acts as [|b acts IH]; intros st; simpl.
  - destruct (step a st); reflexivity.
  - destruct (step b st) as [st1|]; [apply IH | reflexivity].
Qed.

(** The last step of the metadata fetch. *)
Lemma metadata_read_step path rc st n :
  running st !! n = Some (GoMetadataRead path rc) ->
  match parseMetadata_read path rc with
  | Ok (ir, v, rr, fe) =>
      exists st', step (Schedule n) st = Some st' /\
        world st' = world st /\ trace st' = trace st /\
        running st' = delete n (running st) /\ cells st' = cells st /\
        vcs st' = v /\
        call_futureString (deduceFromPath_root path) st'
        = Some (match fe with
                | Some _ => (ir, Some (ErrUnableToDeduce path))
                | None => match url_Parse rr with
                          | Some _ => (ir, None)
                          | None => ("", Some (ErrBadVanityURL rr))
                          end
                end)
  | _ => step (Schedule n) st = None
  end.
Proof.
  intros Hg. simpl. rewrite Hg. simpl. unfold run_metadata_read.
  destruct (parseMetadata_read path rc) as [[[[ir v] rr] fe]| |]; [|reflexivity..].
  destruct fe as [e|]; [|destruct (url_Parse rr)];
    (eexists; split; [reflexivity|]; simpl; repeat split; reflexivity).
Qed.

Lemma metadata_step path st n :
  running st !! n = Some (GoMetadata path) ->
  let '(rc, w1, ev1) := doFetchMetadata "https" path (world st) in
  exists st1,
    step (Schedule n) st = Some st1 /\
    world st1 = w1 /\ trace st1 = trace st ++ ev1 /\ cells st1 = cells st /\
    running st1 = <[n := match rc with
                         | Ok body => GoMetadataRead path (Ok body)
                         | _ => GoMetadataHttp path
                         end]> (running st).
Proof.
  intros Hg. simpl. rewrite Hg. simpl. unfold run_metadata.
  destruct (doFetchMetadata "https" path (world st)) as [[rc w1] ev1].
  eexists; split; [reflexivity|]. simpl. repeat split; reflexivity.
Qed.

Lemma metadata_http_step path st n :
  running st !! n = Some (GoMetadataHttp path) ->
  let '(rc, w2, ev2) := doFetchMetadata "http" path (world st) in
  exists st2,
    step (Schedule n) st = Some st2 /\
    world st2 = w2 /\ trace st2 = trace st ++ ev2 /\ cells st2 = cells st /\
    running st2 = <[n := GoMetadataRead path (fetchMetadata_deferred rc)]> (running st).
Proof.
  intros Hg. simpl. rewrite Hg. simpl. unfold run_metadata_http.
  destruct (doFetchMetadata "http" path (world st)) as [[rc w2] ev2].
  eexists; split; [reflexivity|]. simpl. repeat split; reflexivity.
Qed.

(** X20: Left to run without interruption, the metadata goroutine of
    [deduceFromPath] does in its two or three steps what its body says:
    [parseMetadata] on the path, in the world as it finds it, and then the
    assignments to the variables of the root future, after which the root
    future returns the root with a nil error, or the error of the stage;
    when [parseMetadata] panics, so does the goroutine. *)
Theorem metadata_fetch_uninterrupted (path : string) (st : state) (n : nat) :
  running st !! n = Some (GoMetadata path) ->
  let '(r, w', ev) := parseMetadata path (world st) in
  exists k, 2 <= k <= 3 /\
    match r with
    | Ok (ir, v, rr, fe) =>
        exists st', exec (replicate k (Schedule n)) st = Some st' /\
          world st' = w' /\ trace st' = trace st ++ ev /\
          running st' = delete n (running st) /\ cells st' = cells st /\
          vcs st' = v /\
          call_futureString (deduceFromPath_root path) st'
          = Some (match fe with
                  | Some _ => (ir, Some (ErrUnableToDeduce path))
                  | None => match url_Parse rr with
                            | Some _ => (ir, None)
                            | None => ("", Some (ErrBadVanityURL rr))
                            end
                  end)
    | _ => exec (replicate k (Schedule n)) st = None
    end.
Proof.
  intros Hg.
  pose proof (lookup_lt_Some _ _ _ Hg) as Hn.
  pose proof (metadata_step path st n Hg) as H1.
  unfold parseMetadata, fetchMetadata.
  destruct (doFetchMetadata "https" path (world st)) as [[rc1 w1] ev1].
  destruct H1 as (st1 & Hs1 & Hw1 & Ht1 & Hc1 & Hr1).
  assert (Hlast : forall rc (st2 : state) w' ev k acts,
            2 <= S k <= 3 -> acts = replicate k (Schedule n) ->
            exec acts st = Some st2 ->
            world st2 = w' -> trace st2 = trace st ++ ev -> cells st2 = cells st ->
            running st2 = <[n := GoMetadataRead path rc]> (running st) ->
            exists k, 2 <= k <= 3 /\
              match parseMetadata_read path rc with
              | Ok (ir, v, rr, fe) =>
                  exists st', exec (replicate k (Schedule n)) st = Some st' /\
                    world st' = w' /\ trace st' = trace st ++ ev /\
                    running st' = delete n (running st) /\ cells st' = cells st /\
                    vcs st' = v /\
                    call_futureString (deduceFromPath_root path) st'
                    = Some (match fe with
                            | Some _ => (ir, Some (ErrUnableToDeduce path))
                            | None => match url_Parse rr with
                                      | Some _ => (ir, None)
                                      | None => ("", Some (ErrBadVanityURL rr))
                                      end
                            end)
              | _ => exec (replicate k (Schedule n)) st = None
              end).
  { intros rc st2 w' ev k acts Hk -> Hex Hw Ht Hc Hr.
    assert (Hg2 : running st2 !! n = Some (GoMetadataRead path rc))
      by (rewrite Hr; apply list_lookup_insert_eq, Hn).
    pose proof (metadata_read_step path rc st2 n Hg2) as Hread.
    exists (S k). split; [exact Hk|].
    replace (S k) with (k + 1) by lia.
    rewrite replicate_add. change (replicate 1 (Schedule n)) with [Schedule n].
    rewrite exec_snoc, Hex.
    destruct (parseMetadata_read path rc) as [[[[ir v] rr] fe]| |]; [|exact Hread..].
    destruct Hread as (st' & Hs & Hw' & Ht' & Hr' & Hc' & Hv & Hcall).
    exists st'. split; [exact Hs|].
    split; [congruence|]. split; [congruence|].
    split; [rewrite Hr', Hr; apply delete_insert_same|].
    split; [congruence|]. split; [exact Hv | exact Hcall]. }
  destruct rc1 as [body|e|p].
  - apply (Hlast (Ok body) st1 w1 ev1 1 [Schedule n] ltac:(lia) eq_refl);
      [cbn [exec]; rewrite Hs1; reflexivity | exact Hw1 | exact Ht1 | exact Hc1 | exact Hr1].
  - assert (Hg1 : running st1 !! n = Some (GoMetadataHttp path))
      by (rewrite Hr1; apply list_lookup_insert_eq, Hn).
    pose proof (metadata_http_step path st1 n Hg1) as H2. rewrite Hw1 in H2.
    destruct (doFetchMetadata "http" path w1) as [[rc2 w2] ev2].
    destruct H2 as (st2 & Hs2 & Hw2 & Ht2 & Hc2 & Hr2).
    apply (Hlast (fetchMetadata_deferred rc2) st2 w2 (ev1 ++ ev2) 2
             [Schedule n; Schedule n] ltac:(lia) eq_refl).
    + cbn [exec]. rewrite Hs1, Hs2. reflexivity.
    + exact Hw2.
    + rewrite Ht2, Ht1, app_assoc. reflexivity.
    + congruence.
    + rewrite Hr2, Hr1. apply list_insert_insert_eq.
  - assert (Hg1 : running st1 !! n = Some (GoMetadataHttp path))
      by (rewrite Hr1; apply list_lookup_insert_eq, Hn).
    pose proof (metadata_http_step path st1 n Hg1) as H2. rewrite Hw1 in H2.
    destruct (doFetchMetadata "http" path w1) as [[rc2 w2] ev2].
    destruct H2 as (st2 & Hs2 & Hw2 & Ht2 & Hc2 & Hr2).
    apply (Hlast (fetchMetadata_deferred rc2) st2 w2 (ev1 ++ ev2) 2
             [Schedule n; Schedule n] ltac:(lia) eq_refl).
    + cbn [exec]. rewrite Hs1, Hs2. reflexivity.
    + exact Hw2.
    + rewrite Ht2, Ht1, app_assoc. reflexivity.
    + congruence.
    + rewrite Hr2, Hr1. apply list_insert_insert_eq.
Qed.

End Uninterrupted.

Section OfflineUninterrupted.

Import Offline OfflineRun.

Lemma metadata_fetch_uninterrupted_witness :
  running (initial tt [GoMetadata path]) !! 0 = Some (GoMetadata path)
  /\ parseMetadata path tt
     = (Ok ("", "", "",
            Some (ErrMetadataProtocol (ErrFailedToAccess (go_get_url "http" path)))),
        tt, [EvHttpGet (go_get_url "https" path); EvHttpGet (go_get_url "http" path)])
  /\ let '(r, w', ev) := parseMetadata path (world (initial tt [GoMetadata path])) in
     exists k, 2 <= k <= 3 /\
       match r with
       | Ok (ir, v, rr, fe) =>
           exists st', exec (replicate k (Schedule 0)) (initial tt [GoMetadata path])
                       = Some st' /\
             world st' = w' /\ trace st' = trace (initial tt [GoMetadata path]) ++ ev /\
             running st' = delete 0 (running (initial tt [GoMetadata path])) /\
             cells st' = cells (initial tt [GoMetadata path]) /\
             vcs st' = v /\
             call_futureString (deduceFromPath_root path) st'
             = Some (match fe with
                     | Some _ => (ir, Some (ErrUnableToDeduce path))
                     | None => match url_Parse rr with
                               | Some _ => (ir, None)
                               | None => ("", Some (ErrBadVanityURL rr))
                               end
                     end)
       | _ => exec (replicate k (Schedule 0)) (initial tt [GoMetadata path]) = None
       end.
Proof.
  split; [reflexivity|]. split; [reflexivity|].
  exact (metadata_fetch_uninterrupted path (initial tt [GoMetadata path]) 0 eq_refl).
Defined.

End OfflineUninterrupted.

Section Frugal.

Context `{E : External}.

Lemma doFetchMetadata_gets scheme path w rc w1 ev :
  scheme = "https" \/ scheme = "http" ->
  doFetchMetadata scheme path w = (rc, w1, ev) ->
  ev = [EvHttpGet (go_get_url scheme path)].
Proof.
  unfold doFetchMetadata, go_get_url.
  intros [-> | ->].
  - change (("https" =? "https")%string || ("https" =? "http")%string) with true.
    cbv iota.
    destruct (http_Get ("https" ++ "://" ++ path ++ "?go-get=1") w) as [[body|] w2];
      intros [= _ _ <-]; reflexivity.
  - change (("http" =? "https")%string || ("http" =? "http")%string) with true.
    cbv iota.
    destruct (http_Get ("http" ++ "://" ++ path ++ "?go-get=1") w) as [[body|] w2];
      intros [= _ _ <-]; reflexivity.
Qed.

(** Of the goroutines about, at most one is the metadata fetch. *)
Lemma filter_unique {A} (f : A -> bool) (l : list A) : forall n m x y,
  length (List.filter f l) <= 1 ->
  l !! n = Some x -> f x = true -> l !! m = Some y -> f y = true -> n = m.
Proof.
  induction l as [|a l IH]; intros n m x y Hlen Hn Hx Hm Hy; [discriminate|].
  simpl in Hlen.
  destruct n as [|n], m as [|m]; simpl in Hn, Hm.
  - reflexivity.
  - injection Hn as ->. rewrite Hx in Hlen. simpl in Hlen.
    pose proof (filter_length_delete f l m y Hm) as Hd. rewrite Hy in Hd. lia.
  - injection Hm as ->. rewrite Hy in Hlen. simpl in Hlen.
    pose proof (filter_length_delete f l n x Hn) as Hd. rewrite Hx in Hd. lia.
  - f_equal. apply (IH n m x y); auto.
    destruct (f a); simpl in Hlen; lia.
Qed.

(** Where a goroutine that is about after a step comes from. *)
Lemma lookup_stepped {A} (l : list A) (n : nat) (og : option A) (m : nat) (y : A) :
  match og with
  | Some g' => <[n := g']> l
  | None => delete n l
  end !! m = Some y ->
  og = Some y \/ exists m', m' <> n /\ l !! m' = Some y.
Proof.
  destruct og as [g'|].
  - intros H. apply list_lookup_insert_Some in H as [(_ & -> & _)|(Hne & H)]; eauto.
  - intros H. destruct (Nat.lt_ge_cases m n) as [Hlt|Hge].
    + rewrite list_lookup_delete_lt in H by exact Hlt. right. exists m. split; [lia | exact H].
    + rewrite list_lookup_delete_ge in H by exact Hge. right. exists (S m). split; [lia | exact H].
Qed.

Lemma step_running n st st' g st1 og :
  running st !! n = Some g ->
  run_goroutine g st = Some (st1, og) ->
  step (Schedule n) st = Some st' ->
  st' = set_running st1 (match og with
                         | Some g' => <[n := g']> (running st1)
                         | None => delete n (running st1)
                         end).
Proof.
  intros Hg Hrun H. simpl in H. rewrite Hg, Hrun in H.
  destruct og; injection H as <-; reflexivity.
Qed.

Lemma asked_unit path gets g : is_meta g = false -> asked path gets g.
Proof. destruct g; try discriminate; intros _; exact I. Qed.

Lemma frugal_step path a st st' :
  only_chained a -> wf st -> err_free st -> fetches_for path st -> frugal path st ->
  step a st = Some st' -> frugal path st'.
Proof.
  intros Ha Hwf [_ Hrun] Hfor (Hasked & Hpre & Hres & Htries) H.
  destruct a as [f cachedir an | n].
  - injection H as <-. unfold frugal. simpl.
    destruct f as [mb | p]; [destruct Ha|].
    split; [|split; [exact Hpre | split; [exact Hres | exact Htries]]].
    apply Forall_app; split; [exact Hasked|]. repeat constructor.
  - pose proof H as Hstep. simpl in H.
    destruct (running st !! n) as [g|] eqn:Hg; [|discriminate].
    destruct (run_goroutine g st) as [[st1 og]|] eqn:Hr; [|discriminate].
    clear H. rewrite (step_running _ _ _ _ _ _ Hg Hr Hstep). clear Hstep.
    pose proof (proj1 (Forall_lookup _ _) Hrun n g Hg) as Hgk.
    pose proof (proj1 (Forall_lookup _ _) Hfor n g Hg) as Hgp.
    pose proof (proj1 (Forall_lookup _ _) Hasked n g Hg) as Hga.
    assert (Hothers : forall gets g',
              is_meta g = true -> asked path gets g' ->
              Forall (asked path gets) (<[n := g']> (running st))).
    { intros gets g' Hgm Hg'. apply Forall_lookup. intros m y Hm.
      apply (lookup_stepped _ _ (Some g')) in Hm as [[= <-] | (m' & Hne & Hm)];
        [exact Hg'|].
      apply asked_unit. destruct (is_meta y) eqn:Hym; [|reflexivity].
      exfalso. apply Hne.
      apply (filter_unique is_meta (running st) m' n y g); auto.
      pose proof (wf_meta _ Hwf) as Hmeta. unfold metas in Hmeta. lia. }
    assert (Hsame : forall st2 : state,
              running st2 = running st -> http_gets (trace st2) = http_gets (trace st) ->
              (c st2 = true -> http_gets (trace st) <> []) ->
              (c st2 = false \/ futerr st2 <> None -> forall id, tries id (trace st2) = 0) ->
              (forall g', og = Some g' -> is_meta g' = false) ->
              frugal path (set_running st2 (match og with
                                            | Some g' => <[n := g']> (running st2)
                                            | None => delete n (running st2)
                                            end))).
    { intros st2 Hr2 Hh2 Hc2 Ht2 Hog. unfold frugal. simpl. rewrite Hr2, Hh2.
      split; [|split; [exact Hpre | split; [exact Hc2 | exact Ht2]]].
      destruct og as [g'|].
      - apply Forall_insert; [exact Hasked|]. apply asked_unit, Hog. reflexivity.
      - apply Forall_delete, Hasked. }
    destruct g as [p | p | p rc | f0 mb cd an | f0 s e | f0 cd an | f0 s];
      try destruct Hgk; simpl in Hr.
    + (* the request over https *)
      simpl in Hgp; subst p. simpl in Hga.
      pose proof (meta_not_closed _ _ _ Hwf Hg eq_refl) as Hc0.
      unfold run_metadata in Hr.
      destruct (doFetchMetadata "https" path (world st)) as [[rc w1] ev1] eqn:Hd.
      injection Hr as <- <-.
      pose proof (doFetchMetadata_gets _ _ _ _ _ _ (or_introl eq_refl) Hd) as ->.
      assert (Hgets : http_gets (trace st ++ [EvHttpGet (go_get_url "https" path)])
                      = [EvHttpGet (go_get_url "https" path)]).
      { rewrite http_gets_app, Hga. reflexivity. }
      unfold frugal. simpl. rewrite Hgets.
      split; [|split; [|split]].
      * apply Hothers; [reflexivity|]. destruct rc; simpl; [discriminate | reflexivity..].
      * exists [EvHttpGet (go_get_url "http" path)]. reflexivity.
      * discriminate.
      * intros _ id. rewrite tries_app. rewrite (Htries (or_introl Hc0) id). reflexivity.
    + (* the request over http *)
      simpl in Hgp; subst p. simpl in Hga.
      pose proof (meta_not_closed _ _ _ Hwf Hg eq_refl) as Hc0.
      unfold run_metadata_http in Hr.
      destruct (doFetchMetadata "http" path (world st)) as [[rc w1] ev1] eqn:Hd.
      injection Hr as <- <-.
      pose proof (doFetchMetadata_gets _ _ _ _ _ _ (or_intror eq_refl) Hd) as ->.
      assert (Hgets : http_gets (trace st ++ [EvHttpGet (go_get_url "http" path)])
                      = [EvHttpGet (go_get_url "https" path);
                         EvHttpGet (go_get_url "http" path)]).
      { rewrite http_gets_app, Hga. reflexivity. }
      unfold frugal. simpl. rewrite Hgets.
      split; [|split; [|split]].
      * apply Hothers; [reflexivity|]. simpl. discriminate.
      * exists []. reflexivity.
      * discriminate.
      * intros _ id. rewrite tries_app. rewrite (Htries (or_introl Hc0) id). reflexivity.
    + (* the end of the metadata fetch *)
      simpl in Hga.
      pose proof (meta_not_closed _ _ _ Hwf Hg eq_refl) as Hc0.
      destruct (run_meta_effect (GoMetadataRead p rc) st st1 og eq_refl)
        as (_ & Hr1 & Ht1 & Heff); [exact Hr|].
      destruct (run_metadata_read p rc st) as [st2|]; [|discriminate].
      injection Hr as <- <-. destruct Heff as (_ & Htr & _).
      apply Hsame; [exact Hr1 | rewrite Htr; reflexivity | intros _; exact Hga | | discriminate].
      intros _ id. rewrite Ht1. apply Htries. left. exact Hc0.
    + (* the start of a source unit *)
      destruct (run_chained_effect _ _ _ _ _ _ Hr) as (Hc & Heff).
      destruct og as [g'|].
      * destruct Heff as (Hf & _ & (src1 & ->) & (m & w1 & ->)).
        apply (Hsame (called st w1 [EvTry f0 m cd])).
        -- reflexivity.
        -- simpl. rewrite http_gets_app. simpl. apply app_nil_r.
        -- exact Hres.
        -- simpl. intros [Hc' | Hf']; congruence.
        -- intros g' [= <-]. reflexivity.
      * destruct Heff as (src' & ->).
        apply (Hsame (close_chained f0 src' st)); try reflexivity;
          [exact Hres | exact Htries | discriminate].
    + (* the end of a source unit *)
      injection Hr as <- <-.
      apply (Hsame (close_chained f0 (fun _ => s) st)); try reflexivity;
        [exact Hres | exact Htries | discriminate].
Qed.

Lemma frugal_exec path acts : forall st st',
  Forall only_chained acts -> wf st -> err_free st -> fetches_for path st ->
  root_settled path st -> frugal path st ->
  exec acts st = Some st' -> frugal path st'.
Proof.
  induction acts as [|a acts IH]; intros st st' Ha Hwf Hef Hfor Hroot Hfr H; simpl in H.
  - injection H as <-. exact Hfr.
  - destruct (step a st) as [st1|] eqn:Hs; [|discriminate].
    apply Forall_cons in Ha as [Ha Hacts].
    destruct (root_settled_step path a st st1 Hwf Hfor Hroot Hs) as [Hfor1 Hroot1].
    exact (IH st1 st' Hacts (wf_step _ _ _ Hwf Hs)
             (err_free_step _ _ _ Ha Hef Hs) Hfor1 Hroot1
             (frugal_step path _ _ _ Ha Hwf Hef Hfor Hfr Hs) H).
Qed.

(** X18: Whatever the schedule and however many sources the caller asks for,
    the requests of the vanity stage are one over https and then at most one
    over http, for the path with [?go-get=1], and no others; [try] is not
    called before the root future has resolved, and never once it has
    failed. *)
Theorem vanity_stage_frugal (w : World) (path : string) (acts : list action)
  (st : state) :
  Forall only_chained acts ->
  exec acts (initial w [GoMetadata path]) = Some st ->
  http_gets (trace st)
    `prefix_of` [EvHttpGet (go_get_url "https" path); EvHttpGet (go_get_url "http" path)] /\
  (c st = true -> http_gets (trace st) <> []) /\
  (c st = false -> forall id, tries id (trace st) = 0) /\
  (futerr st <> None -> forall id, tries id (trace st) = 0).
Proof.
  intros Ha H.
  assert (Hfr : frugal path st).
  { apply (frugal_exec path acts (initial w [GoMetadata path]) st Ha).
    - apply wf_initial; eauto.
    - split; simpl; repeat constructor.
    - repeat constructor.
    - intros Hc; discriminate Hc.
    - unfold frugal. simpl. split; [repeat constructor|].
      split; [eexists; reflexivity|]. split; [discriminate|]. reflexivity.
    - exact H. }
  destruct Hfr as (_ & Hpre & Hres & Htries).
  split; [exact Hpre|]. split; [exact Hres|].
  split; intros Hx; apply Htries; [left | right]; exact Hx.
Qed.

End Frugal.

Section OfflineFrugal.

Import Offline OfflineRun.

Lemma vanity_stage_frugal_witness :
  Forall only_chained (first_calls ++ later_calls)
  /\ exec (first_calls ++ later_calls) (initial tt [GoMetadata path]) = Some later
  /\ c later = true
  /\ futerr later <> None
  /\ trace later = [EvHttpGet (go_get_url "https" path); EvHttpGet (go_get_url "http" path)]
  /\ (http_gets (trace later)
        `prefix_of` [EvHttpGet (go_get_url "https" path);
                     EvHttpGet (go_get_url "http" path)] /\
      (c later = true -> http_gets (trace later) <> []) /\
      (c later = false -> forall id, tries id (trace later) = 0) /\
      (futerr later <> None -> forall id, tries id (trace later) = 0)).
Proof.
  assert (H0 : Forall only_chained (first_calls ++ later_calls)) by (repeat constructor).
  assert (H1 : exec (first_calls ++ later_calls) (initial tt [GoMetadata path]) = Some later)
    by reflexivity.
  split; [exact H0|]. split; [exact H1|]. split; [reflexivity|].
  split; [discriminate|]. split; [reflexivity|].
  exact (vanity_stage_frugal tt path _ later H0 H1).
Defined.

End OfflineFrugal.

(** ** deduceRemoteRepo *)

Lemma TrimPrefix_label (b : ascii) (s : string) :
  label_char b = true -> strings.TrimPrefix (String b s) "/" = String b s.
Proof.
  intros Hb. unfold strings.TrimPrefix, strings.HasPrefix.
  replace (String.prefix "/" (String b s)) with false; [reflexivity|].
  symmetry. destruct (String.prefix "/" (String b s)) eqn:Hp; [|reflexivity].
  apply prefix_correct in Hp. simpl in Hp. injection Hp as -> _.
  discriminate Hb.
Qed.

Lemma slice_from_0 (s : string) : slice_from s 0 = Ok s.
Proof.
  unfold slice_from. destruct (decide (0 <= String.length s)) as [_|Hn]; [|lia].
  rewrite Nat.sub_0_r, substring_all. reflexivity.
Qed.

Section DeduceRemoteRepo.

Import RemoteRepo.

Context `{E : External}.

(** X19: [deduceRemoteRepo] accepts exactly the inputs [normalizeURI] accepts and
    never panics.  What it returns has the URL of [normalizeURI] as clone
    URL, the scheme of that URL as its only scheme (none if the URL has
    none), an empty base, the whole import path as relative package and the
    empty string as its only VCS: it never finds a root or a kind. *)
Theorem deduceRemoteRepo_spec (path : string) :
  match deduceRemoteRepo path with
  | Ok rr =>
      exists u,
        normalizeURI path = Ok u /\
        rr = {| Base := ""; RelPkg := import_path_of u; CloneURL := Some u;
                Schemes := if String.eqb (Scheme u) "" then [] else [Scheme u];
                VCS := [""] |}
  | Err e =>
      exists e', normalizeURI path = Err e' /\
        (e = e' \/ (e = ErrNotValidImportPath path /\ e' = ErrNotValidURI path))
  | Panic _ => False
  end.
Proof.
  assert (Hgen : forall u,
            match
              (if negb (MatchString pathvld (import_path_of u))
               then Err (ErrNotValidImportPath (import_path_of u))
               else
                 rest ← slice_from (import_path_of u) (String.length "");
                 Ok {| Base := ""; RelPkg := strings.TrimPrefix rest "/";
                       CloneURL := Some u;
                       Schemes := if negb (String.eqb (Scheme u) "") then [Scheme u]
                                  else if negb (String.eqb (Scheme u) "")
                                       then [Scheme u] else [];
                       VCS := [""] |})
            with
            | Ok rr =>
                exists u0,
                  (if negb (MatchString pathvld (import_path_of u))
                   then Err (ErrNotValidImportPath (import_path_of u)) else Ok u) = Ok u0 /\
                  rr = {| Base := ""; RelPkg := import_path_of u0; CloneURL := Some u0;
                          Schemes := if String.eqb (Scheme u0) "" then [] else [Scheme u0];
                          VCS := [""] |}
            | Err e =>
                exists e',
                  (if negb (MatchString pathvld (import_path_of u))
                   then Err (ErrNotValidImportPath (import_path_of u)) else Ok u) = Err e' /\
                  (e = e' \/ (e = ErrNotValidImportPath path /\ e' = ErrNotValidURI path))
            | Panic _ => False
            end).
  { intros u.
    destruct (MatchString pathvld (import_path_of u)) eqn:Hm; cbv [negb].
    - destruct (pathvld_shape _ Hm) as (b & w & rest & Hip & Hb).
      change (String.length "") with 0. rewrite slice_from_0.
      change (mbind ?f (Ok ?x)) with (f x). cbv beta.
      exists u. split; [reflexivity|].
      rewrite Hip, (TrimPrefix_label _ _ Hb).
      destruct (String.eqb (Scheme u) ""); reflexivity.
    - eexists; split; [reflexivity | left; reflexivity]. }
  unfold deduceRemoteRepo, normalizeURI.
  destruct (FindStringSubmatch scpSyntaxRe path) as [m|] eqn:Hm.
  - destruct (scpSyntaxRe_submatch path m Hm) as (user & host & rest & -> & Hp & _).
    exact (Hgen (scp_url user host rest)).
  - destruct (url_Parse path) as [u|] eqn:Hu.
    + exact (Hgen u).
    + eexists; split; [reflexivity | right; auto].
Qed.

End DeduceRemoteRepo.

Section OfflineRemoteRepo.

Import Offline RemoteRepo.

Lemma normalizeURI_sound_witness :
  normalizeURI "git@github.com:user/repo" = Ok (scp_url "git" "github.com" "user/repo")
  /\ match normalizeURI "git@github.com:user/repo" with
     | Ok u =>
         ((exists user host rest,
             "git@github.com:user/repo" = (user ++ "@" ++ host ++ ":" ++ rest)%string /\
             u = scp_url user host rest)
          \/ (FindStringSubmatch scpSyntaxRe "git@github.com:user/repo" = None /\
              url_Parse "git@github.com:user/repo" = Some u))
         /\ MatchString pathvld (import_path_of u) = true
         /\ exists b w rest,
              import_path_of u = String b (w ++ "." ++ rest) /\ label_char b = true
     | Err e =>
         (e = ErrNotValidURI "git@github.com:user/repo" /\
          FindStringSubmatch scpSyntaxRe "git@github.com:user/repo" = None /\
          url_Parse "git@github.com:user/repo" = None)
         \/ exists p, e = ErrNotValidImportPath p /\ MatchString pathvld p = false
     | Panic _ => False
     end.
Proof.
  split; [reflexivity|].
  exact (normalizeURI_sound "git@github.com:user/repo").
Defined.

Lemma deduceRemoteRepo_spec_witness :
  deduceRemoteRepo "git@github.com:user/repo"
  = Ok {| Base := ""; RelPkg := "github.com/user/repo";
          CloneURL := Some (scp_url "git" "github.com" "user/repo");
          Schemes := ["ssh"]; VCS := [""] |}
  /\ match deduceRemoteRepo "git@github.com:user/repo" with
     | Ok rr =>
         exists u,
           normalizeURI "git@github.com:user/repo" = Ok u /\
           rr = {| Base := ""; RelPkg := import_path_of u; CloneURL := Some u;
                   Schemes := if String.eqb (Scheme u) "" then [] else [Scheme u];
                   VCS := [""] |}
     | Err e =>
         exists e', normalizeURI "git@github.com:user/repo" = Err e' /\
           (e = e' \/ (e = ErrNotValidImportPath "git@github.com:user/repo" /\
                       e' = ErrNotValidURI "git@github.com:user/repo"))
     | Panic _ => False
     end.
Proof.
  split; [reflexivity|].
  exact (deduceRemoteRepo_spec "git@github.com:user/repo").
Defined.

End OfflineRemoteRepo.
